(** * OpenClaw channel gateway: a shallow embedding of the TypeScript sources

    The development follows the layout of the repository:
    - [JS]: the ECMAScript string primitives the sources call;
    - [Hex]: Node's [Buffer] hex codec, as used by the credential vault;
    - [Vault]: [ChannelEncryption] and [ChannelRepository]
      (database/repositories/channel-repository.ts);
    - [Eff]: methods with state, exceptions and external calls;
    - [Gateway]: [OpenClawGateway.shutdown];
    - [Channels]: the Telegram, Discord and WhatsApp adapters
      (channels/telegram-adapter.ts, channels/whatsapp-adapter.ts);
    - [Auth]: [NexusAuthClient] (auth/nexus-auth-client.ts);
    - [Reference]: implementations of the interfaces below.

    Platform services that are not code of the repository (AES-256-GCM,
    JSON, UTF-8, Redis, the chat SDKs) enter as interfaces with the
    laws their documentation states, or as a world that answers the
    calls made to it; every interface is inhabited in [Reference]. The
    properties come last, one section per component. *)

From Stdlib Require Import String Ascii List ZArith Lia Bool.
From Stdlib Require Import DecimalZ DecimalPos Sorted.
From Stdlib.Strings Require Import Byte.
From stdpp Require Import gmap strings.
Import ListNotations.

Set Warnings "-register-all".

Local Open Scope string_scope.
Local Open Scope Z_scope.

(** ** ECMAScript string primitives *)

Module JS.

(** [String.prototype.includes(sub)]: [sub] occurs somewhere in [s]. *)
Fixpoint includes (s sub : string) : bool :=
  String.prefix sub s ||
  match s with
  | EmptyString => false
  | String _ s' => includes s' sub
  end.

(** The character class [\d] of a regular expression without the
    unicode flag: exactly the code units '0'..'9'. *)
Definition is_digit (c : ascii) : bool :=
  ((48 <=? nat_of_ascii c) && (nat_of_ascii c <=? 57))%nat.

(** [s.replace(/\D/g, '')]: every code unit that is not a digit is
    dropped, the others are kept in order. *)
Fixpoint replace_non_digits (s : string) : string :=
  match s with
  | EmptyString => EmptyString
  | String c s' =>
      if is_digit c then String c (replace_non_digits s')
      else replace_non_digits s'
  end.

(** [s.slice(start)] with one argument: a negative [start] counts from
    the end of the string and is clamped at the beginning. *)
Definition slice (s : string) (start : Z) : string :=
  let len := Z.of_nat (String.length s) in
  let from := if start <? 0 then Z.max (len + start) 0 else Z.min start len in
  substring (Z.to_nat from) (Z.to_nat (len - from)) s.

Example slice_last_two : slice "abcdef" (-2) = "ef".
Proof. reflexivity. Qed.

Example slice_short_string : slice "abc" (-16) = "abc".
Proof. reflexivity. Qed.

Example replace_keeps_digits : replace_non_digits "+1 (555) 01" = "155501".
Proof. reflexivity. Qed.

Example includes_empty : includes "abc" "" = true.
Proof. reflexivity. Qed.

Lemma includes_char_In (c : ascii) (s : string) :
  includes s (String c EmptyString) = true <-> In c (list_ascii_of_string s).
Proof.
  induction s as [|a s IH]; simpl.
  - split; [discriminate | contradiction].
  - destruct (ascii_dec c a) as [->|Hne].
    + destruct s; simpl; split; auto.
    + simpl. rewrite IH. split; [auto | intros [Heq|H]; [congruence | exact H]].
Qed.

Lemma replace_non_digits_filter (s : string) :
  replace_non_digits s =
  string_of_list_ascii (List.filter is_digit (list_ascii_of_string s)).
Proof.
  induction s as [|c s IH]; simpl; [reflexivity |].
  destruct (is_digit c); simpl; now rewrite IH.
Qed.

Lemma append_String (a : ascii) (s t : string) :
  String a s ++ t = String a (s ++ t).
Proof. reflexivity. Qed.

Lemma substring_all (s : string) : substring 0 (String.length s) s = s.
Proof. induction s as [|c s IH]; simpl; [reflexivity | now rewrite IH]. Qed.

Lemma substring_skip (p s : string) (n : nat) :
  substring (String.length p) n (p ++ s) = substring 0 n s.
Proof. induction p as [|c p IH]; simpl; [reflexivity | exact IH]. Qed.

Lemma length_append (p s : string) :
  String.length (p ++ s) = (String.length p + String.length s)%nat.
Proof. induction p as [|c p IH]; simpl; [reflexivity | now rewrite IH]. Qed.

(** Slicing the last [n] code units off a string that ends in a suffix of
    exactly that length (not empty) returns the suffix. *)
Lemma slice_suffix (p suf : string) :
  (0 < String.length suf)%nat ->
  slice (p ++ suf) (- Z.of_nat (String.length suf)) = suf.
Proof.
  intros Hpos. unfold slice. rewrite length_append.
  assert (Hlt : (- Z.of_nat (String.length suf) <? 0) = true) by (apply Z.ltb_lt; lia).
  rewrite Hlt.
  replace (Z.max (Z.of_nat (String.length p + String.length suf)
                  + - Z.of_nat (String.length suf)) 0)
    with (Z.of_nat (String.length p)) by lia.
  rewrite Nat2Z.id.
  replace (Z.to_nat (Z.of_nat (String.length p + String.length suf)
                     - Z.of_nat (String.length p)))
    with (String.length suf) by lia.
  rewrite substring_skip. apply substring_all.
Qed.

(** A string shorter than [n] is returned whole by [slice (-n)]. *)
Lemma slice_short (s : string) (n : nat) :
  (String.length s <= n)%nat -> slice s (- Z.of_nat n) = s.
Proof.
  intros Hle. unfold slice.
  destruct ((- Z.of_nat n) <? 0) eqn:Hlt.
  - rewrite Z.max_r by lia. rewrite Z.sub_0_r, Nat2Z.id. apply substring_all.
  - apply Z.ltb_ge in Hlt. assert (n = 0%nat) by lia. subst n.
    assert (String.length s = 0%nat) by lia.
    destruct s; [reflexivity | discriminate].
Qed.

End JS.

(** ** Node's [Buffer] hex codec *)

Module Hex.

Definition bytes := list byte.

(** One nibble as a lower-case hexadecimal digit, as [buf.toString('hex')]
    prints it. *)
Definition hex_digit (n : N) : ascii :=
  ascii_of_N (if (n <? 10)%N then 48 + n else 87 + n)%N.

(** The value of a hexadecimal digit, either case; [None] for any other
    code unit. *)
Definition hex_value (c : ascii) : option N :=
  let n := N_of_ascii c in
  if ((48 <=? n) && (n <=? 57))%N then Some (n - 48)%N
  else if ((97 <=? n) && (n <=? 102))%N then Some (n - 87)%N
  else if ((65 <=? n) && (n <=? 70))%N then Some (n - 55)%N
  else None.

(** [buf.toString('hex')]. *)
Fixpoint toString (b : bytes) : string :=
  match b with
  | [] => EmptyString
  | x :: rest =>
      String (hex_digit (Byte.to_N x / 16))
        (String (hex_digit (Byte.to_N x mod 16)) (toString rest))
  end.

(** [Buffer.from(s, 'hex')]: pairs of digits are decoded from the left;
    decoding stops, without an error, at the first pair that is not two
    hexadecimal digits, and a trailing single character is ignored. *)
Fixpoint from (s : string) : bytes :=
  match s with
  | String a (String b rest) =>
      match hex_value a, hex_value b with
      | Some h, Some l =>
          match Byte.of_N (16 * h + l) with
          | Some x => x :: from rest
          | None => []
          end
      | _, _ => []
      end
  | _ => []
  end.

(** The strings [toString] produces: an even number of code units, all
    of them hexadecimal digits. *)
Fixpoint is_hex_string (s : string) : bool :=
  match s with
  | EmptyString => true
  | String a (String b rest) =>
      match hex_value a, hex_value b with
      | Some _, Some _ => is_hex_string rest
      | _, _ => false
      end
  | String _ EmptyString => false
  end.

Example from_stops_at_bad_pair : from "1ag123" = [x1a].
Proof. reflexivity. Qed.

Example from_ignores_odd_tail : from "1a7" = [x1a].
Proof. reflexivity. Qed.

Example from_accepts_upper_case : from "1A2b" = [x1a; x2b].
Proof. reflexivity. Qed.

Example toString_lower_case : toString [x00; x1a; xff] = "001aff".
Proof. reflexivity. Qed.

Lemma from_byte (x : byte) (rest : string) :
  from (String (hex_digit (Byte.to_N x / 16))
          (String (hex_digit (Byte.to_N x mod 16)) rest)) = x :: from rest.
Proof. destruct x; reflexivity. Qed.

Lemma from_toString (b : bytes) : from (toString b) = b.
Proof.
  induction b as [|x rest IH]; [reflexivity |].
  cbn [toString]. rewrite from_byte. now rewrite IH.
Qed.

Lemma is_hex_toString (b : bytes) : is_hex_string (toString b) = true.
Proof.
  induction b as [|x rest IH]; [reflexivity |].
  cbn [toString]. revert IH. generalize (toString rest). intros s IH.
  destruct x; exact IH.
Qed.

(** Characters after the first pair that is not hexadecimal do not
    change the decoded bytes. *)
Lemma from_trailing (b : bytes) (a c : ascii) (junk : string) :
  hex_value a = None ->
  from (toString b ++ String a (String c junk)) = b.
Proof.
  intros Ha. induction b as [|x rest IH].
  - simpl. now rewrite Ha.
  - cbn [toString]. rewrite !JS.append_String, from_byte. now rewrite IH.
Qed.

End Hex.

(** ** Exceptions and results *)

(** The exceptions the sources raise or let through: a [TypeError] for a
    property read on [undefined], a [SyntaxError] from [JSON.parse], and
    plain [Error]s with their message. *)
Inductive exn :=
| TypeError (msg : string)
| SyntaxError
| Error (msg : string).

Inductive result (A : Type) :=
| Ok (a : A)
| Throw (e : exn).
Arguments Ok {A} a.
Arguments Throw {A} e.

Definition result_bind {A B : Type} (r : result A) (k : A -> result B) : result B :=
  match r with
  | Ok a => k a
  | Throw e => Throw e
  end.

Notation "'do' x <- r ; k" := (result_bind r (fun x => k))
  (at level 10, x name, r at level 100, k at level 200).

(** [enum ConnectionStatus] of types/channel.types. *)
Inductive ConnectionStatus := DISCONNECTED | CONNECTING | CONNECTED | ERROR.

#[global] Instance ConnectionStatus_eq_dec : EqDecision ConnectionStatus.
Proof. solve_decision. Defined.

(** ** The credential vault and the channel repository *)

Module Vault.

Import Hex.

(** *** JSON values *)

(** A JavaScript value in the image of [JSON.parse]. An object is the
    list of its own properties in enumeration order. *)
Inductive json (number : Type) : Type :=
| JNull
| JBool (b : bool)
| JNumber (n : number)
| JString (s : string)
| JArray (items : list (json number))
| JObject (props : list (string * json number)).
Arguments JNull {number}.
Arguments JBool {number} b.
Arguments JNumber {number} n.
Arguments JString {number} s.
Arguments JArray {number} items.
Arguments JObject {number} props.

(** An array index in the sense of ECMAScript: the canonical decimal
    spelling of an integer below 2^32 - 1. Such keys enumerate first, in
    ascending order; the other string keys follow in creation order. *)
Fixpoint digits_value (acc : N) (s : string) : option N :=
  match s with
  | EmptyString => Some acc
  | String c rest =>
      if JS.is_digit c
      then digits_value (10 * acc + (N_of_ascii c - 48))%N rest
      else None
  end.

Definition array_index (k : string) : option N :=
  match k with
  | EmptyString => None
  | String c rest =>
      if (c =? "0")%char
      then match rest with EmptyString => Some 0%N | _ => None end
      else match digits_value 0 k with
           | Some n => if (n <? 4294967295)%N then Some n else None
           | None => None
           end
  end.

Fixpoint distinct (ks : list string) : bool :=
  match ks with
  | [] => true
  | k :: rest => negb (existsb (String.eqb k) rest) && distinct rest
  end.

Definition is_none {A : Type} (o : option A) : bool :=
  match o with None => true | Some _ => false end.

(** The key lists an object can enumerate: strictly ascending array
    indices, then pairwise distinct keys none of which is an index. *)
Fixpoint own_keys_ordered (prev : option N) (ks : list string) : bool :=
  match ks with
  | [] => true
  | k :: rest =>
      match array_index k with
      | Some n =>
          match prev with Some p => (p <? n)%N | None => true end
          && own_keys_ordered (Some n) rest
      | None => forallb (fun k' => is_none (array_index k')) rest && distinct ks
      end
  end.

(** The values that denote a JavaScript value: every object lists its
    properties the way the engine enumerates them. *)
Fixpoint wf_json {number : Type} (v : json number) : bool :=
  match v with
  | JArray items => forallb wf_json items
  | JObject props =>
      own_keys_ordered None (map fst props)
      && forallb (fun kv => wf_json (snd kv)) props
  | _ => true
  end.

Example index_keys_come_first :
  wf_json (JObject [("2", @JNull unit); ("10", JNull); ("b", JNull); ("a", JNull)]) = true.
Proof. reflexivity. Qed.

Example index_key_after_string_key :
  wf_json (JObject [("a", @JNull unit); ("1", JNull)]) = false.
Proof. reflexivity. Qed.

Example repeated_key :
  wf_json (JObject [("a", @JNull unit); ("a", JBool true)]) = false.
Proof. reflexivity. Qed.

Example leading_zero_is_a_string_key :
  wf_json (JObject [("b", @JNull unit); ("01", JNull)]) = true.
Proof. reflexivity. Qed.

(** [v.key] on a parsed value: the property of an object, [undefined]
    ([None]) when it is absent or when [v] is a primitive or an array. *)
Fixpoint assoc {A : Type} (k : string) (l : list (string * A)) : option A :=
  match l with
  | [] => None
  | (k', a) :: rest => if String.eqb k k' then Some a else assoc k rest
  end.

Definition property {number : Type} (v : json number) (k : string) : option (json number) :=
  match v with
  | JObject props => assoc k props
  | _ => None
  end.

(** *** The runtime interface *)

(** What the vault takes from Node.js: [JSON], the UTF-8 codec of
    [Buffer], [crypto.scryptSync] and the AES-256-GCM cipher objects.
    - [gcm_seal key iv pt] is [cipher.update(pt)] followed by
      [cipher.final()], paired with [cipher.getAuthTag()];
    - [createDecipheriv_ok] and [setAuthTag_ok] tell whether those calls
      accept their arguments;
    - [decipher_update] is the plaintext [decipher.update] hands out
      before the tag is checked, and [decipher_final] is
      [decipher.final()], [None] when it throws because the tag does not
      authenticate the data;
    - [Buffer_from_object] is [Buffer.from] on an array or an object. *)
Class NodeRuntime := {
  number : Type;
  JSON_stringify : json number -> string;
  JSON_parse : string -> option (json number);
  JSON_parse_stringify :
    forall v, wf_json v = true -> JSON_parse (JSON_stringify v) = Some v;
  utf8_encode : string -> bytes;
  utf8_decode : bytes -> string;
  utf8_decode_encode :
    forall v, utf8_decode (utf8_encode (JSON_stringify v)) = JSON_stringify v;
  Buffer_from_object : json number -> option bytes;
  scryptSync : string -> string -> nat -> bytes;
  scryptSync_length : forall password salt n, length (scryptSync password salt n) = n;
  gcm_seal : bytes -> bytes -> bytes -> bytes * bytes;
  createDecipheriv_ok : bytes -> bytes -> bool;
  setAuthTag_ok : bytes -> bool;
  decipher_update : bytes -> bytes -> bytes -> bytes;
  decipher_final : bytes -> bytes -> bytes -> bytes -> option bytes;
  gcm_open_seal :
    forall key iv pt,
      length key = 32%nat -> length iv = 16%nat ->
      createDecipheriv_ok key iv = true /\
      setAuthTag_ok (snd (gcm_seal key iv pt)) = true /\
      exists fin,
        decipher_final key iv (snd (gcm_seal key iv pt)) (fst (gcm_seal key iv pt)) = Some fin /\
        (decipher_update key iv (fst (gcm_seal key iv pt)) ++ fin)%list = pt
}.

(** What AES-256-GCM is beyond the interface above:
    - [cipher.getAuthTag()] returns sixteen bytes;
    - the cipher is a stream cipher, so [decipher.final()] has no bytes
      left to hand out;
    - [decipher.final()] computes the tag of the ciphertext it was
      given and compares it with the one that was set, over the length
      of the one that was set: it accepts a ciphertext and a tag only if
      the ciphertext is what the cipher produces, under the same key and
      IV, for the plaintext it released, and the tag is the tag of that
      sealing or its first bytes.
    Which lengths of a tag are taken at all is [setAuthTag_ok]: the
    vault passes no [authTagLength]. *)
Class GcmAuthentic `{NodeRuntime} := {
  gcm_tag_length :
    forall key iv pt, length (snd (gcm_seal key iv pt)) = 16%nat;
  decipher_final_empty :
    forall key iv tag data fin,
      decipher_final key iv tag data = Some fin -> fin = [];
  decipher_final_authentic :
    forall key iv tag data fin,
      decipher_final key iv tag data = Some fin ->
      fst (gcm_seal key iv (decipher_update key iv data)) = data
      /\ tag = firstn (length tag) (snd (gcm_seal key iv (decipher_update key iv data)))
}.

(** *** Rows of the channel table *)

(** A value of a column, or of a query parameter. The status enum is
    kept symbolic: the repository only passes it through. *)
Inductive SqlValue :=
| VNull
| VText (s : string)
| VBool (b : bool)
| VInt (n : Z)
| VStatus (st : ConnectionStatus).

#[global] Instance SqlValue_eq_dec : EqDecision SqlValue.
Proof. solve_decision. Defined.

(** A row of [openclaw.message_channels], as [pg] returns it: an object
    keyed by column name. The table is the list of its rows. *)
Abbreviation Row := (gmap string SqlValue).

Section ChannelEncryption.

Context `{NodeRuntime}.

(** *** class ChannelEncryption *)

Record ChannelEncryption := {
  algorithm : string;
  key : bytes
}.

(** The constructor; [env_key] is [process.env.CHANNEL_ENCRYPTION_KEY]
    (an empty string is falsy and selects the default). *)
Definition new_ChannelEncryption (env_key : option string) : ChannelEncryption :=
  let encryptionKey :=
    match env_key with
    | Some (String c s) => String c s
    | _ => "default-dev-key-32-chars-long!"
    end in
  {| algorithm := "aes-256-gcm";
     key := scryptSync encryptionKey "salt" 32 |}.

(** The object literal [{ iv, data, authTag }] written by [encrypt]. *)
Definition envelope (iv data authTag : string) : json number :=
  JObject [("iv", JString iv); ("data", JString data); ("authTag", JString authTag)].

(** [encrypt(data)]; [iv] is the result of [crypto.randomBytes(16)]. *)
Definition encrypt (this : ChannelEncryption) (iv : bytes) (data : json number) : string :=
  let sealed := gcm_seal (key this) iv (utf8_encode (JSON_stringify data)) in
  let encrypted := fst sealed in
  let authTag := snd sealed in
  JSON_stringify (envelope (Hex.toString iv) (Hex.toString encrypted) (Hex.toString authTag)).

(** [Buffer.from(v, 'hex')] on a destructured property. *)
Definition Buffer_from (v : option (json number)) : result bytes :=
  match v with
  | Some (JString s) => Ok (Hex.from s)
  | Some (JArray items) =>
      match Buffer_from_object (JArray items) with
      | Some b => Ok b
      | None => Throw (TypeError "The first argument must be of type string or an instance of Buffer")
      end
  | Some (JObject props) =>
      match Buffer_from_object (JObject props) with
      | Some b => Ok b
      | None => Throw (TypeError "The first argument must be of type string or an instance of Buffer")
      end
  | _ => Throw (TypeError "The first argument must be of type string or an instance of Buffer")
  end.

(** [decrypt(encrypted)]. *)
Definition decrypt (this : ChannelEncryption) (encrypted : string) : result (json number) :=
  match JSON_parse encrypted with
  | None => Throw SyntaxError
  | Some JNull => Throw (TypeError "Cannot destructure property 'iv' of null")
  | Some parsed =>
      let iv := property parsed "iv" in
      let data := property parsed "data" in
      let authTag := property parsed "authTag" in
      do ivb <- Buffer_from iv;
      if negb (createDecipheriv_ok (key this) ivb)
      then Throw (TypeError "Invalid initialization vector")
      else
        do tagb <- Buffer_from authTag;
        if negb (setAuthTag_ok tagb)
        then Throw (TypeError "Invalid authentication tag length")
        else
          do datab <- Buffer_from data;
          let head := decipher_update (key this) ivb datab in
          match decipher_final (key this) ivb tagb datab with
          | None => Throw (Error "Unsupported state or unable to authenticate data")
          | Some tail =>
              match JSON_parse (utf8_decode (head ++ tail)%list) with
              | None => Throw SyntaxError
              | Some v => Ok v
              end
          end
  end.

(** *** class ChannelRepository *)

Record ChannelRepository := {
  encryption : ChannelEncryption
}.

Definition new_ChannelRepository (env_key : option string) : ChannelRepository :=
  {| encryption := new_ChannelEncryption env_key |}.

(** What one call takes from outside the repository: the bytes
    [crypto.randomBytes(16)] returns, the database clock, the values the
    table gives to the columns an INSERT does not list, and the error
    with which [pool.query] rejects, if it does. *)
Record QueryEnv := {
  randomBytes16 : bytes;
  NOW : Z;
  column_defaults : Row;
  query_error : option string
}.

(** [interface ChannelConfig], field by field as [mapRowToConfig] fills
    it; [None] is a column the row does not have. *)
Record ChannelConfig := {
  channelId : option SqlValue;
  userId : option SqlValue;
  organizationId : option SqlValue;
  channelType : option SqlValue;
  channelIdentifier : option SqlValue;
  channelName : option SqlValue;
  config : json number;
  webhookUrl : option SqlValue;
  webhookSecret : option SqlValue;
  active : option SqlValue;
  verified : option SqlValue;
  connectionStatus : option SqlValue;
  lastError : option SqlValue;
  messageCount : option SqlValue;
  lastMessageAt : option SqlValue;
  createdAt : option SqlValue;
  updatedAt : option SqlValue;
  lastUsed : option SqlValue;
  verifiedAt : option SqlValue
}.

(** [mapRowToConfig(row)]. [decrypt] starts with [JSON.parse] of the
    column: NULL parses to [null], which cannot be destructured; a
    boolean or a number parses to itself and has no [iv] for
    [Buffer.from]; a column that is missing, or holds a status, is no
    JSON text. *)
Definition mapRowToConfig (this : ChannelRepository) (row : Row) : result ChannelConfig :=
  do cfg <- match row !! "channel_config" with
            | Some (VText s) => decrypt (encryption this) s
            | Some VNull => Throw (TypeError "Cannot destructure property 'iv' of null")
            | Some (VBool _) | Some (VInt _) =>
                Throw (TypeError "The first argument must be of type string or an instance of Buffer")
            | _ => Throw SyntaxError
            end;
  Ok {| channelId := row !! "channel_id";
        userId := row !! "user_id";
        organizationId := row !! "organization_id";
        channelType := row !! "channel_type";
        channelIdentifier := row !! "channel_identifier";
        channelName := row !! "channel_name";
        config := cfg;
        webhookUrl := row !! "webhook_url";
        webhookSecret := row !! "webhook_secret";
        active := row !! "active";
        verified := row !! "verified";
        connectionStatus := row !! "connection_status";
        lastError := row !! "last_error";
        messageCount := row !! "message_count";
        lastMessageAt := row !! "last_message_at";
        createdAt := row !! "created_at";
        updatedAt := row !! "updated_at";
        lastUsed := row !! "last_used";
        verifiedAt := row !! "verified_at" |}.

(** An optional argument as a query parameter: [undefined] is sent as
    NULL. *)
Definition opt_text (o : option string) : SqlValue :=
  match o with Some s => VText s | None => VNull end.

(** [column = $n] in a WHERE clause. *)
Definition col_is (column : string) (v : SqlValue) (row : Row) : bool :=
  bool_decide (row !! column = Some v).

(** [SET column = value, ...]. *)
Fixpoint set_columns (assignments : list (string * SqlValue)) (row : Row) : Row :=
  match assignments with
  | [] => row
  | (column, v) :: rest => set_columns rest (<[column := v]> row)
  end.

(** [UPDATE ... SET ... WHERE ...]: the table afterwards, and the rows
    RETURNING hands back. *)
Definition update_where (cond : Row -> bool) (f : Row -> Row) (db : list Row) : list Row :=
  map (fun row => if cond row then f row else row) db.

Definition returning (cond : Row -> bool) (f : Row -> Row) (db : list Row) : list Row :=
  map f (List.filter cond db).

(** [ORDER BY created_at DESC]. The column as the ordering reads it is
    a timestamp or NULL; in a descending order PostgreSQL puts NULL
    first and then the later timestamp. SQL leaves the order of rows
    with equal stamps open: here they keep the order of the table. *)
Definition created_at (row : Row) : option Z :=
  match row !! "created_at" with Some (VInt n) => Some n | _ => None end.

(** [a] may come before [b] in the descending order. *)
Definition not_older (a b : option Z) : bool :=
  match a, b with
  | None, _ => true
  | Some _, None => false
  | Some x, Some y => y <=? x
  end.

Fixpoint insert_desc (row : Row) (sorted : list Row) : list Row :=
  match sorted with
  | [] => [row]
  | r :: rest =>
      if not_older (created_at row) (created_at r) then row :: sorted
      else r :: insert_desc row rest
  end.

Definition order_by_created_at_desc (rows : list Row) : list Row :=
  fold_right insert_desc [] rows.

(** [rows.map(row => this.mapRowToConfig(row))]: the first row that fails
    to decrypt aborts the map. *)
Fixpoint map_rows (this : ChannelRepository) (rows : list Row) : result (list ChannelConfig) :=
  match rows with
  | [] => Ok []
  | row :: rest =>
      do c <- mapRowToConfig this row;
      do cs <- map_rows this rest;
      Ok (c :: cs)
  end.

(** [rows.length === 0 ? null : mapRowToConfig(rows[0])]. *)
Definition first_row (this : ChannelRepository) (rows : list Row) : result (option ChannelConfig) :=
  match rows with
  | [] => Ok None
  | row :: _ => do c <- mapRowToConfig this row; Ok (Some c)
  end.

(** Every method below returns its result and the table after the call. *)

Definition create (this : ChannelRepository) (env : QueryEnv)
    (userId organizationId channelType channelIdentifier : string)
    (channelName : option string) (config : json number)
    (webhookUrl webhookSecret : option string)
    (db : list Row) : result ChannelConfig * list Row :=
  let encryptedConfig := encrypt (encryption this) (randomBytes16 env) config in
  let values :=
    [ ("user_id", VText userId);
      ("organization_id", VText organizationId);
      ("channel_type", VText channelType);
      ("channel_identifier", VText channelIdentifier);
      ("channel_name", opt_text channelName);
      ("channel_config", VText encryptedConfig);
      ("webhook_url", opt_text webhookUrl);
      ("webhook_secret", opt_text webhookSecret);
      ("active", VBool true);
      ("verified", VBool false);
      ("connection_status", VStatus DISCONNECTED) ] in
  match query_error env with
  | Some msg => (Throw (Error msg), db)
  | None =>
      let row := set_columns values (column_defaults env) in
      (mapRowToConfig this row, (db ++ [row])%list)
  end.

Definition findById (this : ChannelRepository) (env : QueryEnv)
    (channelId organizationId : string)
    (db : list Row) : result (option ChannelConfig) * list Row :=
  match query_error env with
  | Some msg => (Throw (Error msg), db)
  | None =>
      let rows := List.filter (fun row =>
        col_is "channel_id" (VText channelId) row
        && col_is "organization_id" (VText organizationId) row
        && col_is "active" (VBool true) row) db in
      (first_row this rows, db)
  end.

Definition findByTypeAndIdentifier (this : ChannelRepository) (env : QueryEnv)
    (organizationId channelType channelIdentifier : string)
    (db : list Row) : result (option ChannelConfig) * list Row :=
  match query_error env with
  | Some msg => (Throw (Error msg), db)
  | None =>
      let rows := List.filter (fun row =>
        col_is "organization_id" (VText organizationId) row
        && col_is "channel_type" (VText channelType) row
        && col_is "channel_identifier" (VText channelIdentifier) row
        && col_is "active" (VBool true) row) db in
      (first_row this rows, db)
  end.

Definition listByOrganization (this : ChannelRepository) (env : QueryEnv)
    (organizationId : string) (channelType : option string)
    (db : list Row) : result (list ChannelConfig) * list Row :=
  match query_error env with
  | Some msg => (Throw (Error msg), db)
  | None =>
      let typed row :=
        match channelType with
        | Some (String c s) => col_is "channel_type" (VText (String c s)) row
        | _ => true
        end in
      let rows := List.filter (fun row =>
        col_is "organization_id" (VText organizationId) row
        && col_is "active" (VBool true) row
        && typed row) db in
      (map_rows this (order_by_created_at_desc rows), db)
  end.

Definition updateConfig (this : ChannelRepository) (env : QueryEnv)
    (channelId organizationId : string) (config : json number)
    (db : list Row) : result ChannelConfig * list Row :=
  let encryptedConfig := encrypt (encryption this) (randomBytes16 env) config in
  match query_error env with
  | Some msg => (Throw (Error msg), db)
  | None =>
      let cond row :=
        col_is "channel_id" (VText channelId) row
        && col_is "organization_id" (VText organizationId) row in
      let f := set_columns [("channel_config", VText encryptedConfig);
                            ("updated_at", VInt (NOW env))] in
      match returning cond f db with
      | [] => (Throw (Error ("Channel " ++ channelId ++ " not found")), update_where cond f db)
      | row :: _ => (mapRowToConfig this row, update_where cond f db)
      end
  end.

Definition updateStatus (this : ChannelRepository) (env : QueryEnv)
    (channelId organizationId : string) (status : ConnectionStatus)
    (lastError : option string)
    (db : list Row) : result unit * list Row :=
  match query_error env with
  | Some msg => (Throw (Error msg), db)
  | None =>
      let cond row :=
        col_is "channel_id" (VText channelId) row
        && col_is "organization_id" (VText organizationId) row in
      let error :=
        match lastError with
        | Some (String c s) => VText (String c s)
        | _ => VNull
        end in
      let f := set_columns [("connection_status", VStatus status);
                            ("last_error", error);
                            ("updated_at", VInt (NOW env))] in
      (Ok tt, update_where cond f db)
  end.

(** [message_count + 1] in SQL: NULL stays NULL. *)
Definition increment (row : Row) : SqlValue :=
  match row !! "message_count" with
  | Some (VInt n) => VInt (n + 1)
  | _ => VNull
  end.

Definition incrementMessageCount (this : ChannelRepository) (env : QueryEnv)
    (channelId organizationId : string)
    (db : list Row) : result unit * list Row :=
  match query_error env with
  | Some msg => (Throw (Error msg), db)
  | None =>
      let cond row :=
        col_is "channel_id" (VText channelId) row
        && col_is "organization_id" (VText organizationId) row in
      let f row := set_columns [("message_count", increment row);
                                ("last_message_at", VInt (NOW env));
                                ("last_used", VInt (NOW env))] row in
      (Ok tt, update_where cond f db)
  end.

Definition markVerified (this : ChannelRepository) (env : QueryEnv)
    (channelId organizationId : string)
    (db : list Row) : result unit * list Row :=
  match query_error env with
  | Some msg => (Throw (Error msg), db)
  | None =>
      let cond row :=
        col_is "channel_id" (VText channelId) row
        && col_is "organization_id" (VText organizationId) row in
      let f := set_columns [("verified", VBool true);
                            ("verified_at", VInt (NOW env));
                            ("connection_status", VStatus CONNECTED);
                            ("updated_at", VInt (NOW env))] in
      (Ok tt, update_where cond f db)
  end.

Definition deactivate (this : ChannelRepository) (env : QueryEnv)
    (channelId organizationId : string)
    (db : list Row) : result unit * list Row :=
  match query_error env with
  | Some msg => (Throw (Error msg), db)
  | None =>
      let cond row :=
        col_is "channel_id" (VText channelId) row
        && col_is "organization_id" (VText organizationId) row in
      let f := set_columns [("active", VBool false);
                            ("connection_status", VStatus DISCONNECTED);
                            ("updated_at", VInt (NOW env))] in
      (Ok tt, update_where cond f db)
  end.

Definition delete (this : ChannelRepository) (env : QueryEnv)
    (channelId organizationId : string)
    (db : list Row) : result unit * list Row :=
  match query_error env with
  | Some msg => (Throw (Error msg), db)
  | None =>
      let cond row :=
        col_is "channel_id" (VText channelId) row
        && col_is "organization_id" (VText organizationId) row in
      (Ok tt, List.filter (fun row => negb (cond row)) db)
  end.

(** The public methods with their arguments, and the table each leaves
    behind. *)
Inductive operation :=
| Create (userId organizationId channelType channelIdentifier : string)
    (channelName : option string) (config : json number)
    (webhookUrl webhookSecret : option string)
| FindById (channelId organizationId : string)
| FindByTypeAndIdentifier (organizationId channelType channelIdentifier : string)
| ListByOrganization (organizationId : string) (channelType : option string)
| UpdateConfig (channelId organizationId : string) (config : json number)
| UpdateStatus (channelId organizationId : string) (status : ConnectionStatus)
    (lastError : option string)
| IncrementMessageCount (channelId organizationId : string)
| MarkVerified (channelId organizationId : string)
| Deactivate (channelId organizationId : string)
| Delete (channelId organizationId : string).

Definition table_after (this : ChannelRepository) (env : QueryEnv)
    (op : operation) (db : list Row) : list Row :=
  match op with
  | Create u o t i n c wu ws => snd (create this env u o t i n c wu ws db)
  | FindById c o => snd (findById this env c o db)
  | FindByTypeAndIdentifier o t i => snd (findByTypeAndIdentifier this env o t i db)
  | ListByOrganization o t => snd (listByOrganization this env o t db)
  | UpdateConfig c o cfg => snd (updateConfig this env c o cfg db)
  | UpdateStatus c o st e => snd (updateStatus this env c o st e db)
  | IncrementMessageCount c o => snd (incrementMessageCount this env c o db)
  | MarkVerified c o => snd (markVerified this env c o db)
  | Deactivate c o => snd (deactivate this env c o db)
  | Delete c o => snd (delete this env c o db)
  end.

(** A row whose [channel_config] is a record written by the vault of
    this repository, and a table of such rows. *)
Definition encrypted_config (this : ChannelRepository) (row : Row) : Prop :=
  exists iv cfg,
    row !! "channel_config" = Some (VText (encrypt (encryption this) iv cfg)).

Definition stored_encrypted (this : ChannelRepository) (db : list Row) : Prop :=
  Forall (encrypted_config this) db.

(** The configuration a call passes, if it passes one, and the same call
    with another configuration. *)
Definition operation_config (op : operation) : option (json number) :=
  match op with
  | Create _ _ _ _ _ cfg _ _ => Some cfg
  | UpdateConfig _ _ cfg => Some cfg
  | _ => None
  end.

Definition with_config (cfg : json number) (op : operation) : operation :=
  match op with
  | Create u o t i n _ wu ws => Create u o t i n cfg wu ws
  | UpdateConfig c o _ => UpdateConfig c o cfg
  | _ => op
  end.

(** The organization a call is made for: the [organizationId] argument
    that every public method takes. *)
Definition operation_organization (op : operation) : string :=
  match op with
  | Create _ o _ _ _ _ _ _ => o
  | FindById _ o => o
  | FindByTypeAndIdentifier o _ _ => o
  | ListByOrganization o _ => o
  | UpdateConfig _ o _ => o
  | UpdateStatus _ o _ _ => o
  | IncrementMessageCount _ o => o
  | MarkVerified _ o => o
  | Deactivate _ o => o
  | Delete _ o => o
  end.

(** The WHERE clause of [listByOrganization]: the condition on the type
    is added only for a type that is given and not empty. *)
Definition listed (organizationId : string) (channelType : option string) (row : Row) : bool :=
  col_is "organization_id" (VText organizationId) row
  && col_is "active" (VBool true) row
  && match channelType with
     | Some (String c s) => col_is "channel_type" (VText (String c s)) row
     | _ => true
     end.

(** [createdAt] of a configuration, read the way ORDER BY reads the
    column. *)
Definition created_of (c : ChannelConfig) : option Z :=
  match createdAt c with Some (VInt n) => Some n | _ => None end.

End ChannelEncryption.

End Vault.

(** ** Methods with effects *)

(** A method of an object with state [state] is run against a world
    that answers its external calls: [None] when the call returns (or
    its promise resolves), [Some msg] when it throws (or rejects) with
    [Error(msg)]. A run yields the result, the object afterwards and the
    external calls made, in order. [await] is sequencing: the sources
    await every promise they create unless noted otherwise. *)

Module Eff.

Section Monad.

Context {call state : Type}.

Definition World := call -> option string.

Definition M (A : Type) : Type := World -> state -> result A * state * list call.

Definition ret {A : Type} (a : A) : M A :=
  fun _ s => (Ok a, s, []).

Definition bind {A B : Type} (m : M A) (k : A -> M B) : M B :=
  fun w s =>
    match m w s with
    | (Ok a, s1, t1) =>
        match k a w s1 with
        | (r, s2, t2) => (r, s2, (t1 ++ t2)%list)
        end
    | (Throw e, s1, t1) => (Throw e, s1, t1)
    end.

Definition throw {A : Type} (e : exn) : M A :=
  fun _ s => (Throw e, s, []).

(** [try { body } catch (e) { handler e }]. *)
Definition try_catch {A : Type} (body : M A) (handler : exn -> M A) : M A :=
  fun w s =>
    match body w s with
    | (Ok a, s1, t1) => (Ok a, s1, t1)
    | (Throw e, s1, t1) =>
        match handler e w s1 with
        | (r, s2, t2) => (r, s2, (t1 ++ t2)%list)
        end
    end.

Definition get : M state :=
  fun _ s => (Ok s, s, []).

Definition modify (f : state -> state) : M unit :=
  fun _ s => (Ok tt, f s, []).

(** An external call that cannot fail (a logger, [setTimeout]). *)
Definition tell (c : call) : M unit :=
  fun _ s => (Ok tt, s, [c]).

(** An external call whose outcome the world decides. *)
Definition ext (c : call) : M unit :=
  fun w s =>
    match w c with
    | None => (Ok tt, s, [c])
    | Some msg => (Throw (Error msg), s, [c])
    end.

Definition when (b : bool) (m : M unit) : M unit :=
  if b then m else ret tt.

Fixpoint for_each {A : Type} (f : A -> M unit) (l : list A) : M unit :=
  match l with
  | [] => ret tt
  | a :: rest => bind (f a) (fun _ => for_each f rest)
  end.

(** The state, the result and the trace of a run. *)
Definition state_of {A : Type} (r : result A * state * list call) : state := snd (fst r).
Definition result_of {A : Type} (r : result A * state * list call) : result A := fst (fst r).
Definition trace_of {A : Type} (r : result A * state * list call) : list call := snd r.

End Monad.

Arguments M : clear implicits.
Arguments World : clear implicits.

#[global] Instance M_ret {call state : Type} : MRet (M call state) := @ret call state.
#[global] Instance M_bind {call state : Type} : MBind (M call state) :=
  fun A B k m => bind m k.

(** [e.message]. *)
Definition message (e : exn) : string :=
  match e with
  | TypeError msg => msg
  | SyntaxError => "Unexpected token in JSON"
  | Error msg => msg
  end.

(** A property of the object that no run of a method can break. *)
Definition preserves {call state A : Type} (P : state -> Prop) (m : M call state A) : Prop :=
  forall w s, P s -> P (state_of (m w s)).

Section Preserves.

Context {call state : Type} (P : state -> Prop).

Lemma preserves_ret {A : Type} (a : A) : preserves P (mret a : M call state A).
Proof. intros w s Hs. exact Hs. Qed.

Lemma preserves_throw {A : Type} (e : exn) : preserves P (throw e : M call state A).
Proof. intros w s Hs. exact Hs. Qed.

Lemma preserves_get : preserves P (get : M call state state).
Proof. intros w s Hs. exact Hs. Qed.

Lemma preserves_tell (c : call) : preserves P (tell c : M call state unit).
Proof. intros w s Hs. exact Hs. Qed.

Lemma preserves_ext (c : call) : preserves P (ext c : M call state unit).
Proof. intros w s Hs. unfold ext, state_of. now destruct (w c). Qed.

Lemma preserves_modify (f : state -> state) :
  (forall s, P s -> P (f s)) -> preserves P (modify f : M call state unit).
Proof. intros Hf w s Hs. now apply Hf. Qed.

Lemma preserves_bind {A B : Type} (m : M call state A) (k : A -> M call state B) :
  preserves P m -> (forall a, preserves P (k a)) -> preserves P (m ≫= k).
Proof.
  intros Hm Hk w s Hs. specialize (Hm w s Hs).
  unfold mbind, M_bind, bind, state_of in *.
  destruct (m w s) as [[[a|e] s1] t1]; cbn [fst snd] in *; [| exact Hm].
  specialize (Hk a w s1 Hm). unfold state_of in Hk.
  now destruct (k a w s1) as [[r s2] t2].
Qed.

Lemma preserves_try_catch {A : Type} (body : M call state A) (handler : exn -> M call state A) :
  preserves P body -> (forall e, preserves P (handler e)) ->
  preserves P (try_catch body handler).
Proof.
  intros Hb Hh w s Hs. specialize (Hb w s Hs).
  unfold try_catch, state_of in *.
  destruct (body w s) as [[[a|e] s1] t1]; cbn [fst snd] in *; [exact Hb |].
  specialize (Hh e w s1 Hb). unfold state_of in Hh.
  now destruct (handler e w s1) as [[r s2] t2].
Qed.

Lemma preserves_when (b : bool) (m : M call state unit) :
  preserves P m -> preserves P (when b m).
Proof. intros Hm. destruct b; [exact Hm | apply preserves_ret]. Qed.

Lemma preserves_for_each {A : Type} (f : A -> M call state unit) (l : list A) :
  (forall a, preserves P (f a)) -> preserves P (for_each f l).
Proof.
  intros Hf. induction l as [|a l IH]; [apply preserves_ret |].
  cbn [for_each]. apply (preserves_bind (f a) (fun _ => for_each f l)); auto.
Qed.

End Preserves.

(** A method run from a state that satisfies [P] ends with a result and
    in a state that satisfy [Q], whatever the world answers. *)
Definition ensures {call state A : Type} (P : state -> Prop) (m : M call state A)
    (Q : result A -> state -> Prop) : Prop :=
  forall w s, P s -> Q (result_of (m w s)) (state_of (m w s)).

(** A method of a component, run as a step of a program that holds the
    component in its state: [field] and [update] read and write the
    component, [inj] says what a call of the component is to the
    program. *)
Definition embed {call1 call2 state1 state2 A : Type}
    (inj : call1 -> call2) (field : state2 -> state1) (update : state1 -> state2 -> state2)
    (m : M call1 state1 A) : M call2 state2 A :=
  fun w s =>
    match m (fun c => w (inj c)) (field s) with
    | (r, s1, t) => (r, update s1 s, map inj t)
    end.

(** Decomposing a method along its combinators. *)
Ltac preserves_step :=
  first
    [ apply preserves_bind; [| intros ?]
    | apply preserves_try_catch; [| intros ?]
    | apply preserves_when
    | apply preserves_for_each; intros ?
    | apply preserves_ret
    | apply preserves_throw
    | apply preserves_get
    | apply preserves_tell
    | apply preserves_ext
    | apply preserves_modify; intros ? ?
    | match goal with
      | |- preserves _ (match ?x with _ => _ end) => destruct x
      end ].

(** Unfolding the combinators of a run. *)
Ltac eff_unfold :=
  cbv beta iota zeta delta
    [mbind mret M_bind M_ret bind ret throw try_catch get modify tell ext when
     state_of result_of trace_of fst snd].

Ltac eff_unfold_in H :=
  cbv beta iota zeta delta
    [mbind mret M_bind M_ret bind ret throw try_catch get modify tell ext when
     state_of result_of trace_of fst snd] in H.

(** Case analysis on every answer of the world that a goal inspects. *)
Ltac world_cases w :=
  repeat match goal with
         | |- context [w ?c] => destruct (w c) eqn:?; cbn
         end.

End Eff.

(** ** The realtime gateway: shutdown *)

Module Gateway.

Import Eff.

Inductive call :=
| IoEmit (event : string)
| IoClose
| PubClientQuit
| SubClientQuit
| LoggerInfo (msg : string).

#[global] Instance call_eq_dec : EqDecision call.
Proof. solve_decision. Defined.

Inductive SocketIOServer := the_io.
Inductive Redis := the_pub | the_sub.

Record OpenClawGateway := {
  io : option SocketIOServer;
  pubClient : option Redis;
  subClient : option Redis;
  connectionCount : Z
}.

(** [async shutdown()]. The promise [io.close()] returns is not awaited;
    the call itself is made. *)
Definition shutdown : M call OpenClawGateway unit :=
  this ← get;
  when (bool_decide (io this <> None))
    (ext (IoEmit "server.shutdown");;
     ext IoClose);;
  when (bool_decide (pubClient this <> None)) (ext PubClientQuit);;
  when (bool_decide (subClient this <> None)) (ext SubClientQuit);;
  tell (LoggerInfo "WebSocket gateway shut down").

(** The gateway after [initialize(httpServer, redisUrl)] with a Redis
    URL: all three handles are set. *)
Definition initialized : OpenClawGateway :=
  {| io := Some the_io; pubClient := Some the_pub; subClient := Some the_sub;
     connectionCount := 0 |}.

Definition all_resolve : World call := fun _ => None.

(** A world in which [pubClient.quit()] rejects. *)
Definition pub_quit_rejects : World call :=
  fun c => match c with
           | PubClientQuit => Some "Connection is closed."
           | _ => None
           end.


(** The steps of [shutdown] for the handles that are set, in the order
    of the source. *)
Definition shutdown_steps (g : OpenClawGateway) : list call :=
  ((if bool_decide (io g <> None) then [IoEmit "server.shutdown"; IoClose] else [])
   ++ (if bool_decide (pubClient g <> None) then [PubClientQuit] else [])
   ++ (if bool_decide (subClient g <> None) then [SubClientQuit] else []))%list.

(** The calls made out of a list of steps when nothing guards them: all
    of them up to and including the first that fails. *)
Fixpoint until_failure (w : World call) (steps : list call) : list call * option string :=
  match steps with
  | [] => ([], None)
  | c :: rest =>
      match w c with
      | Some msg => ([c], Some msg)
      | None => let '(t, r) := until_failure w rest in (c :: t, r)
      end
  end.

End Gateway.

(** ** The channel adapters *)

Module Channels.

Import Eff.

Inductive LogLevel := LDebug | LInfo | LWarn | LError.

(** The calls an adapter makes outside itself: the logger and the two
    callbacks of [ChannelAdapterOptions], its own [EventEmitter], timers,
    and the SDK of its platform. *)
Inductive call :=
| Logger (level : LogLevel) (msg : string)
| OnStatusChange (status : ConnectionStatus) (error : option string)
| Emit (event : string)
| SetTimeout (callback : string) (delay : Z)
| NewBot
| BotUse (middleware : string)
| BotCatch
| BotCommand (name : string)
| BotOn (filter : string)
| ApiDeleteWebhook
| ApiSetWebhook
| RunnerRun
| RunnerStop
| NewClient
| ClientOn (event : string)
| ClientLogin
| ClientDestroy
| RestPut
| FsMkdir
| FetchLatestBaileysVersion
| UseMultiFileAuthState
| MakeWASocket
| SocketEvOn (event : string)
| SocketLogout
| QRCodeToDataURL.

#[global] Instance LogLevel_eq_dec : EqDecision LogLevel.
Proof. solve_decision. Defined.

#[global] Instance call_eq_dec : EqDecision call.
Proof. solve_decision. Defined.

Record ChannelStats := {
  messagesReceived : Z;
  messagesSent : Z;
  errors : Z;
  uptime : Z
}.

Definition no_stats : ChannelStats :=
  {| messagesReceived := 0; messagesSent := 0; errors := 0; uptime := 0 |}.

(** A string in a condition: [undefined] and the empty string are falsy. *)
Definition truthy (o : option string) : bool :=
  match o with
  | Some (String _ _) => true
  | _ => false
  end.

Definition undefined_read : exn :=
  TypeError "Cannot read properties of undefined".

(** *** class TelegramAdapter *)

Module Telegram.

Inductive Bot := the_bot.
Inductive Runner := the_runner.

(** [ChannelAdapterOptions] for Telegram: the [TelegramConfig] it
    carries. The logger and the callbacks are the calls [Logger],
    [OnStatusChange] of the world. The fields [options] and [config] of
    the class are assigned together by [initialize] and nowhere else;
    they are one field here. *)
Record TelegramConfig := {
  botToken : string;
  botUsername : string;
  webhookUrl : option string;
  webhookSecret : option string;
  allowedUpdates : list string
}.

Record TelegramAdapter := {
  bot : option Bot;
  options : option TelegramConfig;
  status : ConnectionStatus;
  stats : ChannelStats;
  runner : option Runner;
  isShuttingDown : bool;
  startTime : Z
}.

Definition new (now : Z) : TelegramAdapter :=
  {| bot := None; options := None; status := DISCONNECTED; stats := no_stats;
     runner := None; isShuttingDown := false; startTime := now |}.

Definition set_bot (b : option Bot) (a : TelegramAdapter) : TelegramAdapter :=
  {| bot := b; options := options a; status := status a; stats := stats a;
     runner := runner a; isShuttingDown := isShuttingDown a; startTime := startTime a |}.
Definition set_options (o : option TelegramConfig) (a : TelegramAdapter) : TelegramAdapter :=
  {| bot := bot a; options := o; status := status a; stats := stats a;
     runner := runner a; isShuttingDown := isShuttingDown a; startTime := startTime a |}.
Definition set_status (st : ConnectionStatus) (a : TelegramAdapter) : TelegramAdapter :=
  {| bot := bot a; options := options a; status := st; stats := stats a;
     runner := runner a; isShuttingDown := isShuttingDown a; startTime := startTime a |}.
Definition set_stats (st : ChannelStats) (a : TelegramAdapter) : TelegramAdapter :=
  {| bot := bot a; options := options a; status := status a; stats := st;
     runner := runner a; isShuttingDown := isShuttingDown a; startTime := startTime a |}.
Definition set_runner (r : option Runner) (a : TelegramAdapter) : TelegramAdapter :=
  {| bot := bot a; options := options a; status := status a; stats := stats a;
     runner := r; isShuttingDown := isShuttingDown a; startTime := startTime a |}.
Definition set_isShuttingDown (b : bool) (a : TelegramAdapter) : TelegramAdapter :=
  {| bot := bot a; options := options a; status := status a; stats := stats a;
     runner := runner a; isShuttingDown := b; startTime := startTime a |}.

Abbreviation Method := (M call TelegramAdapter).

(** [this.options] / [this.config] in a property read. *)
Definition this_options : Method TelegramConfig :=
  this ← get;
  match options this with
  | Some o => mret o
  | None => throw undefined_read
  end.

Definition logger (level : LogLevel) (msg : string) : Method unit :=
  this_options;; tell (Logger level msg).

Definition onStatusChange (st : ConnectionStatus) (error : option string) : Method unit :=
  this_options;; ext (OnStatusChange st error).

Definition initialize (opts : TelegramConfig) : Method unit :=
  modify (set_options (Some opts));;
  logger LInfo "Telegram adapter initialized".

Definition setupMiddleware : Method unit :=
  this ← get;
  when (bool_decide (bot this <> None))
    (ext (BotUse "session");;
     ext (BotUse "sequentialize");;
     ext BotCatch).

Definition setupHandlers : Method unit :=
  this ← get;
  when (bool_decide (bot this <> None))
    (for_each ext
       [ BotCommand "start"; BotCommand "help"; BotCommand "status"; BotCommand "cancel";
         BotOn "message:text"; BotOn "message:photo"; BotOn "message:video";
         BotOn "message:audio"; BotOn "message:voice"; BotOn "message:document";
         BotOn "message:sticker"; BotOn "message:location"; BotOn "message:contact";
         BotOn "callback_query:data"; BotOn "inline_query" ]).

Definition startPolling : Method unit :=
  this ← get;
  when (bool_decide (bot this <> None))
    (logger LInfo "Starting Telegram bot in polling mode";;
     ext ApiDeleteWebhook;;
     this_options;;
     ext RunnerRun;;
     modify (set_runner (Some the_runner));;
     logger LInfo "Telegram bot polling started").

(** [this.bot && this.config.webhookUrl]: the configuration is read only
    when there is a bot. *)
Definition bot_and_webhookUrl : Method bool :=
  this ← get;
  match bot this with
  | None => mret false
  | Some _ => config ← this_options; mret (truthy (webhookUrl config))
  end.

Definition startWebhook : Method unit :=
  proceed ← bot_and_webhookUrl;
  when proceed
    (logger LInfo "Setting up Telegram webhook";;
     ext ApiSetWebhook;;
     logger LInfo "Telegram webhook configured").

Definition startBot : Method unit :=
  this ← get;
  match bot this with
  | None => throw (Error "Bot not initialized")
  | Some _ =>
      config ← this_options;
      if truthy (webhookUrl config) then startWebhook else startPolling
  end.

Definition connect : Method unit :=
  this ← get;
  if bool_decide (status this = CONNECTED)
  then logger LWarn "Telegram already connected"
  else
    try_catch
      (modify (set_status CONNECTING);;
       onStatusChange CONNECTING None;;
       logger LInfo "Connecting to Telegram...";;
       this_options;;
       ext NewBot;;
       modify (set_bot (Some the_bot));;
       setupMiddleware;;
       setupHandlers;;
       startBot;;
       modify (set_status CONNECTED);;
       onStatusChange CONNECTED None;;
       logger LInfo "Telegram bot connected successfully")
      (fun e =>
         logger LError "Failed to connect to Telegram";;
         modify (set_status ERROR);;
         onStatusChange ERROR (Some (message e));;
         throw e).

Definition disconnect : Method unit :=
  modify (set_isShuttingDown true);;
  logger LInfo "Disconnecting from Telegram...";;
  this ← get;
  when (bool_decide (runner this <> None))
    (ext RunnerStop;;
     modify (set_runner None));;
  webhook ← bot_and_webhookUrl;
  when webhook (ext ApiDeleteWebhook);;
  modify (set_bot None);;
  modify (set_status DISCONNECTED);;
  onStatusChange DISCONNECTED None;;
  logger LInfo "Telegram bot disconnected".

Definition getStatus (this : TelegramAdapter) : ConnectionStatus := status this.

(** [getStats()] at time [now]. *)
Definition getStats (now : Z) (this : TelegramAdapter) : ChannelStats :=
  {| messagesReceived := messagesReceived (stats this);
     messagesSent := messagesSent (stats this);
     errors := errors (stats this);
     uptime := now - startTime this |}.

(** [initialize] has run. *)
Definition is_initialized (a : TelegramAdapter) : Prop := options a <> None.

(** The adapters a run of the program can hold: a fresh object, driven
    through its public methods under any world; the grammy handlers and
    [sendMessage] write nothing but [stats]. *)
Inductive reachable : TelegramAdapter -> Prop :=
| reach_new now : reachable (new now)
| reach_initialize opts w a :
    reachable a -> reachable (state_of (initialize opts w a))
| reach_connect w a :
    reachable a -> reachable (state_of (connect w a))
| reach_disconnect w a :
    reachable a -> reachable (state_of (disconnect w a))
| reach_traffic st a :
    reachable a -> reachable (set_stats st a).

(** One action on an adapter: a call of a public method or traffic,
    under any world. *)
Inductive step : TelegramAdapter -> TelegramAdapter -> Prop :=
| step_initialize opts w a : step a (state_of (initialize opts w a))
| step_connect w a : step a (state_of (connect w a))
| step_disconnect w a : step a (state_of (disconnect w a))
| step_traffic st a : step a (set_stats st a).

End Telegram.

(** *** class DiscordAdapter *)

Module Discord.

Inductive Client := the_client.

Record DiscordConfig := {
  botToken : string;
  applicationId : string;
  guildId : option string;
  intents : list string
}.

Record DiscordAdapter := {
  client : option Client;
  options : option DiscordConfig;
  status : ConnectionStatus;
  stats : ChannelStats;
  isShuttingDown : bool;
  startTime : Z
}.

Definition new (now : Z) : DiscordAdapter :=
  {| client := None; options := None; status := DISCONNECTED; stats := no_stats;
     isShuttingDown := false; startTime := now |}.

Definition set_client (c : option Client) (a : DiscordAdapter) : DiscordAdapter :=
  {| client := c; options := options a; status := status a; stats := stats a;
     isShuttingDown := isShuttingDown a; startTime := startTime a |}.
Definition set_options (o : option DiscordConfig) (a : DiscordAdapter) : DiscordAdapter :=
  {| client := client a; options := o; status := status a; stats := stats a;
     isShuttingDown := isShuttingDown a; startTime := startTime a |}.
Definition set_status (st : ConnectionStatus) (a : DiscordAdapter) : DiscordAdapter :=
  {| client := client a; options := options a; status := st; stats := stats a;
     isShuttingDown := isShuttingDown a; startTime := startTime a |}.
Definition set_stats (st : ChannelStats) (a : DiscordAdapter) : DiscordAdapter :=
  {| client := client a; options := options a; status := status a; stats := st;
     isShuttingDown := isShuttingDown a; startTime := startTime a |}.
Definition set_isShuttingDown (b : bool) (a : DiscordAdapter) : DiscordAdapter :=
  {| client := client a; options := options a; status := status a; stats := stats a;
     isShuttingDown := b; startTime := startTime a |}.

Abbreviation Method := (M call DiscordAdapter).

Definition this_options : Method DiscordConfig :=
  this ← get;
  match options this with
  | Some o => mret o
  | None => throw undefined_read
  end.

Definition logger (level : LogLevel) (msg : string) : Method unit :=
  this_options;; tell (Logger level msg).

Definition onStatusChange (st : ConnectionStatus) (error : option string) : Method unit :=
  this_options;; ext (OnStatusChange st error).

Definition initialize (opts : DiscordConfig) : Method unit :=
  modify (set_options (Some opts));;
  logger LInfo "Discord adapter initialized".

Definition setupEventHandlers : Method unit :=
  this ← get;
  when (bool_decide (client this <> None))
    (for_each ext
       [ ClientOn "ready"; ClientOn "messageCreate"; ClientOn "interactionCreate";
         ClientOn "messageReactionAdd"; ClientOn "error"; ClientOn "warn";
         ClientOn "shardDisconnect" ]).

(** [registerSlashCommands()]: the whole body after the null check is
    inside [try], and the handler only logs. *)
Definition registerSlashCommands : Method unit :=
  this ← get;
  when (bool_decide (client this <> None))
    (try_catch
       (config ← this_options;
        ext RestPut;;
        if truthy (guildId config)
        then logger LInfo "Slash commands registered for guild"
        else logger LInfo "Slash commands registered globally")
       (fun _ => logger LError "Failed to register slash commands")).

Definition connect : Method unit :=
  this ← get;
  if bool_decide (status this = CONNECTED)
  then logger LWarn "Discord already connected"
  else
    try_catch
      (modify (set_status CONNECTING);;
       onStatusChange CONNECTING None;;
       logger LInfo "Connecting to Discord...";;
       this_options;;
       ext NewClient;;
       modify (set_client (Some the_client));;
       setupEventHandlers;;
       this_options;;
       ext ClientLogin;;
       registerSlashCommands;;
       modify (set_status CONNECTED);;
       onStatusChange CONNECTED None;;
       logger LInfo "Discord bot connected successfully")
      (fun e =>
         logger LError "Failed to connect to Discord";;
         modify (set_status ERROR);;
         onStatusChange ERROR (Some (message e));;
         throw e).

Definition attemptReconnect : Method unit :=
  logger LInfo "Attempting to reconnect to Discord...";;
  try_catch
    (this ← get;
     when (bool_decide (client this <> None)) (ext ClientDestroy);;
     connect)
    (fun _ => logger LError "Failed to reconnect to Discord").

(** The listener of [Events.ShardDisconnect]. It does not await
    [attemptReconnect()]; the run below goes on to the end of the
    reconnect, which is what the adapter does before its next event. *)
Definition onShardDisconnect : Method unit :=
  logger LWarn "Discord client disconnected";;
  this ← get;
  when (negb (isShuttingDown this)) attemptReconnect.

Definition disconnect : Method unit :=
  modify (set_isShuttingDown true);;
  logger LInfo "Disconnecting from Discord...";;
  this ← get;
  when (bool_decide (client this <> None))
    (ext ClientDestroy;;
     modify (set_client None));;
  modify (set_status DISCONNECTED);;
  onStatusChange DISCONNECTED None;;
  logger LInfo "Discord bot disconnected".

Definition getStatus (this : DiscordAdapter) : ConnectionStatus := status this.

Definition getStats (now : Z) (this : DiscordAdapter) : ChannelStats :=
  {| messagesReceived := messagesReceived (stats this);
     messagesSent := messagesSent (stats this);
     errors := errors (stats this);
     uptime := now - startTime this |}.

(** [initialize] has run. *)
Definition is_initialized (a : DiscordAdapter) : Prop := options a <> None.

(** As for Telegram, with the shard listener. *)
Inductive reachable : DiscordAdapter -> Prop :=
| reach_new now : reachable (new now)
| reach_initialize opts w a :
    reachable a -> reachable (state_of (initialize opts w a))
| reach_connect w a :
    reachable a -> reachable (state_of (connect w a))
| reach_disconnect w a :
    reachable a -> reachable (state_of (disconnect w a))
| reach_shard_disconnect w a :
    reachable a -> reachable (state_of (onShardDisconnect w a))
| reach_traffic st a :
    reachable a -> reachable (set_stats st a).

(** One action on an adapter: a call of a public method, the shard
    listener or traffic, under any world. *)
Inductive step : DiscordAdapter -> DiscordAdapter -> Prop :=
| step_initialize opts w a : step a (state_of (initialize opts w a))
| step_connect w a : step a (state_of (connect w a))
| step_disconnect w a : step a (state_of (disconnect w a))
| step_shard_disconnect w a : step a (state_of (onShardDisconnect w a))
| step_traffic st a : step a (set_stats st a).

End Discord.

(** *** class WhatsAppAdapter *)

Module WhatsApp.

Inductive WASocket := the_socket.

Record WhatsAppConfig := {
  sessionId : string;
  phoneNumber : option string;
  config_qrCode : option string
}.

Record WhatsAppAdapter := {
  socket : option WASocket;
  options : option WhatsAppConfig;
  status : ConnectionStatus;
  stats : ChannelStats;
  authStateDir : string;
  qrCode : option string;
  reconnectAttempts : nat;
  maxReconnectAttempts : nat;
  isShuttingDown : bool;
  startTime : Z
}.

Definition new (now : Z) : WhatsAppAdapter :=
  {| socket := None; options := None; status := DISCONNECTED; stats := no_stats;
     authStateDir := ""; qrCode := None; reconnectAttempts := 0;
     maxReconnectAttempts := 10; isShuttingDown := false; startTime := now |}.

Definition set_socket (x : option WASocket) (a : WhatsAppAdapter) : WhatsAppAdapter :=
  {| socket := x; options := options a; status := status a; stats := stats a;
     authStateDir := authStateDir a; qrCode := qrCode a;
     reconnectAttempts := reconnectAttempts a;
     maxReconnectAttempts := maxReconnectAttempts a;
     isShuttingDown := isShuttingDown a; startTime := startTime a |}.
Definition set_options (x : option WhatsAppConfig) (a : WhatsAppAdapter) : WhatsAppAdapter :=
  {| socket := socket a; options := x; status := status a; stats := stats a;
     authStateDir := authStateDir a; qrCode := qrCode a;
     reconnectAttempts := reconnectAttempts a;
     maxReconnectAttempts := maxReconnectAttempts a;
     isShuttingDown := isShuttingDown a; startTime := startTime a |}.
Definition set_status (x : ConnectionStatus) (a : WhatsAppAdapter) : WhatsAppAdapter :=
  {| socket := socket a; options := options a; status := x; stats := stats a;
     authStateDir := authStateDir a; qrCode := qrCode a;
     reconnectAttempts := reconnectAttempts a;
     maxReconnectAttempts := maxReconnectAttempts a;
     isShuttingDown := isShuttingDown a; startTime := startTime a |}.
Definition set_stats (x : ChannelStats) (a : WhatsAppAdapter) : WhatsAppAdapter :=
  {| socket := socket a; options := options a; status := status a; stats := x;
     authStateDir := authStateDir a; qrCode := qrCode a;
     reconnectAttempts := reconnectAttempts a;
     maxReconnectAttempts := maxReconnectAttempts a;
     isShuttingDown := isShuttingDown a; startTime := startTime a |}.
Definition set_authStateDir (x : string) (a : WhatsAppAdapter) : WhatsAppAdapter :=
  {| socket := socket a; options := options a; status := status a; stats := stats a;
     authStateDir := x; qrCode := qrCode a;
     reconnectAttempts := reconnectAttempts a;
     maxReconnectAttempts := maxReconnectAttempts a;
     isShuttingDown := isShuttingDown a; startTime := startTime a |}.
Definition set_qrCode (x : option string) (a : WhatsAppAdapter) : WhatsAppAdapter :=
  {| socket := socket a; options := options a; status := status a; stats := stats a;
     authStateDir := authStateDir a; qrCode := x;
     reconnectAttempts := reconnectAttempts a;
     maxReconnectAttempts := maxReconnectAttempts a;
     isShuttingDown := isShuttingDown a; startTime := startTime a |}.
Definition set_reconnectAttempts (x : nat) (a : WhatsAppAdapter) : WhatsAppAdapter :=
  {| socket := socket a; options := options a; status := status a; stats := stats a;
     authStateDir := authStateDir a; qrCode := qrCode a;
     reconnectAttempts := x;
     maxReconnectAttempts := maxReconnectAttempts a;
     isShuttingDown := isShuttingDown a; startTime := startTime a |}.
Definition set_isShuttingDown (x : bool) (a : WhatsAppAdapter) : WhatsAppAdapter :=
  {| socket := socket a; options := options a; status := status a; stats := stats a;
     authStateDir := authStateDir a; qrCode := qrCode a;
     reconnectAttempts := reconnectAttempts a;
     maxReconnectAttempts := maxReconnectAttempts a;
     isShuttingDown := x; startTime := startTime a |}.

Abbreviation Method := (M call WhatsAppAdapter).

Definition this_options : Method WhatsAppConfig :=
  this ← get;
  match options this with
  | Some o => mret o
  | None => throw undefined_read
  end.

Definition logger (level : LogLevel) (msg : string) : Method unit :=
  this_options;; tell (Logger level msg).

Definition onStatusChange (st : ConnectionStatus) (error : option string) : Method unit :=
  this_options;; ext (OnStatusChange st error).

(** [initialize(options)]; [dir] is what
    [path.join(process.env.WHATSAPP_AUTH_DIR || './whatsapp-sessions',
    this.config.sessionId)] evaluates to. *)
Definition initialize (dir : string) (opts : WhatsAppConfig) : Method unit :=
  modify (set_options (Some opts));;
  this_options;;
  modify (set_authStateDir dir);;
  ext FsMkdir;;
  logger LInfo "WhatsApp adapter initialized".

Definition setupEventHandlers : Method unit :=
  this ← get;
  when (bool_decide (socket this <> None))
    (for_each ext
       [ SocketEvOn "connection.update"; SocketEvOn "creds.update";
         SocketEvOn "messages.upsert"; SocketEvOn "messages.update";
         SocketEvOn "presence.update" ]).

Definition startSocket : Method unit :=
  try_catch
    (ext FetchLatestBaileysVersion;;
     logger LInfo "Using Baileys version";;
     ext UseMultiFileAuthState;;
     this_options;;
     ext MakeWASocket;;
     modify (set_socket (Some the_socket));;
     setupEventHandlers)
    (fun e =>
       logger LError "Failed to start WhatsApp socket";;
       throw e).

Definition connect : Method unit :=
  this ← get;
  if bool_decide (status this = CONNECTED)
  then logger LWarn "WhatsApp already connected"
  else
    try_catch
      (modify (set_status CONNECTING);;
       onStatusChange CONNECTING None;;
       logger LInfo "Connecting to WhatsApp...";;
       startSocket)
      (fun e =>
         logger LError "Failed to connect to WhatsApp";;
         modify (set_status ERROR);;
         onStatusChange ERROR (Some (message e));;
         throw e).

(** The argument of the ['connection.update'] listener:
    [connection], [lastDisconnect?.error?.output?.statusCode] and [qr],
    with the data URL [QRCode.toDataURL(qr)] resolves to. *)
Inductive Connection := Close | Open | Connecting.

Record ConnectionUpdate := {
  connection : option Connection;
  statusCode : option Z;
  qr : option string;
  qr_data_url : string
}.

(** [DisconnectReason.loggedOut] of Baileys. *)
Definition loggedOut : Z := 401.

(** [Math.min(1000 * Math.pow(2, attempts), 30000)]. *)
Definition backoff_delay (attempts : nat) : Z :=
  Z.min (1000 * 2 ^ Z.of_nat attempts) 30000.

Example backoff_delays :
  map backoff_delay [0; 1; 2; 3; 4; 5; 9]%nat = [1000; 2000; 4000; 8000; 16000; 30000; 30000].
Proof. reflexivity. Qed.

Definition updateConfigWithQR (code : string) : Method unit :=
  try_catch
    (config ← this_options;
     modify (set_options
               (Some {| sessionId := sessionId config;
                        phoneNumber := phoneNumber config;
                        config_qrCode := Some code |}));;
     ext (Emit "config-update"))
    (fun _ => logger LError "Failed to update QR code in config").

Definition handleConnectionClose (statusCode : option Z) : Method unit :=
  let shouldReconnect := negb (bool_decide (statusCode = Some loggedOut)) in
  logger LInfo "WhatsApp connection closed";;
  this ← get;
  if shouldReconnect && negb (isShuttingDown this)
  then
    let delay := backoff_delay (reconnectAttempts this) in
    if (reconnectAttempts this <? maxReconnectAttempts this)%nat
    then
      modify (set_reconnectAttempts (S (reconnectAttempts this)));;
      logger LInfo "Reconnecting to WhatsApp...";;
      tell (SetTimeout "startSocket" delay)
    else
      modify (set_status ERROR);;
      onStatusChange ERROR (Some "Max reconnection attempts reached")
  else
    modify (set_status DISCONNECTED);;
    onStatusChange DISCONNECTED None.

Definition handleConnectionOpen : Method unit :=
  modify (set_reconnectAttempts 0);;
  modify (set_qrCode None);;
  modify (set_status CONNECTED);;
  logger LInfo "WhatsApp connected successfully";;
  onStatusChange CONNECTED None;;
  ext (Emit "ready").

Definition handleConnectionUpdate (update : ConnectionUpdate) : Method unit :=
  when (truthy (qr update))
    (try_catch
       (ext QRCodeToDataURL;;
        modify (set_qrCode (Some (qr_data_url update)));;
        logger LInfo "QR code generated";;
        updateConfigWithQR (qr_data_url update);;
        ext (Emit "qr"))
       (fun _ => logger LError "Failed to generate QR code"));;
  match connection update with
  | Some Close => handleConnectionClose (statusCode update)
  | Some Open => handleConnectionOpen
  | _ => mret tt
  end.

Definition disconnect : Method unit :=
  modify (set_isShuttingDown true);;
  logger LInfo "Disconnecting from WhatsApp...";;
  this ← get;
  when (bool_decide (socket this <> None))
    (ext SocketLogout;;
     modify (set_socket None));;
  modify (set_status DISCONNECTED);;
  onStatusChange DISCONNECTED None;;
  logger LInfo "WhatsApp disconnected".

(** [normalizeJid(identifier)]. *)
Definition normalizeJid (identifier : string) : string :=
  let cleaned := JS.replace_non_digits identifier in
  if negb (JS.includes identifier "@")
  then cleaned ++ "@s.whatsapp.net"
  else identifier.

Definition getStatus (this : WhatsAppAdapter) : ConnectionStatus := status this.

Definition getStats (now : Z) (this : WhatsAppAdapter) : ChannelStats :=
  {| messagesReceived := messagesReceived (stats this);
     messagesSent := messagesSent (stats this);
     errors := errors (stats this);
     uptime := now - startTime this |}.

Definition getQRCode (this : WhatsAppAdapter) : option string := qrCode this.

(** [initialize] has run. *)
Definition is_initialized (a : WhatsAppAdapter) : Prop := options a <> None.

Definition has_socket (a : WhatsAppAdapter) : bool :=
  match socket a with Some _ => true | None => false end.

(** The reachable adapters. The index tells whether a socket has been
    made so far: the listener of ['connection.update'] and the reconnect
    timer exist only from then on. The other listeners and [sendMessage]
    write nothing but [stats]. *)
Inductive reachable : bool -> WhatsAppAdapter -> Prop :=
| reach_new now : reachable false (new now)
| reach_initialize g dir opts w a :
    reachable g a -> reachable g (state_of (initialize dir opts w a))
| reach_connect g w a :
    reachable g a ->
    reachable (g || has_socket (state_of (connect w a))) (state_of (connect w a))
| reach_disconnect g w a :
    reachable g a -> reachable g (state_of (disconnect w a))
| reach_update update w a :
    reachable true a -> reachable true (state_of (handleConnectionUpdate update w a))
| reach_timer w a :
    reachable true a -> reachable true (state_of (startSocket w a))
| reach_traffic g st a :
    reachable g a -> reachable g (set_stats st a).

(** One action on an adapter: a call of a public method, a connection
    update, the reconnect timer firing, or traffic, under any world. *)
Inductive step : WhatsAppAdapter -> WhatsAppAdapter -> Prop :=
| step_initialize dir opts w a : step a (state_of (initialize dir opts w a))
| step_connect w a : step a (state_of (connect w a))
| step_disconnect w a : step a (state_of (disconnect w a))
| step_update update w a : step a (state_of (handleConnectionUpdate update w a))
| step_timer w a : step a (state_of (startSocket w a))
| step_traffic st a : step a (set_stats st a).

End WhatsApp.

(** *** The adapters behind one interface *)

(** [interface ChannelAdapter], implemented by the three classes. *)
Inductive Variant := telegram | discord | whatsapp.

Definition Adapter (v : Variant) : Type :=
  match v with
  | telegram => Telegram.TelegramAdapter
  | discord => Discord.DiscordAdapter
  | whatsapp => WhatsApp.WhatsAppAdapter
  end.

Definition new (v : Variant) (now : Z) : Adapter v :=
  match v with
  | telegram => Telegram.new now
  | discord => Discord.new now
  | whatsapp => WhatsApp.new now
  end.

Definition connect (v : Variant) : M call (Adapter v) unit :=
  match v with
  | telegram => Telegram.connect
  | discord => Discord.connect
  | whatsapp => WhatsApp.connect
  end.

Definition disconnect (v : Variant) : M call (Adapter v) unit :=
  match v with
  | telegram => Telegram.disconnect
  | discord => Discord.disconnect
  | whatsapp => WhatsApp.disconnect
  end.

Definition getStatus (v : Variant) : Adapter v -> ConnectionStatus :=
  match v with
  | telegram => Telegram.getStatus
  | discord => Discord.getStatus
  | whatsapp => WhatsApp.getStatus
  end.

(** Whether [initialize] has run: [this.options] is set. *)
Definition initialized (v : Variant) : Adapter v -> bool :=
  match v with
  | telegram => fun a => bool_decide (Telegram.options a <> None)
  | discord => fun a => bool_decide (Discord.options a <> None)
  | whatsapp => fun a => bool_decide (WhatsApp.options a <> None)
  end.

(** Whether the adapter holds a connection: a bot or a runner, a client,
    a socket. *)
Definition connection_held (v : Variant) : Adapter v -> bool :=
  match v with
  | telegram => fun a => bool_decide (Telegram.bot a <> None)
                         || bool_decide (Telegram.runner a <> None)
  | discord => fun a => bool_decide (Discord.client a <> None)
  | whatsapp => fun a => bool_decide (WhatsApp.socket a <> None)
  end.

Definition reachable (v : Variant) : Adapter v -> Prop :=
  match v with
  | telegram => Telegram.reachable
  | discord => Discord.reachable
  | whatsapp => fun a => exists g, WhatsApp.reachable g a
  end.

(** What an adapter can become: any number of actions on it, each under
    its own world. *)
Definition later (v : Variant) : Adapter v -> Adapter v -> Prop :=
  match v with
  | telegram => rtc Telegram.step
  | discord => rtc Discord.step
  | whatsapp => rtc WhatsApp.step
  end.

(** [this.isShuttingDown]. *)
Definition shutting_down (v : Variant) : Adapter v -> bool :=
  match v with
  | telegram => Telegram.isShuttingDown
  | discord => Discord.isShuttingDown
  | whatsapp => WhatsApp.isShuttingDown
  end.

(** The update Baileys delivers when the connection closes with status
    [code]. *)
Definition transient_update (code : option Z) : WhatsApp.ConnectionUpdate :=
  {| WhatsApp.connection := Some WhatsApp.Close;
     WhatsApp.statusCode := code;
     WhatsApp.qr := None;
     WhatsApp.qr_data_url := "" |}.

(** What an adapter does when its platform reports that the connection
    dropped for a reason other than a logout: WhatsApp's listener of
    ['connection.update'] with [connection = 'close'], Discord's
    listener of [ShardDisconnect]. The Telegram adapter registers no
    listener for a lost connection. *)
Definition onTransientDisconnect (v : Variant) : M call (Adapter v) unit :=
  match v with
  | telegram => mret tt
  | discord => Discord.onShardDisconnect
  | whatsapp => WhatsApp.handleConnectionUpdate (transient_update None)
  end.

(** The calls [startSocket] of WhatsApp makes on its way to a socket. *)
Definition socket_calls : list call :=
  [ FetchLatestBaileysVersion; UseMultiFileAuthState; MakeWASocket;
    SocketEvOn "connection.update"; SocketEvOn "creds.update";
    SocketEvOn "messages.upsert"; SocketEvOn "messages.update";
    SocketEvOn "presence.update" ].

(** The calls by which an adapter goes after a new connection: a
    reconnect timer, or the first steps of the connect path. *)
Definition reconnect_call (c : call) : bool :=
  match c with
  | SetTimeout _ _ => true
  | Logger LInfo "Attempting to reconnect to Discord..." => true
  | NewBot | NewClient | ClientLogin | MakeWASocket | FetchLatestBaileysVersion => true
  | _ => false
  end.

(** The reconnect timers set in a trace. *)
Definition is_timer (c : call) : bool :=
  match c with
  | SetTimeout _ _ => true
  | _ => false
  end.

Definition count_timers (t : list call) : nat := length (List.filter is_timer t).

(** The timers set over several runs. *)
Fixpoint total_timers (traces : list (list call)) : nat :=
  match traces with
  | [] => 0
  | t :: rest => count_timers t + total_timers rest
  end.

(** The WhatsApp listener run on a sequence of updates, each under its
    own world; the traces are returned one per update. *)
Fixpoint run_updates (events : list (WhatsApp.ConnectionUpdate * World call))
    (a : WhatsApp.WhatsAppAdapter) : WhatsApp.WhatsAppAdapter * list (list call) :=
  match events with
  | [] => (a, [])
  | (update, w) :: rest =>
      let r := WhatsApp.handleConnectionUpdate update w a in
      let after := run_updates rest (state_of r) in
      (fst after, trace_of r :: snd after)
  end.

(** The warning [connect] logs on an adapter that is connected. *)
Definition already_connected (v : Variant) : string :=
  match v with
  | telegram => "Telegram already connected"
  | discord => "Discord already connected"
  | whatsapp => "WhatsApp already connected"
  end.

(** A world in which every call returns, one in which the logout of
    WhatsApp rejects, and one in which the login to Discord rejects. *)
Definition all_resolve : World call := fun _ => None.

Definition logout_rejects : World call :=
  fun c => match c with
           | SocketLogout => Some "Connection Closed"
           | _ => None
           end.

Definition login_rejects : World call :=
  fun c => match c with
           | ClientLogin => Some "An invalid token was provided."
           | _ => None
           end.

(** Adapters brought up the way the channel manager does: constructed,
    initialized, connected. WhatsApp is connected once its socket
    reports [connection = 'open']. *)
Definition sample_telegram : Telegram.TelegramConfig :=
  {| Telegram.botToken := "123456:ABC-DEF";
     Telegram.botUsername := "openclaw_bot";
     Telegram.webhookUrl := None;
     Telegram.webhookSecret := None;
     Telegram.allowedUpdates := ["message"] |}.

Definition sample_discord : Discord.DiscordConfig :=
  {| Discord.botToken := "discord-token";
     Discord.applicationId := "1122334455";
     Discord.guildId := None;
     Discord.intents := ["Guilds"; "GuildMessages"] |}.

Definition sample_whatsapp : WhatsApp.WhatsAppConfig :=
  {| WhatsApp.sessionId := "session-1";
     WhatsApp.phoneNumber := None;
     WhatsApp.config_qrCode := None |}.

Definition open_update : WhatsApp.ConnectionUpdate :=
  {| WhatsApp.connection := Some WhatsApp.Open;
     WhatsApp.statusCode := None;
     WhatsApp.qr := None;
     WhatsApp.qr_data_url := "" |}.

Definition connected_telegram : Telegram.TelegramAdapter :=
  state_of (Telegram.connect all_resolve
    (state_of (Telegram.initialize sample_telegram all_resolve (Telegram.new 0)))).

Definition connected_discord : Discord.DiscordAdapter :=
  state_of (Discord.connect all_resolve
    (state_of (Discord.initialize sample_discord all_resolve (Discord.new 0)))).

Definition connected_whatsapp : WhatsApp.WhatsAppAdapter :=
  state_of (WhatsApp.handleConnectionUpdate open_update all_resolve
    (state_of (WhatsApp.connect all_resolve
      (state_of (WhatsApp.initialize "whatsapp-sessions/session-1" sample_whatsapp
                   all_resolve (WhatsApp.new 0)))))).

Definition connected (v : Variant) : Adapter v :=
  match v with
  | telegram => connected_telegram
  | discord => connected_discord
  | whatsapp => connected_whatsapp
  end.

(** A WhatsApp adapter whose connection closed ten times in a row. *)
Definition exhausted_whatsapp : WhatsApp.WhatsAppAdapter :=
  fst (run_updates (repeat (transient_update None, all_resolve) 10) connected_whatsapp).

(** A Discord adapter whose first login was rejected. *)
Definition failed_discord : Discord.DiscordAdapter :=
  state_of (Discord.connect login_rejects
    (state_of (Discord.initialize sample_discord all_resolve (Discord.new 0)))).

(** Running a method several times in a row, under the same world; the
    traces are returned one per run. *)
Fixpoint repeat_run {state : Type} (m : M call state unit) (w : World call)
    (n : nat) (s : state) : state * list (list call) :=
  match n with
  | O => (s, [])
  | S k =>
      let r := m w s in
      let rest := repeat_run m w k (state_of r) in
      (fst rest, trace_of r :: snd rest)
  end.

End Channels.

(** ** The authentication client *)

Module Auth.

Import Eff.

Inductive Tier := open_source | teams | government.

(** [interface AuthenticatedUser]; [exp] and [iat] are in seconds. *)
Record AuthenticatedUser := {
  userId : string;
  organizationId : string;
  email : string;
  name : option string;
  tier : Tier;
  permissions : list string;
  exp : Z;
  iat : Z
}.

(** [response.data.user] of the validation endpoint. *)
Record RemoteUser := {
  id : string;
  organization_id : string;
  remote_email : string;
  remote_name : option string;
  remote_tier : option string;
  remote_permissions : option (list string)
}.

(** [interface TokenValidationResponse]. *)
Record TokenValidationResponse := {
  valid : bool;
  user : option RemoteUser;
  error : option string
}.

(** How [httpClient.post] ends: with a response, or with an axios error
    carrying the status of the reply, if there was one. *)
Inductive HttpOutcome :=
| Response (data : TokenValidationResponse)
| AxiosError (status : option Z) (msg : string).

(** The claims [jwt.decode] reads from a token, unverified. *)
Record Claims := {
  claim_exp : option Z;
  claim_iat : option Z
}.

(** What the client reads from outside: the clock in milliseconds,
    [jwt.decode], and the answers of the auth service. *)
Record Remote := {
  Date_now : Z;
  jwt_decode : string -> option Claims;
  post_validate : string -> HttpOutcome
}.

(** [JSON.stringify] and [JSON.parse] on the cached user. The cache only
    ever holds what [cacheToken] wrote; [None] is a [SyntaxError]. The
    text of an object is never empty. *)
Class UserJson := {
  JSON_stringify_user : AuthenticatedUser -> string;
  JSON_parse_user : string -> option AuthenticatedUser;
  JSON_parse_stringify_user :
    forall u, JSON_parse_user (JSON_stringify_user u) = Some u;
  JSON_stringify_user_nonempty :
    forall u, JSON_stringify_user u <> EmptyString
}.

(** The calls of the client: Redis commands, the request to the auth
    service and [console.error]. *)
Inductive call :=
| RedisGet (key : string)
| RedisSetex (key : string) (seconds : Z) (value : string)
| RedisDel (key : string)
| HttpPost (path : string)
| ConsoleError (msg : string).

#[global] Instance call_eq_dec : EqDecision call.
Proof. solve_decision. Defined.

(** The Redis keyspace: each key holds its value and the instant, in
    milliseconds, at which it expires. It is the state the methods of
    the client act on. *)
Abbreviation Cache := (gmap string (string * Z)).

Abbreviation Method := (M call Cache).

Inductive RedisHandle := the_redis.

Record NexusAuthClient := {
  authUrl : string;
  apiKey : string;
  redis : option RedisHandle;
  cacheTTL : Z
}.

(** The constructor followed by [setRedis(redis)]. *)
Definition new_with_redis (authUrl apiKey : string) : NexusAuthClient :=
  {| authUrl := authUrl; apiKey := apiKey; redis := Some the_redis; cacheTTL := 300 |}.

(** The constructor, given [NEXUS_AUTH_URL] and [NEXUS_API_KEY] of the
    environment: a variable that is not set or empty gives way to the
    default. *)
Definition new_NexusAuthClient (NEXUS_AUTH_URL NEXUS_API_KEY : option string)
  : NexusAuthClient :=
  {| authUrl := match NEXUS_AUTH_URL with
                | Some (String c s) => String c s
                | _ => "http://nexus-auth.nexus.svc.cluster.local:9100"
                end;
     apiKey := match NEXUS_API_KEY with
               | Some (String c s) => String c s
               | _ => ""
               end;
     redis := None;
     cacheTTL := 300 |}.

(** [setRedis(redis)]. *)
Definition setRedis (this : NexusAuthClient) : NexusAuthClient :=
  {| authUrl := authUrl this; apiKey := apiKey this; redis := Some the_redis;
     cacheTTL := cacheTTL this |}.

Section Client.

Context `{UserJson}.

Variable remote : Remote.

(** [getCacheKey(token)]. *)
Definition getCacheKey (token : string) : string :=
  let suffix := JS.slice token (-16) in
  "auth:token:" ++ suffix.

(** [redis.get(key)]: the value, unless the key is absent or expired. *)
Definition redis_get (key : string) : Method (option string) :=
  ext (RedisGet key);;
  cache ← get;
  match cache !! key with
  | Some (value, expires) =>
      if Date_now remote <? expires then mret (Some value) else mret None
  | None => mret None
  end.

(** [redis.setex(key, seconds, value)]: Redis refuses a time to live
    that is not positive. *)
Definition redis_setex (key : string) (seconds : Z) (value : string) : Method unit :=
  ext (RedisSetex key seconds value);;
  if seconds <=? 0
  then throw (Error "ERR invalid expire time in 'setex' command")
  else modify (fun cache : Cache => <[key := (value, Date_now remote + 1000 * seconds)]> cache).

Definition redis_del (key : string) : Method unit :=
  ext (RedisDel key);;
  modify (fun cache : Cache => base.delete key cache).

(** [exp && exp < Date.now() / 1000], for [exp] in whole seconds. *)
Definition expired (exp : Z) : bool :=
  negb (exp =? 0) && (1000 * exp <? Date_now remote).

Definition getCachedToken (this : NexusAuthClient) (token : string)
  : Method (option AuthenticatedUser) :=
  match redis this with
  | None => mret None
  | Some _ =>
      try_catch
        (let cacheKey := getCacheKey token in
         cached ← redis_get cacheKey;
         match cached with
         | Some (String c s) =>
             match JSON_parse_user (String c s) with
             | None => throw SyntaxError
             | Some user =>
                 if expired (exp user)
                 then redis_del cacheKey;; mret None
                 else mret (Some user)
             end
         | _ => mret None
         end)
        (fun _ => tell (ConsoleError "Failed to get cached token:");; mret None)
  end.

(** [Math.floor(ttl)] for [ttl = Math.min(user.exp - Date.now() / 1000,
    this.cacheTTL)], and [this.cacheTTL] when [user.exp] is zero. *)
Definition time_to_live (this : NexusAuthClient) (user : AuthenticatedUser) : Z :=
  if exp user =? 0 then cacheTTL this
  else Z.min (exp user + (- Date_now remote) / 1000) (cacheTTL this).

Definition cacheToken (this : NexusAuthClient) (token : string) (user : AuthenticatedUser)
  : Method unit :=
  match redis this with
  | None => mret tt
  | Some _ =>
      try_catch
        (let cacheKey := getCacheKey token in
         redis_setex cacheKey (time_to_live this user) (JSON_stringify_user user))
        (fun _ => tell (ConsoleError "Failed to cache token:"))
  end.

(** [decodeToken(token)]. *)
Definition decodeToken (token : string) : Method Claims :=
  match jwt_decode remote token with
  | Some decoded => mret decoded
  | None => throw (Error "Failed to decode token")
  end.

Definition or_zero (o : option Z) : Z :=
  match o with Some n => n | None => 0 end.

(** The tier of the reply, narrowed to the three known ones. *)
Definition tier_of (t : option string) : Tier :=
  match t with
  | Some s => if String.eqb s "teams" then teams
              else if String.eqb s "government" then government
              else open_source
  | None => open_source
  end.

(** [validateToken(token)]. A request that fails passes the response
    interceptor the constructor installed, which logs it, before it
    reaches the [catch] of the method. *)
Definition validateToken (this : NexusAuthClient) (token : string)
  : Method AuthenticatedUser :=
  cached ← match redis this with
           | Some _ => getCachedToken this token
           | None => mret None
           end;
  match cached with
  | Some user => mret user
  | None =>
      decoded ← decodeToken token;
      if expired (or_zero (claim_exp decoded))
      then throw (Error "Token expired")
      else
        tell (HttpPost "/v1/auth/validate");;
        match post_validate remote token with
        | AxiosError status msg =>
            tell (ConsoleError "Auth client response error:");;
            match status with
            | Some 401 => throw (Error "Invalid or expired token")
            | Some 403 => throw (Error "Insufficient permissions")
            | _ => throw (Error ("Auth service error: " ++ msg))
            end
        | Response data =>
            match valid data, user data with
            | true, Some u =>
                let user :=
                  {| userId := id u;
                     organizationId := organization_id u;
                     email := remote_email u;
                     name := remote_name u;
                     tier := tier_of (remote_tier u);
                     permissions := match remote_permissions u with
                                    | Some l => l
                                    | None => []
                                    end;
                     exp := or_zero (claim_exp decoded);
                     iat := or_zero (claim_iat decoded) |} in
                cacheToken this token user;;
                mret user
            | _, _ =>
                throw (Error (match error data with
                              | Some (String c s) => String c s
                              | _ => "Invalid token"
                              end))
            end
        end
  end.

Definition invalidateToken (this : NexusAuthClient) (token : string) : Method unit :=
  match redis this with
  | None => mret tt
  | Some _ =>
      try_catch
        (redis_del (getCacheKey token))
        (fun _ => tell (ConsoleError "Failed to invalidate token:"))
  end.

(** [hasPermission(user, permission)]. *)
Definition hasPermission (user : AuthenticatedUser) (permission : string) : bool :=
  existsb (String.eqb permission) (permissions user)
  || existsb (String.eqb "*") (permissions user).

(** [belongsToOrganization(user, organizationId)]. *)
Definition belongsToOrganization (user : AuthenticatedUser) (org : string) : bool :=
  String.eqb (organizationId user) org.

(** A request sent through [httpClient]: the response interceptor set
    up by the constructor logs a failure and passes it on. *)
Definition http_request (path : string) : Method unit :=
  try_catch
    (ext (HttpPost path))
    (fun e => tell (ConsoleError "Auth client response error:");; throw e).

(** [logout(token)]. *)
Definition logout (this : NexusAuthClient) (token : string) : Method unit :=
  try_catch
    (http_request "/v1/auth/logout";;
     invalidateToken this token)
    (fun _ => throw (Error "Failed to logout")).

End Client.

(** *** API keys *)

Section ApiKey.

Context `{UserJson}.

Variable remote : Remote.

(** The answers of the auth service to [/v1/auth/validate-api-key]. *)
Variable post_validate_api_key : string -> HttpOutcome.

(** The cache key both [getCachedApiKey] and [cacheApiKey] build. *)
Definition apiKeyCacheKey (apiKey : string) : string :=
  "auth:apikey:" ++ JS.slice apiKey (-16).

Definition getCachedApiKey (this : NexusAuthClient) (apiKey : string)
  : Method (option AuthenticatedUser) :=
  match redis this with
  | None => mret None
  | Some _ =>
      try_catch
        (let cacheKey := apiKeyCacheKey apiKey in
         cached ← redis_get remote cacheKey;
         match cached with
         | Some (String c s) =>
             match JSON_parse_user (String c s) with
             | None => throw SyntaxError
             | Some user => mret (Some user)
             end
         | _ => mret None
         end)
        (fun _ => tell (ConsoleError "Failed to get cached API key:");; mret None)
  end.

Definition cacheApiKey (this : NexusAuthClient) (apiKey : string) (user : AuthenticatedUser)
  : Method unit :=
  match redis this with
  | None => mret tt
  | Some _ =>
      try_catch
        (let cacheKey := apiKeyCacheKey apiKey in
         redis_setex remote cacheKey 3600 (JSON_stringify_user user))
        (fun _ => tell (ConsoleError "Failed to cache API key:"))
  end.

Definition validateApiKey (this : NexusAuthClient) (apiKey : string)
  : Method AuthenticatedUser :=
  cached ← match redis this with
           | Some _ => getCachedApiKey this apiKey
           | None => mret None
           end;
  match cached with
  | Some user => mret user
  | None =>
      tell (HttpPost "/v1/auth/validate-api-key");;
      match post_validate_api_key apiKey with
      | AxiosError status msg =>
          tell (ConsoleError "Auth client response error:");;
          match status with
          | Some 401 => throw (Error "Invalid API key")
          | Some 403 => throw (Error "Insufficient permissions")
          | _ => throw (Error ("Auth service error: " ++ msg))
          end
      | Response data =>
          match valid data, user data with
          | true, Some u =>
              let user :=
                {| userId := id u;
                   organizationId := organization_id u;
                   email := remote_email u;
                   name := remote_name u;
                   tier := tier_of (remote_tier u);
                   permissions := match remote_permissions u with
                                  | Some l => l
                                  | None => []
                                  end;
                   exp := Date_now remote / 1000 + 3600;
                   iat := Date_now remote / 1000 |} in
              cacheApiKey this apiKey user;;
              mret user
          | _, _ =>
              throw (Error (match error data with
                            | Some (String c s) => String c s
                            | _ => "Invalid API key"
                            end))
          end
      end
  end.

End ApiKey.

(** *** Quotas *)

(** The limits of one tier; [-1] stands for no limit. *)
Record TierQuotas := {
  maxSessions : Z;
  maxSkillsPerMinute : Z;
  maxChannels : Z;
  maxCronJobs : Z;
  maxMessageHistory : Z;
  maxConcurrentSkills : Z;
  maxStorageMb : Z
}.

(** The object literal [quotas] of [getTierQuotas], in source order. *)
Definition open_source_quotas : TierQuotas :=
  {| maxSessions := 10; maxSkillsPerMinute := 10; maxChannels := 2; maxCronJobs := 5;
     maxMessageHistory := 100; maxConcurrentSkills := 3; maxStorageMb := 100 |}.

Definition teams_quotas : TierQuotas :=
  {| maxSessions := 100; maxSkillsPerMinute := 60; maxChannels := 5; maxCronJobs := 50;
     maxMessageHistory := 1000; maxConcurrentSkills := 10; maxStorageMb := 1000 |}.

Definition government_quotas : TierQuotas :=
  {| maxSessions := -1; maxSkillsPerMinute := -1; maxChannels := -1; maxCronJobs := -1;
     maxMessageHistory := -1; maxConcurrentSkills := -1; maxStorageMb := -1 |}.

Definition quotas : list (string * TierQuotas) :=
  [ ("open_source", open_source_quotas);
    ("teams", teams_quotas);
    ("government", government_quotas) ].

(** The names [Object.prototype] defines: a property read on an object
    literal finds them when the object has no property of its own under
    the name. Each of them holds a function or an object. *)
Definition Object_prototype : list string :=
  [ "constructor"; "__defineGetter__"; "__defineSetter__"; "hasOwnProperty";
    "__lookupGetter__"; "__lookupSetter__"; "isPrototypeOf"; "propertyIsEnumerable";
    "toString"; "valueOf"; "__proto__"; "toLocaleString" ].

(** What [quotas[tier] || quotas.open_source] evaluates to: the limits
    of a tier, or a member of [Object.prototype], which is truthy and
    has none of the seven limits. *)
Inductive QuotaLookup :=
| Limits (q : TierQuotas)
| Inherited (name : string).

Definition getTierQuotas (tier : string) : QuotaLookup :=
  match Vault.assoc tier quotas with
  | Some q => Limits q
  | None =>
      if existsb (String.eqb tier) Object_prototype
      then Inherited tier
      else Limits open_source_quotas
  end.

(** The string a tier of [AuthenticatedUser] is. *)
Definition tier_name (t : Tier) : string :=
  match t with
  | open_source => "open_source"
  | teams => "teams"
  | government => "government"
  end.

End Auth.

(** ** The realtime gateway: handshakes and events *)

Module Realtime.

Import Eff.

(** [interface SocketData]; [connectedAt] is in milliseconds. *)
Record SocketData := {
  userId : string;
  organizationId : string;
  email : string;
  tier : string;
  sessionId : option string;
  connectedAt : Z
}.

(** A socket of Socket.IO as the gateway uses it: its id, the data the
    authentication middleware attached to it, and the rooms it is in. *)
Record Socket := {
  id : string;
  data : SocketData;
  rooms : gset string
}.

(** The calls of the gateway: those of its auth client, the logger, the
    emissions through Socket.IO (to one socket, to a room, to all), the
    registration of a listener and the pause between two steps of a
    skill. *)
Inductive call :=
| AuthCall (c : Auth.call)
| LoggerCall (level : Channels.LogLevel) (msg : string)
| SocketEmit (socket event : string)
| SocketOn (socket event : string)
| IoToEmit (room event : string)
| IoEmit (event : string)
| Sleep (ms : Z).

#[global] Instance call_eq_dec : EqDecision call.
Proof. solve_decision. Defined.

(** What a handler works on: the gateway and the socket it was
    registered for. *)
Record Scope := {
  this : Gateway.OpenClawGateway;
  socket : Socket
}.

Definition set_connectionCount (n : Z) (s : Scope) : Scope :=
  {| this := {| Gateway.io := Gateway.io (this s);
                Gateway.pubClient := Gateway.pubClient (this s);
                Gateway.subClient := Gateway.subClient (this s);
                Gateway.connectionCount := n |};
     socket := socket s |}.

Definition set_rooms (r : gset string) (s : Scope) : Scope :=
  {| this := this s;
     socket := {| id := id (socket s); data := data (socket s); rooms := r |} |}.

Definition set_sessionId (x : option string) (s : Scope) : Scope :=
  {| this := this s;
     socket := {| id := id (socket s);
                  data := {| userId := userId (data (socket s));
                             organizationId := organizationId (data (socket s));
                             email := email (data (socket s));
                             tier := tier (data (socket s));
                             sessionId := x;
                             connectedAt := connectedAt (data (socket s)) |};
                  rooms := rooms (socket s) |} |}.

Abbreviation Method := (M call Scope).

(** [socket.join(room)], [socket.leave(room)], [socket.emit(event, ...)]
    and [socket.on(event, ...)]. *)
Definition socket_join (room : string) : Method unit :=
  modify (fun s => set_rooms ({[room]} ∪ rooms (socket s)) s).

Definition socket_leave (room : string) : Method unit :=
  modify (fun s => set_rooms (rooms (socket s) ∖ {[room]}) s).

Definition socket_emit (event : string) : Method unit :=
  s ← get; ext (SocketEmit (id (socket s)) event).

Definition socket_on (event : string) : Method unit :=
  s ← get; ext (SocketOn (id (socket s)) event).

Definition broadcastToOrg (organizationId event : string) : Method unit :=
  s ← get;
  when (bool_decide (Gateway.io (this s) <> None))
    (ext (IoToEmit ("org:" ++ organizationId) event)).

Definition broadcastToSession (sessionId event : string) : Method unit :=
  s ← get;
  when (bool_decide (Gateway.io (this s) <> None))
    (ext (IoToEmit ("session:" ++ sessionId) event)).

Definition broadcastToUser (userId event : string) : Method unit :=
  s ← get;
  when (bool_decide (Gateway.io (this s) <> None))
    (ext (IoToEmit ("user:" ++ userId) event)).

Definition broadcastAll (event : string) : Method unit :=
  s ← get;
  when (bool_decide (Gateway.io (this s) <> None)) (ext (IoEmit event)).

(** [handleConnection(socket)]. *)
Definition handleConnection : Method unit :=
  s ← get;
  let data := data (socket s) in
  modify (set_connectionCount (Gateway.connectionCount (this s) + 1));;
  tell (LoggerCall Channels.LInfo "Client connected");;
  socket_join ("org:" ++ organizationId data);;
  socket_join ("user:" ++ userId data);;
  socket_emit "connected";;
  for_each socket_on
    [ "session.create"; "session.join"; "session.leave"; "message.send";
      "skill.execute"; "ping"; "disconnect"; "error" ].

(** The payloads of the events, as far as the gateway reads them: the
    rest of a payload is passed on in what is emitted. A client may send
    an event with no payload, which is [None]. *)
Record SessionCreatePayload := {
  channelType : option string;
  channelId : option string
}.

Record MessagePayload := {
  message_sessionId : string;
  content : string
}.

Record SkillExecutionPayload := {
  skill_sessionId : string;
  skillName : string
}.

(** A property read on a payload: a [TypeError] when there is none. *)
Definition read {A : Type} (payload : option A) : Method A :=
  match payload with
  | Some p => mret p
  | None => throw Channels.undefined_read
  end.

(** [handleSessionCreate(socket, payload)]; [uuid] is what [uuidv4()]
    returns. *)
Definition handleSessionCreate (payload : option SessionCreatePayload) (uuid : string)
  : Method unit :=
  s ← get;
  let data := data (socket s) in
  try_catch
    (let sessionId := uuid in
     read payload;;
     socket_join ("session:" ++ sessionId);;
     modify (set_sessionId (Some sessionId));;
     socket_emit "session.created";;
     broadcastToOrg (organizationId data) "session.new";;
     tell (LoggerCall Channels.LInfo "Session created"))
    (fun _ => socket_emit "error").

Definition handleSessionJoin (sessionId : string) : Method unit :=
  socket_join ("session:" ++ sessionId);;
  modify (set_sessionId (Some sessionId));;
  socket_emit "session.joined".

Definition handleSessionLeave (session : string) : Method unit :=
  socket_leave ("session:" ++ session);;
  s ← get;
  when (bool_decide (sessionId (data (socket s)) = Some session))
    (modify (set_sessionId None));;
  socket_emit "session.left".

Definition handleMessageSend (payload : option MessagePayload) : Method unit :=
  try_catch
    (p ← read payload;
     broadcastToSession (message_sessionId p) "message.received";;
     socket_emit "message.sent";;
     tell (LoggerCall Channels.LDebug "Message sent"))
    (fun _ => socket_emit "error").

(** [handleSkillExecute(socket, payload)]: the handler of [catch] reads
    the payload again. *)
Definition handleSkillExecute (payload : option SkillExecutionPayload) : Method unit :=
  try_catch
    (p ← read payload;
     broadcastToSession (skill_sessionId p) "skill.started";;
     for_each
       (fun _ : nat =>
          tell (Sleep 200);;
          broadcastToSession (skill_sessionId p) "skill.progress")
       (seq 1 5);;
     broadcastToSession (skill_sessionId p) "skill.completed";;
     broadcastToSession (skill_sessionId p) "message.received";;
     tell (LoggerCall Channels.LInfo "Skill executed"))
    (fun _ =>
       p ← read payload;
       broadcastToSession (skill_sessionId p) "skill.error").

Definition handleDisconnect : Method unit :=
  s ← get;
  modify (set_connectionCount (Gateway.connectionCount (this s) - 1));;
  tell (LoggerCall Channels.LInfo "Client disconnected").

Definition handleError : Method unit :=
  tell (LoggerCall Channels.LError "Socket error").

(** Whether an emission reaches a socket: Socket.IO delivers an event
    sent to a room to the sockets that are in it. *)
Definition hears (sk : Socket) (c : call) : bool :=
  match c with
  | SocketEmit i _ => bool_decide (i = id sk)
  | IoToEmit room _ => bool_decide (room ∈ rooms sk)
  | IoEmit _ => true
  | _ => false
  end.

(** The gateway with the sockets connected to it, by id. *)
Record Hub := {
  gateway : Gateway.OpenClawGateway;
  sockets : gmap string Socket
}.

(** A handler run for one socket of the hub. *)
Definition run (m : Method unit) (w : World call) (sk : Socket) (h : Hub) : Hub :=
  let s := state_of (m w {| this := gateway h; socket := sk |}) in
  {| gateway := this s; sockets := <[id sk := socket s]> (sockets h) |}.

(** The handlers [handleConnection] registers for the events of a
    client. *)
Inductive client_event : Method unit -> Prop :=
| on_session_create payload uuid : client_event (handleSessionCreate payload uuid)
| on_session_join sessionId : client_event (handleSessionJoin sessionId)
| on_session_leave sessionId : client_event (handleSessionLeave sessionId)
| on_message_send payload : client_event (handleMessageSend payload)
| on_skill_execute payload : client_event (handleSkillExecute payload)
| on_error : client_event handleError.

(** What happens to a hub: a socket that passed the middleware connects,
    a connected socket sends an event, a socket disconnects. Socket.IO
    gives a new socket an id of letters, digits, [-] and [_] and puts it
    in the room of that name; a socket that disconnects is gone. *)
Inductive step : Hub -> Hub -> Prop :=
| step_connection w sk h :
    sockets h !! id sk = None ->
    rooms sk = {[id sk]} ->
    JS.includes (id sk) ":" = false ->
    step h (run handleConnection w sk h)
| step_event m w sk h :
    client_event m ->
    sockets h !! id sk = Some sk ->
    step h (run m w sk h)
| step_disconnect w sk h :
    sockets h !! id sk = Some sk ->
    step h {| gateway := gateway (run handleDisconnect w sk h);
              sockets := base.delete (id sk) (sockets h) |}.

(** The rooms the gateway ever puts a socket in: the one Socket.IO
    made for it, those of its organization and its user, and rooms of
    sessions. *)
Definition room_of (sk : Socket) (room : string) : Prop :=
  room = id sk
  \/ room = "org:" ++ organizationId (data sk)
  \/ room = "user:" ++ userId (data sk)
  \/ exists session, room = "session:" ++ session.

(** A socket [handleConnection] has run for. *)
Definition connected (sk : Socket) : Prop :=
  JS.includes (id sk) ":" = false
  /\ "org:" ++ organizationId (data sk) ∈ rooms sk
  /\ forall room, room ∈ rooms sk -> room_of sk room.

(** What a handler keeps of the socket it runs for, and what a hub
    keeps of its sockets. *)
Definition kept (i : string) (s : Scope) : Prop :=
  id (socket s) = i /\ connected (socket s).

Definition hub_connected (h : Hub) : Prop :=
  forall i sk, sockets h !! i = Some sk -> id sk = i /\ connected sk.

(** *** The authentication middleware *)

(** [socket.handshake]: [auth.token] and the [authorization] header. *)
Record Handshake := {
  auth_token : option string;
  authorization : option string
}.

(** [s.replace(pattern, '')] for a pattern that is a string: its first
    occurrence is removed. *)
Fixpoint remove_first (pattern s : string) : string :=
  if String.prefix pattern s
  then JS.slice s (Z.of_nat (String.length pattern))
  else match s with
       | EmptyString => EmptyString
       | String c s' => String c (remove_first pattern s')
       end.

(** [handshake.auth.token ||
    handshake.headers.authorization?.replace('Bearer ', '')]. *)
Definition handshake_token (h : Handshake) : option string :=
  match auth_token h with
  | Some (String c s) => Some (String c s)
  | _ =>
      match authorization h with
      | Some header => Some (remove_first "Bearer " header)
      | None => None
      end
  end.

(** How the middleware calls [next]: with nothing, the data being
    attached to the socket, or with an error. *)
Inductive Next :=
| Accepted (data : SocketData)
| Refused (msg : string).

(** The auth client of the gateway: made by the constructor of the
    gateway, which is the only place that assigns the field; no method
    of the gateway calls [setRedis] on it. *)
Definition gateway_authClient (NEXUS_AUTH_URL NEXUS_API_KEY : option string)
  : Auth.NexusAuthClient :=
  Auth.new_NexusAuthClient NEXUS_AUTH_URL NEXUS_API_KEY.

Section Middleware.

Context `{Auth.UserJson}.

Variable remote : Auth.Remote.

(** [this.authClient.validateToken(token)], as a step of the
    middleware. *)
Definition authClient_validateToken (authClient : Auth.NexusAuthClient) (token : string)
  : M call Auth.Cache Auth.AuthenticatedUser :=
  embed AuthCall (fun cache => cache) (fun cache _ => cache)
    (Auth.validateToken remote authClient token).

(** The middleware [initialize] installs with [io.use]. *)
Definition authenticate (authClient : Auth.NexusAuthClient) (h : Handshake)
  : M call Auth.Cache Next :=
  try_catch
    (match handshake_token h with
     | Some (String c s) =>
         user ← authClient_validateToken authClient (String c s);
         mret (Accepted {| userId := Auth.userId user;
                           organizationId := Auth.organizationId user;
                           email := Auth.email user;
                           tier := Auth.tier_name (Auth.tier user);
                           sessionId := None;
                           connectedAt := Auth.Date_now remote |})
     | _ => mret (Refused "Authentication required")
     end)
    (fun _ =>
       tell (LoggerCall Channels.LWarn "WebSocket auth failed");;
       mret (Refused "Invalid or expired token")).

End Middleware.

(** The calls that read or write the token cache. *)
Definition is_redis_call (c : call) : bool :=
  match c with
  | AuthCall (Auth.RedisGet _) => true
  | AuthCall (Auth.RedisSetex _ _ _) => true
  | AuthCall (Auth.RedisDel _) => true
  | _ => false
  end.

(** The socket Socket.IO hands to [handleConnection] after the
    middleware accepted the handshake. *)
Definition new_socket (id : string) (data : SocketData) : Socket :=
  {| id := id; data := data; rooms := {[id]} |}.

Definition all_resolve : World call := fun _ => None.

(** Two users of two organizations, connected to a gateway that has
    been initialized. *)
Definition sample_alice : Scope :=
  {| this := Gateway.initialized;
     socket := new_socket "Xk3_a"
                 {| userId := "alice"; organizationId := "org-1";
                    email := "alice@example.org"; tier := "teams";
                    sessionId := None; connectedAt := 1700000000000 |} |}.

Definition sample_mallory : Scope :=
  {| this := Gateway.initialized;
     socket := new_socket "Qp9-m"
                 {| userId := "mallory"; organizationId := "org-2";
                    email := "mallory@example.com"; tier := "open_source";
                    sessionId := None; connectedAt := 1700000000500 |} |}.

Definition sample_message : MessagePayload :=
  {| message_sessionId := "9b2f"; content := "quarterly numbers" |}.

Definition empty_hub : Hub :=
  {| gateway := Gateway.initialized; sockets := ∅ |}.

End Realtime.

(** ** The server: shutdown *)

Module Server.

Import Eff.

(** The calls of [shutdown]: the logger, [server.close], those of the
    gateway, [channelManager.shutdown()], [database.end()] and
    [redis.quit()]. *)
Inductive call :=
| LoggerCall (level : Channels.LogLevel) (msg : string)
| ServerClose
| GatewayCall (c : Gateway.call)
| ChannelManagerShutdown
| DatabaseEnd
| RedisQuit.

#[global] Instance call_eq_dec : EqDecision call.
Proof. solve_decision. Defined.

Inductive Pool := the_pool.
Inductive Redis := the_redis.

Record OpenClawServer := {
  gateway : Gateway.OpenClawGateway;
  database : option Pool;
  redis : option Redis;
  isShuttingDown : bool
}.

Definition set_gateway (g : Gateway.OpenClawGateway) (s : OpenClawServer) : OpenClawServer :=
  {| gateway := g; database := database s; redis := redis s;
     isShuttingDown := isShuttingDown s |}.

Definition set_isShuttingDown (b : bool) (s : OpenClawServer) : OpenClawServer :=
  {| gateway := gateway s; database := database s; redis := redis s;
     isShuttingDown := b |}.

Abbreviation Method := (M call OpenClawServer).

(** [this.gateway.shutdown()], as a step of the server. *)
Definition gateway_shutdown : Method unit :=
  embed GatewayCall gateway set_gateway Gateway.shutdown.

(** The promise around [this.server.close(callback)]. *)
Definition server_close : Method unit :=
  try_catch
    (ext ServerClose;;
     tell (LoggerCall Channels.LInfo "HTTP server closed"))
    (fun e =>
       tell (LoggerCall Channels.LError "Error closing HTTP server");;
       throw e).

(** [async shutdown()]. *)
Definition shutdown : Method unit :=
  this ← get;
  if isShuttingDown this
  then tell (LoggerCall Channels.LWarn "Shutdown already in progress")
  else
    modify (set_isShuttingDown true);;
    tell (LoggerCall Channels.LInfo "Initiating graceful shutdown...");;
    try_catch
      (server_close;;
       gateway_shutdown;;
       tell (LoggerCall Channels.LInfo "WebSocket gateway closed");;
       ext ChannelManagerShutdown;;
       tell (LoggerCall Channels.LInfo "Channel manager closed");;
       this ← get;
       when (bool_decide (database this <> None))
         (ext DatabaseEnd;;
          tell (LoggerCall Channels.LInfo "Database disconnected"));;
       when (bool_decide (redis this <> None))
         (ext RedisQuit;;
          tell (LoggerCall Channels.LInfo "Redis disconnected"));;
       tell (LoggerCall Channels.LInfo "Graceful shutdown completed"))
      (fun e =>
         tell (LoggerCall Channels.LError "Error during shutdown");;
         throw e).

(** The server after [initialize()]: the gateway with its three
    handles, the pool and the Redis connection. *)
Definition running : OpenClawServer :=
  {| gateway := Gateway.initialized; database := Some the_pool;
     redis := Some the_redis; isShuttingDown := false |}.

Definition all_resolve : World call := fun _ => None.

(** A world in which [pubClient.quit()] of the gateway rejects. *)
Definition pub_quit_rejects : World call :=
  fun c => match c with
           | GatewayCall Gateway.PubClientQuit => Some "Connection is closed."
           | _ => None
           end.

End Server.

(** ** The WhatsApp adapter: sending *)

Module Outbound.

Import Eff.

(** [enum MessageType] of types/channel.types, as far as the adapter
    tells its members apart; [OTHER] carries the string of any other
    member. *)
Inductive MessageType := TEXT | IMAGE | VIDEO | AUDIO | DOCUMENT | OTHER (text : string).

(** [message.media]. *)
Record Media := {
  buffer : option (list Byte.byte);
  url : option string;
  mimeType : option string;
  filename : option string
}.

Record OutgoingMessage := {
  recipientId : string;
  type : MessageType;
  content : string;
  media : option Media
}.

(** [media.buffer || { url: media.url }]. *)
Inductive Source :=
| FromBuffer (bytes : list Byte.byte)
| FromUrl (url : option string).

Definition source (m : Media) : Source :=
  match buffer m with
  | Some bytes => FromBuffer bytes
  | None => FromUrl (url m)
  end.

(** [AnyMessageContent] of Baileys, as [buildMessageContent] fills it. *)
Inductive AnyMessageContent :=
| TextContent (text : string)
| ImageContent (image : Source) (caption : string) (mimetype : option string)
| VideoContent (video : Source) (caption : string) (mimetype : option string)
| AudioContent (audio : Source) (mimetype : option string)
| DocumentContent (document : Source) (fileName : option string) (mimetype : option string).

(** The calls of [sendMessage]: those of the adapter, and
    [socket.sendMessage(jid, content)]. *)
Inductive call :=
| AdapterCall (c : Channels.call)
| SocketSendMessage (jid : string) (content : AnyMessageContent).

Abbreviation Method := (M call Channels.WhatsApp.WhatsAppAdapter).

(** A method of the adapter, as a step of [sendMessage]. *)
Definition adapter {A : Type} (m : Channels.WhatsApp.Method A) : Method A :=
  embed AdapterCall (fun a => a) (fun a _ => a) m.

Definition buildMessageContent (message : OutgoingMessage) : Method AnyMessageContent :=
  match type message with
  | TEXT => mret (TextContent (content message))
  | IMAGE =>
      match media message with
      | Some m => mret (ImageContent (source m) (content message) (mimeType m))
      | None => throw (Error "Image message requires media")
      end
  | VIDEO =>
      match media message with
      | Some m => mret (VideoContent (source m) (content message) (mimeType m))
      | None => throw (Error "Video message requires media")
      end
  | AUDIO =>
      match media message with
      | Some m => mret (AudioContent (source m) (mimeType m))
      | None => throw (Error "Audio message requires media")
      end
  | DOCUMENT =>
      match media message with
      | Some m => mret (DocumentContent (source m) (filename m) (mimeType m))
      | None => throw (Error "Document message requires media")
      end
  | OTHER text => throw (Error ("Unsupported message type: " ++ text))
  end.

Definition count_sent (a : Channels.WhatsApp.WhatsAppAdapter)
  : Channels.WhatsApp.WhatsAppAdapter :=
  Channels.WhatsApp.set_stats
    {| Channels.messagesReceived := Channels.messagesReceived (Channels.WhatsApp.stats a);
       Channels.messagesSent := Channels.messagesSent (Channels.WhatsApp.stats a) + 1;
       Channels.errors := Channels.errors (Channels.WhatsApp.stats a);
       Channels.uptime := Channels.uptime (Channels.WhatsApp.stats a) |} a.

Definition count_error (a : Channels.WhatsApp.WhatsAppAdapter)
  : Channels.WhatsApp.WhatsAppAdapter :=
  Channels.WhatsApp.set_stats
    {| Channels.messagesReceived := Channels.messagesReceived (Channels.WhatsApp.stats a);
       Channels.messagesSent := Channels.messagesSent (Channels.WhatsApp.stats a);
       Channels.errors := Channels.errors (Channels.WhatsApp.stats a) + 1;
       Channels.uptime := Channels.uptime (Channels.WhatsApp.stats a) |} a.

Section SendMessage.

(** The string each member of [ConnectionStatus] is; the enum is
    declared in types/channel.types. *)
Variable status_text : ConnectionStatus -> string.

(** [sendMessage(message)]; [sent] is what [socket.sendMessage]
    resolves to, [undefined] or a message with its [key.id]. The call
    of the logger reads [this.options.logger] and then [sent.key.id]. *)
Definition sendMessage (message : OutgoingMessage) (sent : option (option string))
  : Method string :=
  this ← get;
  match Channels.WhatsApp.socket this with
  | None => throw (Error "WhatsApp not connected")
  | Some _ =>
      if negb (bool_decide (Channels.WhatsApp.status this = CONNECTED))
      then throw (Error ("WhatsApp not ready: " ++ status_text (Channels.WhatsApp.status this)))
      else
        try_catch
          (let jid := Channels.WhatsApp.normalizeJid (recipientId message) in
           content ← buildMessageContent message;
           ext (SocketSendMessage jid content);;
           modify count_sent;;
           adapter Channels.WhatsApp.this_options;;
           key_id ← match sent with
                    | Some key_id => mret key_id
                    | None => throw Channels.undefined_read
                    end;
           adapter (tell (Channels.Logger Channels.LInfo "WhatsApp message sent"));;
           mret (match key_id with
                 | Some (String c s) => String c s
                 | _ => ""
                 end))
          (fun e =>
             modify count_error;;
             adapter (Channels.WhatsApp.logger Channels.LError
                        "Failed to send WhatsApp message");;
             throw e)
  end.

End SendMessage.

(** What a run added to a counter of the adapter. *)
Definition counted (field : Channels.ChannelStats -> Z)
    (a a' : Channels.WhatsApp.WhatsAppAdapter) : Z :=
  field (Channels.WhatsApp.stats a') - field (Channels.WhatsApp.stats a).

(** Whether a call is a [socket.sendMessage] that went through. *)
Definition delivered (w : World call) (c : call) : bool :=
  match c with
  | SocketSendMessage _ _ => bool_decide (w c = None)
  | _ => false
  end.

(** Whether a call is a [socket.sendMessage] to another recipient than
    [jid]. *)
Definition sent_elsewhere (jid : string) (c : call) : bool :=
  match c with
  | SocketSendMessage jid' _ => negb (String.eqb jid' jid)
  | _ => false
  end.

Definition all_resolve : World call := fun _ => None.

Definition sample_text : OutgoingMessage :=
  {| recipientId := "+1 (555) 010-2030"; type := TEXT; content := "hello"; media := None |}.

Definition sample_image : OutgoingMessage :=
  {| recipientId := "15550102030@s.whatsapp.net"; type := IMAGE; content := "a picture";
     media := None |}.

End Outbound.

(** ** The error middleware *)

Module ErrorHandler.

Import Eff.

(** [interface AppError]: an [Error] with the optional fields the
    middleware reads. *)
Record AppError := {
  name : string;
  message : string;
  stack : option string;
  statusCode : option Z;
  isOperational : option bool;
  code : option string;
  context : option (list (string * string))
}.

(** The error classes of the module; [stack] is what
    [Error.captureStackTrace] records. *)
Definition custom (name : string) (statusCode : Z) (isOperational : bool) (code : string)
    (message : string) (context : option (list (string * string))) (stack : string)
  : AppError :=
  {| name := name; message := message; stack := Some stack;
     statusCode := Some statusCode; isOperational := Some isOperational;
     code := Some code; context := context |}.

Definition BadRequestError := custom "BadRequestError" 400 true "BAD_REQUEST".
Definition UnauthorizedError := custom "UnauthorizedError" 401 true "UNAUTHORIZED".
Definition ForbiddenError := custom "ForbiddenError" 403 true "FORBIDDEN".
Definition NotFoundError := custom "NotFoundError" 404 true "NOT_FOUND".
Definition ConflictError := custom "ConflictError" 409 true "CONFLICT".
Definition RateLimitError := custom "RateLimitError" 429 true "RATE_LIMIT_EXCEEDED".
Definition InternalServerError :=
  custom "InternalServerError" 500 false "INTERNAL_SERVER_ERROR".
Definition ServiceUnavailableError :=
  custom "ServiceUnavailableError" 503 true "SERVICE_UNAVAILABLE".

(** [response.error]. *)
Record ErrorBody := {
  body_code : string;
  body_message : string;
  body_timestamp : string;
  body_context : option (list (string * string));
  body_stack : option string
}.

(** [formatErrorResponse(error, includeStack)]; [timestamp] is
    [new Date().toISOString()]. *)
Definition formatErrorResponse (timestamp : string) (error : AppError) (includeStack : bool)
  : ErrorBody :=
  {| body_code := match code error with
                  | Some (String c s) => String c s
                  | _ => "UNKNOWN_ERROR"
                  end;
     body_message := message error;
     body_timestamp := timestamp;
     body_context := if includeStack then context error else None;
     body_stack := if includeStack
                   then match stack error with
                        | Some (String c s) => Some (String c s)
                        | _ => None
                        end
                   else None |}.

(** The calls of the middleware: the logger, the counter of errors and
    [res.status(statusCode).json(response)]. *)
Inductive call :=
| LoggerError (msg : string)
| LoggerWarn (msg : string)
| MetricsInc (error_type : string)
| ResStatusJson (statusCode : Z) (body : ErrorBody).

(** [process.env.NODE_ENV || 'development']. *)
Definition NODE_ENV (env : option string) : string :=
  match env with
  | Some (String c s) => String c s
  | _ => "development"
  end.

(** [errorHandler(err, req, res, next)] in a process started with
    [NODE_ENV] set to [env]. *)
Definition errorHandler (env : option string) (timestamp : string) (err : AppError)
  : M call unit unit :=
  let status := match statusCode err with
                | Some 0 | None => 500
                | Some n => n
                end in
  let operational := match isOperational err with
                     | Some b => b
                     | None => false
                     end in
  (if 500 <=? status then tell (LoggerError "Server error occurred")
   else if 400 <=? status then tell (LoggerWarn "Client error occurred")
   else mret tt);;
  tell (MetricsInc (match code err with
                    | Some (String c s) => String c s
                    | _ => name err
                    end));;
  let includeStack := negb (String.eqb (NODE_ENV env) "production") in
  let response := formatErrorResponse timestamp err includeStack in
  let response :=
    if String.eqb (NODE_ENV env) "production" && negb operational
    then {| body_code := body_code response;
            body_message := "An unexpected error occurred";
            body_timestamp := body_timestamp response;
            body_context := None;
            body_stack := None |}
    else response in
  ext (ResStatusJson status response).

(** The responses sent in a trace. *)
Fixpoint responses (t : list call) : list (Z * ErrorBody) :=
  match t with
  | [] => []
  | ResStatusJson status body :: rest => (status, body) :: responses rest
  | _ :: rest => responses rest
  end.

Definition all_resolve : World call := fun _ => None.

(** An error of a database driver, which is no [AppError] of the
    module. *)
Definition sample_driver_error : AppError :=
  {| name := "error";
     message := "password authentication failed for user nexus";
     stack := Some "error: password authentication failed for user nexus at Parser.parseErrorMessage";
     statusCode := None; isOperational := None; code := Some "28P01";
     context := None |}.

End ErrorHandler.

(** ** Reference implementations of the interfaces *)

(** Each interface of the model is inhabited here: a printer and a
    parser of JSON text over integers, a byte-wise cipher with a
    checksum for a tag, and the identity for UTF-8 on single-byte
    strings. They show that the laws can be met together, and they let
    the methods of the model be run on concrete inputs. *)

Module Reference.

Module RefJson.

Import Vault.

Local Open Scope char_scope.

Abbreviation text := (list ascii).

(** Numbers: an optional sign and decimal digits. *)
Fixpoint print_uint (d : Decimal.uint) : text :=
  match d with
  | Decimal.Nil => []
  | Decimal.D0 d => "0" :: print_uint d
  | Decimal.D1 d => "1" :: print_uint d
  | Decimal.D2 d => "2" :: print_uint d
  | Decimal.D3 d => "3" :: print_uint d
  | Decimal.D4 d => "4" :: print_uint d
  | Decimal.D5 d => "5" :: print_uint d
  | Decimal.D6 d => "6" :: print_uint d
  | Decimal.D7 d => "7" :: print_uint d
  | Decimal.D8 d => "8" :: print_uint d
  | Decimal.D9 d => "9" :: print_uint d
  end.

Definition digit (c : ascii) : option (Decimal.uint -> Decimal.uint) :=
  match c with
  | "0" => Some Decimal.D0 | "1" => Some Decimal.D1 | "2" => Some Decimal.D2
  | "3" => Some Decimal.D3 | "4" => Some Decimal.D4 | "5" => Some Decimal.D5
  | "6" => Some Decimal.D6 | "7" => Some Decimal.D7 | "8" => Some Decimal.D8
  | "9" => Some Decimal.D9
  | _ => None
  end.

Fixpoint parse_uint (s : text) : Decimal.uint * text :=
  match s with
  | c :: rest =>
      match digit c with
      | Some D => let '(d, r) := parse_uint rest in (D d, r)
      | None => (Decimal.Nil, s)
      end
  | [] => (Decimal.Nil, [])
  end.

Definition print_number (z : Z) : text :=
  match Z.to_int z with
  | Decimal.Pos d => print_uint d
  | Decimal.Neg d => "-" :: print_uint d
  end.

Definition parse_number (s : text) : option (Z * text) :=
  match s with
  | "-" :: rest =>
      match parse_uint rest with
      | (Decimal.Nil, _) => None
      | (d, r) => Some (Z.of_int (Decimal.Neg d), r)
      end
  | _ =>
      match parse_uint s with
      | (Decimal.Nil, _) => None
      | (d, r) => Some (Z.of_int (Decimal.Pos d), r)
      end
  end.

(** Strings: the quote, the backslash and the control characters are
    escaped. *)
Definition quote : ascii := Eval cbv in ascii_of_nat 34.

Definition escape (c : ascii) : text :=
  if (c =? quote)%char then ["\"; quote]
  else if (c =? "\")%char then ["\"; "\"]
  else if (N_of_ascii c <? 32)%N
       then ["\"; "u"; "0"; "0"; Hex.hex_digit (N_of_ascii c / 16); Hex.hex_digit (N_of_ascii c mod 16)]
       else [c].

Definition print_string (s : string) : text :=
  quote :: flat_map escape (list_ascii_of_string s) ++ [quote].

Fixpoint parse_chars (s : text) : option (text * text) :=
  match s with
  | [] => None
  | c :: rest =>
      if (c =? quote)%char then Some ([], rest)
      else if (c =? "\")%char then
        match rest with
        | e :: rest1 =>
            if (e =? "u")%char then
              match rest1 with
              | a :: b :: h :: l :: rest2 =>
                  if (a =? "0")%char && (b =? "0")%char then
                    match Hex.hex_value h, Hex.hex_value l with
                    | Some x, Some y =>
                        match parse_chars rest2 with
                        | Some (cs, r) => Some (ascii_of_N (16 * x + y) :: cs, r)
                        | None => None
                        end
                    | _, _ => None
                    end
                  else None
              | _ => None
              end
            else if (e =? quote)%char || (e =? "\")%char then
              match parse_chars rest1 with
              | Some (cs, r) => Some (e :: cs, r)
              | None => None
              end
            else None
        | [] => None
        end
      else if (N_of_ascii c <? 32)%N then None
      else
        match parse_chars rest with
        | Some (cs, r) => Some (c :: cs, r)
        | None => None
        end
  end.

Lemma parse_chars_escape (c : ascii) (rest : text) :
  parse_chars (escape c ++ rest) =
  match parse_chars rest with
  | Some (cs, r) => Some (c :: cs, r)
  | None => None
  end.
Proof.
  destruct c as [[] [] [] [] [] [] [] []]; reflexivity.
Qed.

Lemma parse_chars_print (cs rest : text) :
  parse_chars (flat_map escape cs ++ quote :: rest) = Some (cs, rest).
Proof.
  induction cs as [|c cs IH]; [reflexivity |].
  cbn [flat_map]. rewrite <- app_assoc, parse_chars_escape, IH. reflexivity.
Qed.


(** Values, printed without white space. *)
Fixpoint join (parts : list text) : text :=
  match parts with
  | [] => []
  | p :: rest =>
      match rest with
      | [] => p
      | _ :: _ => (p ++ "," :: join rest)%list
      end
  end.

Fixpoint print (v : json Z) : text :=
  match v with
  | JNull => ["n"; "u"; "l"; "l"]
  | JBool true => ["t"; "r"; "u"; "e"]
  | JBool false => ["f"; "a"; "l"; "s"; "e"]
  | JNumber z => print_number z
  | JString s => print_string s
  | JArray items => ("[" :: join (map print items) ++ ["]"])%list
  | JObject props =>
      ("{" :: join (map (fun kv => print_string (fst kv) ++ ":" :: print (snd kv)) props)
           ++ ["}"])%list
  end.

(** [expect p s]: [s] without its prefix [p]. *)
Fixpoint expect (p s : text) : option text :=
  match p with
  | [] => Some s
  | c :: p' =>
      match s with
      | c' :: s' => if (c =? c')%char then expect p' s' else None
      | [] => None
      end
  end.

Fixpoint parse_value (fuel : nat) (s : text) : option (json Z * text) :=
  match fuel with
  | O => None
  | S fuel =>
      match s with
      | [] => None
      | c :: r =>
          if (c =? "n")%char then
            match expect ["u"; "l"; "l"] r with
            | Some r' => Some (JNull, r')
            | None => None
            end
          else if (c =? "t")%char then
            match expect ["r"; "u"; "e"] r with
            | Some r' => Some (JBool true, r')
            | None => None
            end
          else if (c =? "f")%char then
            match expect ["a"; "l"; "s"; "e"] r with
            | Some r' => Some (JBool false, r')
            | None => None
            end
          else if (c =? quote)%char then
            match parse_chars r with
            | Some (cs, r') => Some (JString (string_of_list_ascii cs), r')
            | None => None
            end
          else if (c =? "[")%char then
            match expect ["]"] r with
            | Some r' => Some (JArray [], r')
            | None =>
                match parse_items fuel r with
                | Some (vs, r') => Some (JArray vs, r')
                | None => None
                end
            end
          else if (c =? "{")%char then
            match expect ["}"] r with
            | Some r' => Some (JObject [], r')
            | None =>
                match parse_props fuel r with
                | Some (ps, r') => Some (JObject ps, r')
                | None => None
                end
            end
          else
            match parse_number s with
            | Some (z, r') => Some (JNumber z, r')
            | None => None
            end
      end
  end
with parse_items (fuel : nat) (s : text) : option (list (json Z) * text) :=
  match fuel with
  | O => None
  | S fuel =>
      match parse_value fuel s with
      | Some (v, c :: r) =>
          if (c =? "]")%char then Some ([v], r)
          else if (c =? ",")%char then
            match parse_items fuel r with
            | Some (vs, r') => Some (v :: vs, r')
            | None => None
            end
          else None
      | _ => None
      end
  end
with parse_props (fuel : nat) (s : text) : option (list (string * json Z) * text) :=
  match fuel with
  | O => None
  | S fuel =>
      match expect [quote] s with
      | Some r =>
          match parse_chars r with
          | Some (k, r1) =>
              match expect [":"] r1 with
              | Some r2 =>
                  match parse_value fuel r2 with
                  | Some (v, c :: r3) =>
                      if (c =? "}")%char then Some ([(string_of_list_ascii k, v)], r3)
                      else if (c =? ",")%char then
                        match parse_props fuel r3 with
                        | Some (ps, r') => Some ((string_of_list_ascii k, v) :: ps, r')
                        | None => None
                        end
                      else None
                  | _ => None
                  end
              | None => None
              end
          | None => None
          end
      | None => None
      end
  end.

(** The fuel a value needs. *)
Fixpoint need (v : json Z) : nat :=
  match v with
  | JArray items => S (fold_right (fun v n => S (Nat.max (need v) n)) 0%nat items)
  | JObject props => S (fold_right (fun kv n => S (Nat.max (need (snd kv)) n)) 0%nat props)
  | _ => 1
  end.

Definition stringify (v : json Z) : string := string_of_list_ascii (print v).

Definition parse (s : string) : option (json Z) :=
  match parse_value (S (String.length s)) (list_ascii_of_string s) with
  | Some (v, []) => Some v
  | _ => None
  end.


(** What may follow a number: anything but a digit. *)
Definition follow (rest : text) : Prop :=
  match rest with
  | [] => True
  | c :: _ => digit c = None
  end.

Lemma parse_uint_print (d : Decimal.uint) (rest : text) :
  follow rest -> parse_uint (print_uint d ++ rest)%list = (d, rest).
Proof.
  intros Hf. induction d; cbn [print_uint app parse_uint digit];
    try (rewrite IHd; reflexivity).
  destruct rest as [|c r]; [reflexivity |].
  cbn [parse_uint]. cbn in Hf. now rewrite Hf.
Qed.

Lemma to_int_nonnil (z : Z) :
  Z.to_int z <> Decimal.Pos Decimal.Nil /\ Z.to_int z <> Decimal.Neg Decimal.Nil.
Proof.
  destruct z as [|p|p]; cbn; split; try discriminate;
    intros E; injection E as E; now apply Unsigned.to_uint_nonnil in E.
Qed.

Lemma parse_number_print (z : Z) (rest : text) :
  follow rest -> parse_number (print_number z ++ rest)%list = Some (z, rest).
Proof.
  intros Hf. unfold print_number.
  destruct (to_int_nonnil z) as [Hp Hn].
  destruct (Z.to_int z) as [d|d] eqn:E.
  - assert (Hz : Z.of_int (Decimal.Pos d) = z) by (rewrite <- E; apply DecimalZ.of_to).
    destruct d; [congruence | ..];
      cbn [print_uint app parse_number parse_uint digit];
      rewrite parse_uint_print by exact Hf; now rewrite Hz.
  - assert (Hz : Z.of_int (Decimal.Neg d) = z) by (rewrite <- E; apply DecimalZ.of_to).
    cbn [app parse_number].
    rewrite parse_uint_print by exact Hf.
    destruct d; [congruence | ..]; now rewrite Hz.
Qed.

(** A printed number starts with a sign or a digit, so the parser of
    values reaches its last branch. *)
Lemma parse_value_number (fuel : nat) (z : Z) (rest : text) :
  follow rest ->
  parse_value (S fuel) (print_number z ++ rest)%list = Some (JNumber z, rest).
Proof.
  intros Hf. pose proof (parse_number_print z rest Hf) as Hp.
  unfold print_number in *.
  destruct (to_int_nonnil z) as [Hpos Hneg].
  destruct (Z.to_int z) as [d|d]; [destruct d; [congruence | ..] |];
    cbn [print_uint app] in *; cbn [parse_value]; cbn [Ascii.eqb Bool.eqb quote];
    now rewrite Hp.
Qed.

Lemma expect_app (p rest : text) : expect p (p ++ rest)%list = Some rest.
Proof.
  induction p as [|c p IH]; [reflexivity |].
  cbn [expect app]. now rewrite Ascii.eqb_refl.
Qed.


Definition print_prop (kv : string * json Z) : text :=
  (print_string (fst kv) ++ ":" :: print (snd kv))%list.

Definition need_items (vs : list (json Z)) : nat :=
  fold_right (fun v n => S (Nat.max (need v) n)) 0%nat vs.

Definition need_props (ps : list (string * json Z)) : nat :=
  fold_right (fun kv n => S (Nat.max (need (snd kv)) n)) 0%nat ps.

Lemma need_pos (v : json Z) : (1 <= need v)%nat.
Proof. destruct v; cbn; lia. Qed.

Lemma join_cons (p q : text) (rest : list text) :
  join (p :: q :: rest) = (p ++ "," :: join (q :: rest))%list.
Proof. reflexivity. Qed.

(** No printed value starts with a closing bracket. *)
Lemma print_head (v : json Z) :
  exists c r, print v = c :: r /\ (c =? "]")%char = false.
Proof.
  destruct v as [|[]|z|s|items|props]; cbn; try (eexists _, _; split; reflexivity).
  unfold print_number. destruct (to_int_nonnil z) as [Hp Hn].
  destruct (Z.to_int z) as [d|d]; [destruct d; [congruence | ..] |];
    cbn; eexists _, _; split; reflexivity.
Qed.

Lemma roundtrip_fuel (fuel : nat) :
  (forall v rest, (need v <= fuel)%nat -> follow rest ->
     parse_value fuel (print v ++ rest)%list = Some (v, rest)) /\
  (forall v vs rest, (need_items (v :: vs) <= fuel)%nat ->
     parse_items fuel (join (map print (v :: vs)) ++ "]" :: rest)%list
     = Some (v :: vs, rest)) /\
  (forall kv ps rest, (need_props (kv :: ps) <= fuel)%nat ->
     parse_props fuel (join (map print_prop (kv :: ps)) ++ "}" :: rest)%list
     = Some (kv :: ps, rest)).
Proof.
  induction fuel as [|fuel (IHv & IHi & IHp)].
  - repeat split.
    + intros v rest Hn. pose proof (need_pos v). lia.
    + intros v vs rest Hn. cbn in Hn. lia.
    + intros kv ps rest Hn. cbn in Hn. lia.
  - repeat split.
    + intros v rest Hn Hf.
      destruct v as [|[]|z|s|items|props]; try reflexivity.
      * now apply parse_value_number.
      * cbn [print print_string app parse_value]. cbn [Ascii.eqb Bool.eqb quote].
        rewrite <- app_assoc. cbn [app].
        rewrite parse_chars_print. now rewrite string_of_list_ascii_of_string.
      * destruct items as [|v vs]; [reflexivity |].
        cbn [print app parse_value]. cbn [Ascii.eqb Bool.eqb quote].
        rewrite <- app_assoc. cbn [app].
        assert (He : expect ["]"] (join (map print (v :: vs)) ++ "]" :: rest)%list = None).
        { destruct (print_head v) as (c & r & Hc & Hne).
          destruct vs; cbn [map join]; rewrite Hc; cbn [app expect];
            rewrite Ascii.eqb_sym, Hne; reflexivity. }
        rewrite He. rewrite IHi; [reflexivity |]. cbn [need] in Hn.
        fold (need_items (v :: vs)) in Hn. lia.
      * destruct props as [|kv ps]; [reflexivity |].
        cbn [print app parse_value]. cbn [Ascii.eqb Bool.eqb quote].
        rewrite <- app_assoc. cbn [app].
        fold print_prop.
        assert (He : expect ["}"] (join (map print_prop (kv :: ps)) ++ "}" :: rest)%list = None).
        { destruct ps; reflexivity. }
        change (fun kv0 : string * json Z => (print_string kv0.1 ++ ":" :: print kv0.2)%list)
          with print_prop.
        rewrite He. rewrite IHp; [reflexivity |]. cbn [need] in Hn.
        fold (need_props (kv :: ps)) in Hn. lia.
    + intros v vs rest Hn. cbn [need_items fold_right] in Hn.
      fold (need_items vs) in Hn.
      destruct vs as [|v' vs].
      * cbn [map join parse_items].
        rewrite IHv; [| lia | reflexivity]. reflexivity.
      * cbn [map]. rewrite join_cons, <- app_assoc. cbn [app parse_items].
        rewrite IHv; [| lia | reflexivity].
        cbn [Ascii.eqb Bool.eqb quote].
        change (print v' :: map print vs) with (map print (v' :: vs)).
        rewrite IHi; [reflexivity | lia].
    + intros [k v] ps rest Hn. cbn [need_props fold_right snd] in Hn.
      fold (need_props ps) in Hn.
      assert (Hkey : forall tail,
                 parse_props (S fuel) (print_prop (k, v) ++ tail)%list =
                 match parse_value fuel (print v ++ tail)%list with
                 | Some (v0, c :: r3) =>
                     if (c =? "}")%char then Some ([(k, v0)], r3)
                     else if (c =? ",")%char then
                       match parse_props fuel r3 with
                       | Some (ps0, r') => Some ((k, v0) :: ps0, r')
                       | None => None
                       end
                     else None
                 | _ => None
                 end).
      { intros tail. unfold print_prop, print_string. cbn [fst snd app parse_props expect].
        cbn [Ascii.eqb Bool.eqb quote]. rewrite <- !app_assoc. cbn [app].
        rewrite parse_chars_print. cbn [expect]. cbn [Ascii.eqb Bool.eqb quote].
        now rewrite string_of_list_ascii_of_string. }
      destruct ps as [|kv' ps].
      * cbn [map join]. rewrite Hkey.
        rewrite IHv; [| lia | reflexivity]. reflexivity.
      * cbn [map]. rewrite join_cons, <- app_assoc. cbn [app].
        rewrite Hkey. rewrite IHv; [| lia | reflexivity].
        cbn [Ascii.eqb Bool.eqb quote].
        change (print_prop kv' :: map print_prop ps) with (map print_prop (kv' :: ps)).
        rewrite IHp; [reflexivity | lia].
Qed.


(** Induction on values, through the lists they nest. *)
Lemma json_induction (P : json Z -> Prop) :
  P JNull ->
  (forall b, P (JBool b)) ->
  (forall z, P (JNumber z)) ->
  (forall s, P (JString s)) ->
  (forall items, Forall P items -> P (JArray items)) ->
  (forall props, Forall (fun kv => P (snd kv)) props -> P (JObject props)) ->
  forall v, P v.
Proof.
  intros Hnull Hbool Hnum Hstr Harr Hobj.
  fix IH 1. intros [|b|z|s|items|props].
  - exact Hnull.
  - apply Hbool.
  - apply Hnum.
  - apply Hstr.
  - apply Harr. induction items as [|v vs IHvs]; constructor; [apply IH | exact IHvs].
  - apply Hobj. induction props as [|kv ps IHps]; constructor; [apply IH | exact IHps].
Qed.

Lemma need_le_length (v : json Z) : (need v <= length (print v))%nat.
Proof.
  induction v as [|b|z|s|items IH|props IH] using json_induction.
  - cbn. lia.
  - destruct b; cbn; lia.
  - cbn [need print]. unfold print_number. destruct (to_int_nonnil z) as [Hp Hn].
    destruct (Z.to_int z) as [d|d]; [destruct d; [congruence | ..] |]; cbn; lia.
  - cbn [need print]. unfold print_string. cbn [length]. lia.
  - cbn [need print]. fold (need_items items). cbn [length]. rewrite length_app. cbn [length].
    enough (need_items items <= length (join (map print items)) + 1)%nat by lia.
    induction IH as [|v vs Hv _ IHvs]; [cbn; lia |].
    cbn [need_items fold_right]. fold (need_items vs).
    destruct vs as [|v' vs'].
    + cbn. lia.
    + cbn [map]. rewrite join_cons, length_app. cbn [length].
      cbn [map] in IHvs. lia.
  - cbn [need print]. fold (need_props props). cbn [length]. rewrite length_app. cbn [length].
    change (fun kv : string * json Z => (print_string kv.1 ++ ":" :: print kv.2)%list)
      with print_prop.
    enough (need_props props <= length (join (map print_prop props)) + 1)%nat by lia.
    induction IH as [|kv ps Hkv _ IHps]; [cbn; lia |].
    cbn [need_props fold_right]. fold (need_props ps).
    assert (Hk : (need (snd kv) <= length (print_prop kv))%nat).
    { unfold print_prop. rewrite length_app. cbn [length]. cbn beta in Hkv. lia. }
    destruct ps as [|kv' ps'].
    + cbn [map join need_props fold_right]. lia.
    + cbn [map]. rewrite join_cons, length_app. cbn [length].
      cbn [map] in IHps. lia.
Qed.

Lemma length_string_of_list_ascii (l : text) :
  String.length (string_of_list_ascii l) = length l.
Proof. induction l as [|c l IH]; cbn; [reflexivity | now rewrite IH]. Qed.

Theorem parse_stringify (v : json Z) : parse (stringify v) = Some v.
Proof.
  unfold parse, stringify.
  rewrite length_string_of_list_ascii, list_ascii_of_string_of_list_ascii.
  pose proof (need_le_length v) as Hn.
  destruct (roundtrip_fuel (S (length (print v)))) as [Hv _].
  specialize (Hv v [] ltac:(lia) I). rewrite app_nil_r in Hv.
  now rewrite Hv.
Qed.

End RefJson.

(** *** A cipher with the shape of AES-256-GCM *)

Module RefCipher.

Import Hex.

Definition xor_bits (a b : bool * (bool * (bool * (bool * (bool * (bool * (bool * bool)))))))
  : bool * (bool * (bool * (bool * (bool * (bool * (bool * bool)))))) :=
  let '(a0, (a1, (a2, (a3, (a4, (a5, (a6, a7))))))) := a in
  let '(b0, (b1, (b2, (b3, (b4, (b5, (b6, b7))))))) := b in
  (xorb a0 b0, (xorb a1 b1, (xorb a2 b2, (xorb a3 b3,
  (xorb a4 b4, (xorb a5 b5, (xorb a6 b6, xorb a7 b7))))))).

Definition xor_byte (a b : byte) : byte :=
  Byte.of_bits (xor_bits (Byte.to_bits a) (Byte.to_bits b)).

(** All bytes of a buffer folded into one. *)
Definition digest (b : bytes) : byte := fold_right xor_byte "000"%byte b.

Definition mask (key iv : bytes) : byte := digest (key ++ iv)%list.

Definition mac (key iv ct : bytes) : bytes :=
  repeat (digest (key ++ iv ++ ct)%list) 16.

Fixpoint bytes_eqb (a b : bytes) : bool :=
  match a, b with
  | [], [] => true
  | x :: a', y :: b' => Byte.eqb x y && bytes_eqb a' b'
  | _, _ => false
  end.

Definition seal (key iv pt : bytes) : bytes * bytes :=
  let ct := map (xor_byte (mask key iv)) pt in
  (ct, mac key iv ct).

Definition accepts_iv (key iv : bytes) : bool :=
  (length key =? 32)%nat && negb (length iv =? 0)%nat.

Definition accepts_tag (tag : bytes) : bool := (length tag =? 16)%nat.

Definition update (key iv ct : bytes) : bytes := map (xor_byte (mask key iv)) ct.

Definition final (key iv tag ct : bytes) : option bytes :=
  if bytes_eqb tag (mac key iv ct) then Some [] else None.

(** The password and the salt, repeated up to the length asked for. *)
Definition scrypt (password salt : string) (n : nat) : bytes :=
  let material := list_byte_of_string (password ++ salt) in
  map (fun i => nth (i mod length material) material "000"%byte) (seq 0 n).

Lemma xor_byte_involutive (m a : byte) : xor_byte m (xor_byte m a) = a.
Proof.
  unfold xor_byte. rewrite Byte.to_bits_of_bits.
  rewrite <- (Byte.of_bits_to_bits a) at 2. f_equal.
  destruct (Byte.to_bits m) as (m0 & m1 & m2 & m3 & m4 & m5 & m6 & m7).
  destruct (Byte.to_bits a) as (a0 & a1 & a2 & a3 & a4 & a5 & a6 & a7).
  cbn. now rewrite <- !xorb_assoc, !xorb_nilpotent, !xorb_false_l.
Qed.

Lemma bytes_eqb_refl (a : bytes) : bytes_eqb a a = true.
Proof.
  induction a as [|x a IH]; [reflexivity |].
  cbn. now rewrite (Byte.byte_dec_lb eq_refl), IH.
Qed.

Lemma update_seal (key iv pt : bytes) : update key iv (fst (seal key iv pt)) = pt.
Proof.
  unfold update, seal. cbn [fst]. rewrite map_map.
  induction pt as [|x pt IH]; [reflexivity |].
  cbn [map]. now rewrite xor_byte_involutive, IH.
Qed.

Lemma scrypt_length (password salt : string) (n : nat) :
  length (scrypt password salt n) = n.
Proof. unfold scrypt. now rewrite length_map, length_seq. Qed.

Lemma bytes_eqb_eq (a b : bytes) : bytes_eqb a b = true -> a = b.
Proof.
  revert b. induction a as [|x a IH]; intros [|y b]; cbn; try discriminate; [reflexivity |].
  intros [Hxy Hab]%andb_prop. apply Byte.byte_dec_bl in Hxy. f_equal; auto.
Qed.

Lemma seal_update (key iv ct : bytes) :
  map (xor_byte (mask key iv)) (update key iv ct) = ct.
Proof.
  unfold update. rewrite map_map.
  induction ct as [|x ct IH]; [reflexivity |].
  cbn [map]. now rewrite xor_byte_involutive, IH.
Qed.

End RefCipher.

(** *** The runtime *)

Import Vault.

#[global, refine] Instance runtime : NodeRuntime := {|
  number := Z;
  JSON_stringify := RefJson.stringify;
  JSON_parse := RefJson.parse;
  utf8_encode := list_byte_of_string;
  utf8_decode := string_of_list_byte;
  Buffer_from_object := fun _ => None;
  scryptSync := RefCipher.scrypt;
  gcm_seal := RefCipher.seal;
  createDecipheriv_ok := RefCipher.accepts_iv;
  setAuthTag_ok := RefCipher.accepts_tag;
  decipher_update := RefCipher.update;
  decipher_final := RefCipher.final
|}.
Proof.
  - intros v _. apply RefJson.parse_stringify.
  - intros v. apply string_of_list_byte_of_string.
  - apply RefCipher.scrypt_length.
  - intros key iv pt Hkey Hiv. split; [| split].
    + unfold RefCipher.accepts_iv. now rewrite Hkey, Hiv.
    + unfold RefCipher.accepts_tag, RefCipher.seal, RefCipher.mac. cbn [snd].
      now rewrite repeat_length.
    + exists []. split.
      * unfold RefCipher.final, RefCipher.seal. cbn [fst snd].
        now rewrite RefCipher.bytes_eqb_refl.
      * rewrite app_nil_r. apply RefCipher.update_seal.
Defined.

#[global, refine] Instance gcm_authentic : GcmAuthentic := {| gcm_tag_length := _ |}.
Proof.
  - intros key iv pt. apply repeat_length.
  - intros key iv tag data fin. cbn. unfold RefCipher.final.
    destruct (RefCipher.bytes_eqb tag (RefCipher.mac key iv data)); congruence.
  - intros key iv tag data fin. cbn. unfold RefCipher.final.
    destruct (RefCipher.bytes_eqb tag (RefCipher.mac key iv data)) eqn:Htag; [| discriminate].
    intros _. apply RefCipher.bytes_eqb_eq in Htag. subst tag.
    unfold RefCipher.seal. cbn [fst snd]. rewrite RefCipher.seal_update.
    split; [reflexivity |]. now rewrite firstn_all.
Defined.

(** A Telegram configuration, sixteen bytes for the nonce, the vault of
    a process without [CHANNEL_ENCRYPTION_KEY], and the record the vault
    writes for them. *)
Definition sample_config : json Z :=
  JObject [("botToken", JString "123456:ABC-DEF");
           ("botUsername", JString "openclaw_bot");
           ("allowedUpdates", JArray [JString "message"])].

Definition sample_iv : Hex.bytes :=
  map (fun n => match Byte.of_nat n with Some b => b | None => "000"%byte end)
      (seq 16 16).

Definition sample_vault : ChannelEncryption := new_ChannelEncryption None.

Definition sample_record : string := encrypt sample_vault sample_iv sample_config.

(** The same record with two characters that are not hexadecimal
    appended to its [data] field. *)
Definition tampered_data : string :=
  Hex.toString
    (fst (gcm_seal (key sample_vault) sample_iv
            (utf8_encode (JSON_stringify sample_config)))) ++ "zz".

Definition tampered_record : string :=
  JSON_stringify
    (envelope (Hex.toString sample_iv) tampered_data
       (Hex.toString
          (snd (gcm_seal (key sample_vault) sample_iv
                  (utf8_encode (JSON_stringify sample_config)))))).

(** The same record with a tag of sixteen zero bytes, and with the
    last byte of its ciphertext changed. *)
Definition forged_tag_record : string :=
  JSON_stringify
    (envelope (Hex.toString sample_iv)
       (Hex.toString
          (fst (gcm_seal (key sample_vault) sample_iv
                  (utf8_encode (JSON_stringify sample_config)))))
       (Hex.toString (repeat "000"%byte 16))).

Definition flipped_data : Hex.bytes :=
  let ct := fst (gcm_seal (key sample_vault) sample_iv
                   (utf8_encode (JSON_stringify sample_config))) in
  (removelast ct ++ [RefCipher.xor_byte "001"%byte (List.last ct "000"%byte)])%list.

Definition flipped_record : string :=
  JSON_stringify
    (envelope (Hex.toString sample_iv) (Hex.toString flipped_data)
       (Hex.toString
          (snd (gcm_seal (key sample_vault) sample_iv
                  (utf8_encode (JSON_stringify sample_config)))))).

(** A call of the repository on an empty table. *)
Definition sample_env : QueryEnv :=
  {| randomBytes16 := sample_iv;
     NOW := 1700000000000;
     column_defaults :=
       <["channel_id" := VText "7f3c"]> (<["message_count" := VInt 0]> ∅);
     query_error := None |}.

Definition sample_create : operation :=
  Create "user-1" "org-1" "telegram" "openclaw_bot" None sample_config None None.

(** The repository of a process without [CHANNEL_ENCRYPTION_KEY], a
    call for a second organization, the table after both calls, and a row
    whose configuration was not written by the vault. *)
Definition sample_repository : ChannelRepository := new_ChannelRepository None.

Definition other_env : QueryEnv :=
  {| randomBytes16 := sample_iv;
     NOW := 1700000001000;
     column_defaults :=
       <["channel_id" := VText "a1b2"]>
         (<["message_count" := VInt 0]> (<["created_at" := VInt 1700000001000]> ∅));
     query_error := None |}.

Definition other_create : operation :=
  Create "user-2" "org-2" "discord" "guild-9" None (JObject [("botToken", JString "xyz")])
    None None.

Definition sample_table : list Row :=
  table_after sample_repository other_env other_create
    (table_after sample_repository sample_env sample_create []).

(** Four channels of one organization, inserted in an order that is not
    the order of their stamps; the table gave the last no stamp. *)
Definition stamped_env (id : string) (stamp : SqlValue) : QueryEnv :=
  {| randomBytes16 := sample_iv;
     NOW := 1700000009000;
     column_defaults :=
       <["channel_id" := VText id]>
         (<["message_count" := VInt 0]> (<["created_at" := stamp]> ∅));
     query_error := None |}.

Definition stamped_create (identifier : string) : operation :=
  Create "user-3" "org-3" "telegram" identifier None sample_config None None.

Definition stamped_table : list Row :=
  table_after sample_repository (stamped_env "c4" VNull) (stamped_create "bot-4")
    (table_after sample_repository (stamped_env "c3" (VInt 1700000003000))
       (stamped_create "bot-3")
       (table_after sample_repository (stamped_env "c1" (VInt 1700000001000))
          (stamped_create "bot-1")
          (table_after sample_repository (stamped_env "c2" (VInt 1700000002000))
             (stamped_create "bot-2") []))).

Definition corrupt_row : Row :=
  <["channel_id" := VText "dead"]>
    (<["organization_id" := VText "org-1"]>
       (<["active" := VBool true]> (<["channel_config" := VText "{}"]> ∅))).

(** A call that gives the channel of that row the sample configuration. *)
Definition sample_update : operation :=
  UpdateConfig "dead" "org-1" sample_config.

(** A token cached for one user, a second token with the same last
    sixteen characters, and an auth service that is not reachable. *)
Definition sample_suffix : string := "SflKxwRJSMeKKF2Q".
Definition sample_token : string :=
  "eyJhbGciOiJIUzI1NiJ9.eyJzdWIiOiJhbGljZSJ9." ++ sample_suffix.
Definition other_token : string := "not-a-jwt." ++ sample_suffix.

Definition sample_user : Auth.AuthenticatedUser :=
  {| Auth.userId := "alice"; Auth.organizationId := "org-1";
     Auth.email := "alice@example.org"; Auth.name := None;
     Auth.tier := Auth.teams; Auth.permissions := ["*"];
     Auth.exp := 1700000600; Auth.iat := 1700000000 |}.

Definition sample_remote : Auth.Remote :=
  {| Auth.Date_now := 1700000000000;
     Auth.jwt_decode := fun _ => None;
     Auth.post_validate := fun _ => Auth.AxiosError None "connect ECONNREFUSED" |}.

Definition sample_client : Auth.NexusAuthClient :=
  Auth.new_with_redis "http://nexus-auth:9100" "".

Definition redis_up : Eff.World Auth.call := fun _ => None.

(** A world in which Redis answers and the auth service does not, and
    two API keys with the same last sixteen characters. *)
Definition auth_down : Eff.World Auth.call :=
  fun c => match c with
           | Auth.HttpPost _ => Some "connect ECONNREFUSED"
           | _ => None
           end.

Definition sample_api_key : string := "sk_live_4eC39HqLyjWD" ++ sample_suffix.
Definition other_api_key : string := "guess-" ++ sample_suffix.

Definition no_api_key_service : string -> Auth.HttpOutcome :=
  fun _ => Auth.AxiosError None "connect ECONNREFUSED".

(** An auth service that vouches for every token as the sample user, and
    a handshake that carries the sample token in its header. *)
Definition accepting_remote : Auth.Remote :=
  {| Auth.Date_now := 1700000000000;
     Auth.jwt_decode :=
       fun _ => Some {| Auth.claim_exp := Some 1700000600;
                        Auth.claim_iat := Some 1700000000 |};
     Auth.post_validate :=
       fun _ => Auth.Response
                  {| Auth.valid := true;
                     Auth.user := Some {| Auth.id := "alice";
                                          Auth.organization_id := "org-1";
                                          Auth.remote_email := "alice@example.org";
                                          Auth.remote_name := None;
                                          Auth.remote_tier := Some "teams";
                                          Auth.remote_permissions := Some ["*"] |};
                     Auth.error := None |} |}.

Definition sample_handshake : Realtime.Handshake :=
  {| Realtime.auth_token := None;
     Realtime.authorization := Some ("Bearer " ++ sample_token) |}.

(** *** The cached user as JSON text *)

Module RefUser.

Import Auth.

Definition tier_text (t : Tier) : string :=
  match t with
  | open_source => "open_source"
  | teams => "teams"
  | government => "government"
  end.

Definition to_json (u : AuthenticatedUser) : json Z :=
  JObject
    ([("userId", JString (userId u));
      ("organizationId", JString (organizationId u));
      ("email", JString (email u))]
     ++ match name u with Some n => [("name", JString n)] | None => [] end
     ++ [("tier", JString (tier_text (tier u)));
         ("permissions", JArray (map JString (permissions u)));
         ("exp", JNumber (exp u));
         ("iat", JNumber (iat u))])%list.

Definition as_string (v : option (json Z)) : option string :=
  match v with Some (JString s) => Some s | _ => None end.

Definition as_number (v : option (json Z)) : option Z :=
  match v with Some (JNumber z) => Some z | _ => None end.

Fixpoint as_strings (items : list (json Z)) : option (list string) :=
  match items with
  | [] => Some []
  | JString s :: rest =>
      match as_strings rest with
      | Some l => Some (s :: l)
      | None => None
      end
  | _ => None
  end.

Definition as_tier (s : string) : option Tier :=
  if String.eqb s "open_source" then Some open_source
  else if String.eqb s "teams" then Some teams
  else if String.eqb s "government" then Some government
  else None.

Definition of_json (v : json Z) : option AuthenticatedUser :=
  match as_string (property v "userId"),
        as_string (property v "organizationId"),
        as_string (property v "email"),
        as_string (property v "tier"),
        property v "permissions",
        as_number (property v "exp"),
        as_number (property v "iat") with
  | Some uid, Some org, Some mail, Some t, Some (JArray perms), Some e, Some i =>
      match as_tier t, as_strings perms with
      | Some t', Some ps =>
          Some {| userId := uid; organizationId := org; email := mail;
                  name := as_string (property v "name");
                  tier := t'; permissions := ps; exp := e; iat := i |}
      | _, _ => None
      end
  | _, _, _, _, _, _, _ => None
  end.

Definition stringify (u : AuthenticatedUser) : string := RefJson.stringify (to_json u).

Definition parse (s : string) : option AuthenticatedUser :=
  match RefJson.parse s with
  | Some v => of_json v
  | None => None
  end.

Lemma as_strings_map (l : list string) : as_strings (map JString l) = Some l.
Proof. induction l as [|s l IH]; [reflexivity |]. cbn. now rewrite IH. Qed.

Lemma of_to_json (u : AuthenticatedUser) : of_json (to_json u) = Some u.
Proof.
  destruct u as [uid org mail [n|] t ps e i]; unfold of_json, to_json;
    cbn -[as_strings]; rewrite as_strings_map; destruct t; reflexivity.
Qed.

Lemma user_parse_stringify (u : AuthenticatedUser) : parse (stringify u) = Some u.
Proof.
  unfold parse, stringify. rewrite RefJson.parse_stringify. apply of_to_json.
Qed.

Lemma stringify_nonempty (u : AuthenticatedUser) : stringify u <> EmptyString.
Proof. unfold stringify, RefJson.stringify, to_json. cbn. discriminate. Qed.

End RefUser.

#[global] Instance user_json : Auth.UserJson := {|
  Auth.JSON_stringify_user := RefUser.stringify;
  Auth.JSON_parse_user := RefUser.parse;
  Auth.JSON_parse_stringify_user := RefUser.user_parse_stringify;
  Auth.JSON_stringify_user_nonempty := RefUser.stringify_nonempty
|}.

End Reference.

(** * Properties *)

(** ** WhatsApp recipient identifiers *)

(** C10. [normalizeJid]: an identifier without ['@'] becomes its digits,
    in order, followed by ["@s.whatsapp.net"]; an identifier that
    contains ['@'] is returned unchanged. *)
Theorem normalizeJid_spec (identifier : string) :
  (~ In "@"%char (list_ascii_of_string identifier) ->
   Channels.WhatsApp.normalizeJid identifier =
   string_of_list_ascii (List.filter JS.is_digit (list_ascii_of_string identifier))
   ++ "@s.whatsapp.net")
  /\
  (In "@"%char (list_ascii_of_string identifier) ->
   Channels.WhatsApp.normalizeJid identifier = identifier).
Proof.
  unfold Channels.WhatsApp.normalizeJid.
  pose proof (JS.includes_char_In "@" identifier) as Hin.
  destruct (JS.includes identifier "@") eqn:E; cbn [negb]; split; intros H.
  - exfalso. apply H, Hin. reflexivity.
  - reflexivity.
  - now rewrite JS.replace_non_digits_filter.
  - apply Hin in H. discriminate.
Qed.

Lemma normalizeJid_spec_witness :
  Channels.WhatsApp.normalizeJid "+1 (555) 010-9999" = "15550109999@s.whatsapp.net"
  /\ Channels.WhatsApp.normalizeJid "120363041234567890@g.us" = "120363041234567890@g.us".
Proof.
  split.
  - destruct (normalizeJid_spec "+1 (555) 010-9999") as [H _].
    rewrite H; [reflexivity |].
    cbn. intuition discriminate.
  - destruct (normalizeJid_spec "120363041234567890@g.us") as [_ H].
    apply H. cbn. tauto.
Defined.

(** ** Gateway shutdown *)

Section Shutdown.

Import Eff Gateway.

(** C7, as amended. [shutdown] makes its calls in the order emit, close,
    quit of the publisher, quit of the subscriber, each only if its
    handle is set; nothing else guards them: the first call that throws
    (or, for the two awaited [quit()], rejects) ends [shutdown] with its
    error and the later steps are not made. The gateway itself is left
    as it was. *)
Theorem shutdown_runs_until_first_failure (g : OpenClawGateway) (w : World call) :
  shutdown w g =
  match until_failure w (shutdown_steps g) with
  | (t, None) => (Ok tt, g, (t ++ [LoggerInfo "WebSocket gateway shut down"])%list)
  | (t, Some msg) => (Throw (Error msg), g, t)
  end.
Proof.
  unfold shutdown, shutdown_steps.
  destruct g as [[i|] [p|] [s|] n]; cbn; eff_unfold; cbn;
    world_cases w; reflexivity.
Qed.

(** The claim as stated fails: when [pubClient.quit()] rejects, the
    subscriber is never asked to quit and [shutdown] rejects. *)
Lemma shutdown_failure_skips_later_steps :
  result_of (shutdown pub_quit_rejects initialized) = Throw (Error "Connection is closed.")
  /\ In PubClientQuit (trace_of (shutdown pub_quit_rejects initialized))
  /\ ~ In SubClientQuit (trace_of (shutdown pub_quit_rejects initialized)).
Proof.
  vm_compute. split; [reflexivity |]. split; [tauto |]. intuition discriminate.
Qed.

End Shutdown.

(** ** The credential vault *)

Section VaultProperties.

Import Vault.

Context `{RT : NodeRuntime}.

Lemma wf_envelope (iv data authTag : string) :
  wf_json (envelope iv data authTag) = true.
Proof. reflexivity. Qed.

Lemma key_length (env_key : option string) :
  length (key (new_ChannelEncryption env_key)) = 32%nat.
Proof. apply scryptSync_length. Qed.

(** [decrypt] on an envelope whose three fields are strings. *)
Lemma decrypt_envelope (this : ChannelEncryption) (iv data authTag : string) :
  decrypt this (JSON_stringify (envelope iv data authTag)) =
  if negb (createDecipheriv_ok (key this) (Hex.from iv))
  then Throw (TypeError "Invalid initialization vector")
  else if negb (setAuthTag_ok (Hex.from authTag))
  then Throw (TypeError "Invalid authentication tag length")
  else
    match decipher_final (key this) (Hex.from iv) (Hex.from authTag) (Hex.from data) with
    | None => Throw (Error "Unsupported state or unable to authenticate data")
    | Some tail =>
        match JSON_parse (utf8_decode
                (decipher_update (key this) (Hex.from iv) (Hex.from data) ++ tail)%list) with
        | None => Throw SyntaxError
        | Some v => Ok v
        end
    end.
Proof.
  unfold decrypt. rewrite JSON_parse_stringify by apply wf_envelope.
  cbn [envelope property assoc String.eqb Ascii.eqb Bool.eqb Buffer_from result_bind].
  destruct (negb (createDecipheriv_ok (key this) (Hex.from iv))); [reflexivity |].
  destruct (negb (setAuthTag_ok (Hex.from authTag))); reflexivity.
Qed.

(** C1. For every configuration object [x] that is a JavaScript value
    and every sixteen random bytes [iv], decrypting what [encrypt]
    returned for [x], with the key derived by the same constructor,
    gives [x] back. *)
Theorem decrypt_encrypt (env_key : option string) (iv : Hex.bytes) (x : json number) :
  wf_json x = true ->
  length iv = 16%nat ->
  decrypt (new_ChannelEncryption env_key)
          (encrypt (new_ChannelEncryption env_key) iv x) = Ok x.
Proof.
  intros Hwf Hiv. set (this := new_ChannelEncryption env_key).
  unfold encrypt. rewrite decrypt_envelope, !Hex.from_toString.
  destruct (gcm_open_seal (key this) iv (utf8_encode (JSON_stringify x))
              (key_length env_key) Hiv) as (Hc & Ht & tail & Hfin & Hpt).
  rewrite Hc, Ht. cbn [negb]. rewrite Hfin, Hpt, utf8_decode_encode.
  now rewrite JSON_parse_stringify.
Qed.

(** What [decrypt] has done when it returns: every step of it went
    through. *)
Lemma decrypt_inversion
    (this : ChannelEncryption) (encrypted : string) (v : json number) :
  decrypt this encrypted = Ok v ->
  exists parsed ivb tagb datab tail,
    JSON_parse encrypted = Some parsed /\
    Buffer_from (property parsed "iv") = Ok ivb /\
    Buffer_from (property parsed "authTag") = Ok tagb /\
    Buffer_from (property parsed "data") = Ok datab /\
    createDecipheriv_ok (key this) ivb = true /\
    setAuthTag_ok tagb = true /\
    decipher_final (key this) ivb tagb datab = Some tail /\
    JSON_parse (utf8_decode (decipher_update (key this) ivb datab ++ tail)%list) = Some v.
Proof.
  unfold decrypt. intros Hd.
  destruct (JSON_parse encrypted) as [parsed|] eqn:Hparse; [| discriminate].
  assert (Hbody :
    (do ivb <- Buffer_from (property parsed "iv");
     if negb (createDecipheriv_ok (key this) ivb)
     then Throw (TypeError "Invalid initialization vector")
     else
       do tagb <- Buffer_from (property parsed "authTag");
       if negb (setAuthTag_ok tagb)
       then Throw (TypeError "Invalid authentication tag length")
       else
         do datab <- Buffer_from (property parsed "data");
         match decipher_final (key this) ivb tagb datab with
         | None => Throw (Error "Unsupported state or unable to authenticate data")
         | Some tail =>
             match JSON_parse (utf8_decode
                     (decipher_update (key this) ivb datab ++ tail)%list) with
             | None => Throw SyntaxError
             | Some v => Ok v
             end
         end) = Ok v).
  { destruct parsed; try exact Hd. discriminate. }
  clear Hd. unfold result_bind in Hbody.
  destruct (Buffer_from (property parsed "iv")) as [ivb|] eqn:Hiv; [| discriminate].
  destruct (createDecipheriv_ok (key this) ivb) eqn:Hc; [| discriminate].
  cbn [negb] in Hbody.
  destruct (Buffer_from (property parsed "authTag")) as [tagb|] eqn:Htag; [| discriminate].
  destruct (setAuthTag_ok tagb) eqn:Ht; [| discriminate].
  cbn [negb] in Hbody.
  destruct (Buffer_from (property parsed "data")) as [datab|] eqn:Hdata; [| discriminate].
  destruct (decipher_final (key this) ivb tagb datab) as [tail|] eqn:Hfin; [| discriminate].
  destruct (JSON_parse (utf8_decode (decipher_update (key this) ivb datab ++ tail)%list))
    as [v'|] eqn:Hv; [| discriminate].
  injection Hbody as ->.
  exists parsed, ivb, tagb, datab, tail. repeat split; assumption.
Qed.

Context {GA : GcmAuthentic}.

(** A value that [decrypt] returns is authenticated: [decipher.final()]
    accepted the tag for the decoded ciphertext and had nothing left to
    add, and the value is the parse of the whole plaintext; the
    ciphertext is what the cipher produces for that plaintext under the
    key and the decoded IV, and the tag is the tag of that sealing, or
    its first bytes. *)
Lemma decrypt_authentic (this : ChannelEncryption) (encrypted : string) (v : json number) :
  decrypt this encrypted = Ok v ->
  exists parsed ivb tagb datab,
    JSON_parse encrypted = Some parsed /\
    Buffer_from (property parsed "iv") = Ok ivb /\
    Buffer_from (property parsed "authTag") = Ok tagb /\
    Buffer_from (property parsed "data") = Ok datab /\
    createDecipheriv_ok (key this) ivb = true /\
    setAuthTag_ok tagb = true /\
    decipher_final (key this) ivb tagb datab = Some [] /\
    fst (gcm_seal (key this) ivb (decipher_update (key this) ivb datab)) = datab /\
    tagb = firstn (length tagb)
             (snd (gcm_seal (key this) ivb (decipher_update (key this) ivb datab))) /\
    JSON_parse (utf8_decode (decipher_update (key this) ivb datab)) = Some v.
Proof.
  intros Hd.
  destruct (decrypt_inversion this encrypted v Hd)
    as (parsed & ivb & tagb & datab & tail & Hp & Hiv & Htag & Hdata & Hc & Ht & Hfin & Hv).
  pose proof (decipher_final_empty _ _ _ _ _ Hfin) as Htail. subst tail.
  rewrite app_nil_r in Hv.
  destruct (decipher_final_authentic _ _ _ _ _ Hfin) as [Hct Hprefix].
  exists parsed, ivb, tagb, datab. repeat split; assumption.
Qed.

(** The ciphertext of a sealing gives the plaintext back. *)
Lemma update_of_sealed (env_key : option string) (iv pt : Hex.bytes) :
  length iv = 16%nat ->
  decipher_update (key (new_ChannelEncryption env_key)) iv
    (fst (gcm_seal (key (new_ChannelEncryption env_key)) iv pt)) = pt.
Proof.
  intros Hiv.
  destruct (gcm_open_seal (key (new_ChannelEncryption env_key)) iv pt
              (key_length env_key) Hiv) as (_ & _ & fin & Hfin & Hpt).
  pose proof (decipher_final_empty _ _ _ _ _ Hfin) as Hnil. subst fin.
  now rewrite app_nil_r in Hpt.
Qed.


End VaultProperties.

Lemma decrypt_encrypt_witness :
  Vault.wf_json Reference.sample_config = true
  /\ length Reference.sample_iv = 16%nat
  /\ Vault.decrypt Reference.sample_vault Reference.sample_record
     = Ok Reference.sample_config.
Proof.
  split; [reflexivity |]. split; [reflexivity |].
  apply (decrypt_encrypt (RT := Reference.runtime)
           None Reference.sample_iv Reference.sample_config);
    reflexivity.
Defined.



(** ** The token cache *)

Section AuthProperties.

Import Eff Auth.

Context `{UJ : UserJson}.

Variable remote : Remote.

(** Tokens that end in the same sixteen code units have one cache key. *)
Lemma getCacheKey_suffix (prefix suffix : string) :
  String.length suffix = 16%nat ->
  getCacheKey (prefix ++ suffix) = "auth:token:" ++ suffix.
Proof.
  intros Hlen. unfold getCacheKey.
  change (-16) with (- Z.of_nat 16). rewrite <- Hlen.
  rewrite JS.slice_suffix by lia. reflexivity.
Qed.

(** A time to live of at least one second means that the expiry of the
    user is not behind the clock. *)
Lemma time_to_live_not_expired (this : NexusAuthClient) (u : AuthenticatedUser) :
  0 < time_to_live remote this u -> expired remote (exp u) = false.
Proof.
  unfold time_to_live, expired. intros Httl.
  destruct (exp u =? 0) eqn:E; [reflexivity |]. cbn [negb andb].
  apply Z.ltb_ge.
  pose proof (Z.div_mod (- Date_now remote) 1000 ltac:(lia)) as Hdm.
  pose proof (Z.mod_pos_bound (- Date_now remote) 1000 ltac:(lia)) as Hb.
  lia.
Qed.

(** What [cacheToken] leaves in Redis when every command succeeds. *)
Lemma cacheToken_stores (this : NexusAuthClient) (w : World call)
    (token : string) (u : AuthenticatedUser) (cache : Cache) :
  redis this <> None ->
  (forall c, w c = None) ->
  0 < time_to_live remote this u ->
  state_of (cacheToken remote this token u w cache) =
  <[getCacheKey token :=
      (JSON_stringify_user u, Date_now remote + 1000 * time_to_live remote this u)]> cache.
Proof.
  intros Hredis Hw Httl. unfold cacheToken.
  destruct (redis this); [| congruence].
  unfold redis_setex. eff_unfold. rewrite Hw.
  destruct (time_to_live remote this u <=? 0) eqn:E; [apply Z.leb_le in E; lia |].
  reflexivity.
Qed.

(** A cache hit: the user is returned after a single GET, and the auth
    service is not called. *)
Lemma validateToken_hit (this : NexusAuthClient) (w : World call)
    (token : string) (u : AuthenticatedUser) (expires : Z) (cache : Cache) :
  redis this <> None ->
  (forall c, w c = None) ->
  cache !! getCacheKey token = Some (JSON_stringify_user u, expires) ->
  Date_now remote < expires ->
  expired remote (exp u) = false ->
  validateToken remote this token w cache
  = (Ok u, cache, [RedisGet (getCacheKey token)]).
Proof.
  intros Hredis Hw Hlookup Hfresh Hexp. unfold validateToken, getCachedToken.
  destruct (redis this); [| congruence].
  unfold redis_get. eff_unfold. rewrite Hw, Hlookup.
  apply Z.ltb_lt in Hfresh. rewrite Hfresh.
  pose proof (JSON_stringify_user_nonempty u) as Hne.
  pose proof (JSON_parse_stringify_user u) as Hparse.
  destruct (JSON_stringify_user u) as [|c s]; [congruence |].
  rewrite Hparse, Hexp. reflexivity.
Qed.

(** C9. The cache key of a token is made of its last sixteen characters
    only: two tokens with the same last sixteen characters have the same
    key, and once the user validated for the first token has been
    cached, [validateToken] on the second token returns that user after
    one Redis GET, without a request to the auth service. *)
Theorem validateToken_suffix_collision
    (this : NexusAuthClient) (w : World call)
    (prefix1 prefix2 suffix : string) (u : AuthenticatedUser) (cache : Cache) :
  String.length suffix = 16%nat ->
  redis this <> None ->
  (forall c, w c = None) ->
  0 < time_to_live remote this u ->
  let token1 := prefix1 ++ suffix in
  let token2 := prefix2 ++ suffix in
  let cached := state_of (cacheToken remote this token1 u w cache) in
  getCacheKey token1 = getCacheKey token2
  /\ validateToken remote this token2 w cached
     = (Ok u, cached, [RedisGet (getCacheKey token2)])
  /\ ~ In (HttpPost "/v1/auth/validate")
          (trace_of (validateToken remote this token2 w cached)).
Proof.
  intros Hlen Hredis Hw Httl token1 token2 cached.
  assert (Hkey : getCacheKey token1 = getCacheKey token2).
  { unfold token1, token2. now rewrite !getCacheKey_suffix. }
  assert (Hhit : validateToken remote this token2 w cached
                 = (Ok u, cached, [RedisGet (getCacheKey token2)])).
  { apply validateToken_hit
      with (expires := Date_now remote + 1000 * time_to_live remote this u);
      try assumption.
    - unfold cached. rewrite cacheToken_stores by assumption.
      rewrite <- Hkey. apply lookup_insert_eq.
    - lia.
    - now apply time_to_live_not_expired with (this := this). }
  split; [exact Hkey |]. split; [exact Hhit |].
  rewrite Hhit. cbn. intuition discriminate.
Qed.

End AuthProperties.

Lemma validateToken_suffix_collision_witness :
  let cached :=
    Eff.state_of (Auth.cacheToken Reference.sample_remote Reference.sample_client
                    Reference.sample_token Reference.sample_user Reference.redis_up ∅) in
  Reference.sample_token <> Reference.other_token
  /\ Auth.getCacheKey Reference.sample_token = Auth.getCacheKey Reference.other_token
  /\ Auth.validateToken Reference.sample_remote Reference.sample_client
       Reference.other_token Reference.redis_up cached
     = (Ok Reference.sample_user, cached,
        [Auth.RedisGet (Auth.getCacheKey Reference.other_token)]).
Proof.
  intros cached. split; [discriminate |].
  destruct (validateToken_suffix_collision (UJ := Reference.user_json)
              Reference.sample_remote Reference.sample_client Reference.redis_up
              "eyJhbGciOiJIUzI1NiJ9.eyJzdWIiOiJhbGljZSJ9." "not-a-jwt."
              Reference.sample_suffix Reference.sample_user ∅)
    as (Hkey & Hhit & _).
  - reflexivity.
  - discriminate.
  - reflexivity.
  - reflexivity.
  - split; [exact Hkey | exact Hhit].
Defined.

(** ** The channel repository *)

Section RepositoryProperties.

Import Vault.

Context `{RT : NodeRuntime}.

(** A SET clause that does not name a column leaves it as it was. *)
Lemma set_columns_other (column : string) (assignments : list (string * SqlValue)) (row : Row) :
  ~ In column (map fst assignments) ->
  set_columns assignments row !! column = row !! column.
Proof.
  revert row. induction assignments as [|[c v] rest IH]; intros row Hin; [reflexivity |].
  cbn [set_columns]. rewrite IH.
  - apply lookup_insert_ne. intros ->. apply Hin. now left.
  - intros Hc. apply Hin. now right.
Qed.

Lemma update_where_preserves (this : ChannelRepository)
    (cond : Row -> bool) (f : Row -> Row) (db : list Row) :
  (forall row, encrypted_config this row -> encrypted_config this (f row)) ->
  stored_encrypted this db -> stored_encrypted this (update_where cond f db).
Proof.
  intros Hf Hdb. unfold stored_encrypted, update_where.
  induction Hdb as [|row rest Hrow _ IH]; cbn [map]; constructor; [| exact IH].
  destruct (cond row); [now apply Hf | exact Hrow].
Qed.

Lemma set_columns_preserves (this : ChannelRepository)
    (assignments : list (string * SqlValue)) (row : Row) :
  ~ In "channel_config" (map fst assignments) ->
  encrypted_config this row -> encrypted_config this (set_columns assignments row).
Proof.
  intros Hin (iv & cfg & Hrow). exists iv, cfg.
  now rewrite set_columns_other.
Qed.

Lemma filter_preserves (this : ChannelRepository) (cond : Row -> bool) (db : list Row) :
  stored_encrypted this db -> stored_encrypted this (List.filter cond db).
Proof.
  intros Hdb. unfold stored_encrypted in *. rewrite List.Forall_forall in *.
  intros row Hin. apply filter_In in Hin. now apply Hdb.
Qed.

(** The row [create] inserts holds the encrypted configuration. *)
Lemma create_row_config (env : QueryEnv) (values_before values_after : list (string * SqlValue))
    (v : SqlValue) :
  ~ In "channel_config" (map fst values_after) ->
  set_columns (values_before ++ ("channel_config", v) :: values_after)%list
    (column_defaults env) !! "channel_config" = Some v.
Proof.
  intros Hin. generalize (column_defaults env) as row.
  induction values_before as [|[c x] rest IH]; intros row.
  - cbn [app set_columns]. rewrite set_columns_other by exact Hin.
    apply lookup_insert_eq.
  - cbn [app set_columns]. apply IH.
Qed.

(** Without its [channel_config], a row that was assigned columns is
    the row without it, assigned the other columns. *)
Lemma delete_set_columns (k : string) (assignments : list (string * SqlValue)) (row : Row) :
  base.delete k (set_columns assignments row)
  = set_columns (List.filter (fun kv => negb (String.eqb (fst kv) k)) assignments)
      (base.delete k row).
Proof.
  revert row. induction assignments as [|[c v] rest IH]; intros row; [reflexivity |].
  cbn [set_columns List.filter fst]. rewrite IH.
  destruct (String.eqb_spec c k) as [-> | Hne]; cbn [negb set_columns].
  - now rewrite delete_insert_eq.
  - now rewrite delete_insert_ne by congruence.
Qed.

Lemma In_update_where_config (cond : Row -> bool) (f : Row -> Row) (db : list Row) (row' : Row) :
  In row' (update_where cond f db) ->
  (exists row, In row db /\ row' = row) \/ (exists row, In row db /\ row' = f row).
Proof.
  unfold update_where. intros (row & Heq & Hin)%in_map_iff.
  destruct (cond row); [right | left]; exists row; auto.
Qed.

(** C8. What the repository stores of a configuration.
    - The row [create] inserts holds, in [channel_config], the text
      [encrypt] returns for the configuration: the JSON text of the
      hexadecimal IV, ciphertext and tag that AES-256-GCM produces for
      the JSON text of the configuration.
    - [updateConfig] writes that text, and the time, into every row
      with the id and the organization given, and leaves the other rows
      alone.
    - Outside [channel_config] the table after a call does not depend
      on the configuration passed: the plaintext reaches no other
      column.
    - Whatever is called, [channel_config] of a row afterwards is that
      of a row before or the text just described; hence a table whose
      configurations were written by the vault stays such a table. *)
Theorem repository_stores_only_encrypted_config
    (this : ChannelRepository) (env : QueryEnv) (op : operation) (db : list Row) :
  let sealed cfg :=
    gcm_seal (key (encryption this)) (randomBytes16 env)
      (utf8_encode (JSON_stringify cfg)) in
  let record cfg :=
    JSON_stringify
      (envelope (Hex.toString (randomBytes16 env)) (Hex.toString (fst (sealed cfg)))
         (Hex.toString (snd (sealed cfg)))) in
  (forall cfg, encrypt (encryption this) (randomBytes16 env) cfg = record cfg)
  /\ (forall u o t i n cfg wu ws,
        op = Create u o t i n cfg wu ws -> query_error env = None ->
        exists row,
          table_after this env op db = (db ++ [row])%list /\
          row !! "channel_config" = Some (VText (record cfg)))
  /\ (forall c o cfg,
        op = UpdateConfig c o cfg -> query_error env = None ->
        table_after this env op db
        = map (fun row =>
                 if col_is "channel_id" (VText c) row
                    && col_is "organization_id" (VText o) row
                 then <["updated_at" := VInt (NOW env)]>
                        (<["channel_config" := VText (record cfg)]> row)
                 else row) db)
  /\ (forall cfg',
        map (base.delete "channel_config") (table_after this env (with_config cfg' op) db)
        = map (base.delete "channel_config") (table_after this env op db))
  /\ (forall row',
        In row' (table_after this env op db) ->
        (exists row, In row db /\ row' !! "channel_config" = row !! "channel_config")
        \/ (exists cfg, operation_config op = Some cfg
                        /\ row' !! "channel_config" = Some (VText (record cfg))))
  /\ (stored_encrypted this db -> stored_encrypted this (table_after this env op db)).
Proof.
  intros sealed record.
  assert (Hrecord : forall cfg,
    encrypt (encryption this) (randomBytes16 env) cfg = record cfg) by reflexivity.
  assert (Hcreate : forall u o t i n cfg wu ws,
    set_columns
      [ ("user_id", VText u); ("organization_id", VText o); ("channel_type", VText t);
        ("channel_identifier", VText i); ("channel_name", opt_text n);
        ("channel_config", VText (encrypt (encryption this) (randomBytes16 env) cfg));
        ("webhook_url", opt_text wu); ("webhook_secret", opt_text ws);
        ("active", VBool true); ("verified", VBool false);
        ("connection_status", VStatus DISCONNECTED) ] (column_defaults env)
    !! "channel_config"
    = Some (VText (record cfg))).
  { intros. apply (create_row_config env
      [ ("user_id", VText u); ("organization_id", VText o); ("channel_type", VText t);
        ("channel_identifier", VText i); ("channel_name", opt_text n) ]).
    cbn. intuition discriminate. }
  assert (Hwritten : forall row',
    In row' (table_after this env op db) ->
    (exists row, In row db /\ row' !! "channel_config" = row !! "channel_config")
    \/ (exists cfg, operation_config op = Some cfg
                    /\ row' !! "channel_config" = Some (VText (record cfg)))).
  { intros row' Hin.
    destruct op as [u o t i n cfg wu ws | c o | o t i | o t | c o cfg
                    | c o st e | c o | c o | c o | c o];
      cbn [table_after] in Hin;
      unfold create, findById, findByTypeAndIdentifier, listByOrganization, updateConfig,
        updateStatus, incrementMessageCount, markVerified, deactivate, delete in Hin;
      destruct (query_error env); cbn [snd] in Hin; try (left; exists row'; now split).
    - apply in_app_or in Hin. destruct Hin as [Hin | [<- | []]];
        [left; exists row'; now split |].
      right. exists cfg. split; [reflexivity | apply Hcreate].
    - assert (Hin' : In row'
        (update_where
           (fun row => col_is "channel_id" (VText c) row
                       && col_is "organization_id" (VText o) row)
           (set_columns [("channel_config",
                          VText (encrypt (encryption this) (randomBytes16 env) cfg));
                         ("updated_at", VInt (NOW env))]) db)).
      { destruct (returning _ _ db); exact Hin. }
      apply In_update_where_config in Hin'.
      destruct Hin' as [(row & Hrow & ->) | (row & Hrow & ->)];
        [left; exists row; now split |].
      right. exists cfg. split; [reflexivity |]. cbn [set_columns].
      rewrite lookup_insert_ne by discriminate. apply lookup_insert_eq.
    - apply In_update_where_config in Hin.
      destruct Hin as [(row & Hrow & ->) | (row & Hrow & ->)];
        left; exists row; (split; [exact Hrow |]); [reflexivity |].
      apply set_columns_other. cbn. intuition discriminate.
    - apply In_update_where_config in Hin.
      destruct Hin as [(row & Hrow & ->) | (row & Hrow & ->)];
        left; exists row; (split; [exact Hrow |]); [reflexivity |].
      apply set_columns_other. cbn. intuition discriminate.
    - apply In_update_where_config in Hin.
      destruct Hin as [(row & Hrow & ->) | (row & Hrow & ->)];
        left; exists row; (split; [exact Hrow |]); [reflexivity |].
      apply set_columns_other. cbn. intuition discriminate.
    - apply In_update_where_config in Hin.
      destruct Hin as [(row & Hrow & ->) | (row & Hrow & ->)];
        left; exists row; (split; [exact Hrow |]); [reflexivity |].
      apply set_columns_other. cbn. intuition discriminate.
    - apply filter_In in Hin. left. exists row'. split; [apply Hin | reflexivity]. }
  split; [exact Hrecord |]. split; [| split; [| split; [| split; [exact Hwritten |]]]].
  - intros u o t i n cfg wu ws -> Herr. cbn [table_after]. unfold create.
    rewrite Herr. cbn [snd]. eexists. split; [reflexivity |]. apply Hcreate.
  - intros c o cfg -> Herr. cbn [table_after]. unfold updateConfig. rewrite Herr.
    destruct (returning _ _ db); reflexivity.
  - intros cfg'.
    destruct op as [u o t i n cfg wu ws | c o | o t i | o t | c o cfg
                    | c o st e | c o | c o | c o | c o];
      cbn [with_config]; try reflexivity; cbn [table_after].
    + unfold create. destruct (query_error env); cbn [snd]; [reflexivity |].
      rewrite !map_app. f_equal. cbn [map]. f_equal.
      rewrite !delete_set_columns. reflexivity.
    + unfold updateConfig. destruct (query_error env); cbn [snd]; [reflexivity |].
      transitivity (map (base.delete "channel_config")
        (update_where
           (fun row => col_is "channel_id" (VText c) row
                       && col_is "organization_id" (VText o) row)
           (set_columns [("channel_config",
                          VText (encrypt (encryption this) (randomBytes16 env) cfg));
                         ("updated_at", VInt (NOW env))]) db)).
      * destruct (returning _ _ db); cbn [snd];
          unfold update_where; rewrite !map_map; apply map_ext; intros row;
          destruct (col_is "channel_id" (VText c) row
                    && col_is "organization_id" (VText o) row);
          rewrite ?delete_set_columns; reflexivity.
      * destruct (returning _ _ db); reflexivity.
  - intros Hdb. unfold stored_encrypted in *. apply List.Forall_forall.
    intros row' Hin. rewrite List.Forall_forall in Hdb.
    destruct (Hwritten row' Hin) as [(row & Hrow & Heq) | (cfg & _ & Heq)].
    + destruct (Hdb row Hrow) as (iv & cfg & Hcfg). exists iv, cfg.
      now rewrite Heq.
    + exists (randomBytes16 env), cfg. exact Heq.
Qed.

End RepositoryProperties.

(** ** The channel adapters *)

Section TelegramProperties.

Import Eff Channels Channels.Telegram.

Lemma telegram_connect_keeps_options : preserves Telegram.is_initialized connect.
Proof.
  unfold connect, startBot, startPolling, startWebhook, bot_and_webhookUrl,
    setupHandlers, setupMiddleware, onStatusChange, logger, this_options.
  repeat preserves_step; assumption.
Qed.

Lemma telegram_disconnect_keeps_options : preserves Telegram.is_initialized disconnect.
Proof.
  unfold disconnect, bot_and_webhookUrl, onStatusChange, logger, this_options.
  repeat preserves_step; assumption.
Qed.

Lemma telegram_initialize_sets_options (opts : TelegramConfig) (w : World call)
    (a : TelegramAdapter) :
  options (state_of (initialize opts w a)) = Some opts.
Proof. reflexivity. Qed.

(** Before [initialize], [connect] stops at its first read of
    [this.options], inside [try] and again inside [catch]. *)
Lemma telegram_connect_uninitialized (w : World call) (a : TelegramAdapter) :
  options a = None -> status a <> CONNECTED ->
  connect w a = (Throw undefined_read, set_status CONNECTING a, []).
Proof.
  destruct a as [b o st stats r sh t]. cbn. intros -> Hst.
  destruct st; try congruence; reflexivity.
Qed.

Lemma telegram_disconnect_uninitialized (w : World call) (a : TelegramAdapter) :
  options a = None ->
  disconnect w a = (Throw undefined_read, set_isShuttingDown true a, []).
Proof. destruct a as [b o st stats r sh t]. cbn. intros ->. reflexivity. Qed.

(** A Telegram adapter that is connected has been initialized. *)
Lemma telegram_connected_initialized (a : TelegramAdapter) :
  reachable a -> options a = None -> status a <> CONNECTED.
Proof.
  induction 1 as [now | opts w a _ _ | w a _ IH | w a _ IH | st a _ IH]; intros Hopt.
  - discriminate.
  - rewrite telegram_initialize_sets_options in Hopt. discriminate.
  - destruct (options a) as [o|] eqn:Ho.
    + exfalso. apply (telegram_connect_keeps_options w a); [| exact Hopt].
      unfold Telegram.is_initialized. congruence.
    + rewrite telegram_connect_uninitialized by auto. cbn. discriminate.
  - destruct (options a) as [o|] eqn:Ho.
    + exfalso. apply (telegram_disconnect_keeps_options w a); [| exact Hopt].
      unfold Telegram.is_initialized. congruence.
    + rewrite telegram_disconnect_uninitialized by auto. cbn. auto.
  - apply IH. exact Hopt.
Qed.

Lemma telegram_connect_connected (w : World call) (a : TelegramAdapter) :
  options a <> None -> status a = CONNECTED ->
  connect w a = (Ok tt, a, [Logger LWarn "Telegram already connected"]).
Proof.
  destruct a as [b [o|] st stats r sh t]; cbn; intros Ho ->; [reflexivity | congruence].
Qed.

(** With its options set and a world in which no call fails,
    [disconnect] returns and leaves the adapter disconnected, without
    bot or runner; on an adapter it has left, it returns again and
    changes nothing. *)
Lemma telegram_disconnect_twice (w w' : World call) (a : TelegramAdapter) :
  options a <> None -> (forall c, w c = None) -> (forall c, w' c = None) ->
  result_of (disconnect w a) = Ok tt
  /\ status (state_of (disconnect w a)) = DISCONNECTED
  /\ bot (state_of (disconnect w a)) = None
  /\ runner (state_of (disconnect w a)) = None
  /\ result_of (disconnect w' (state_of (disconnect w a))) = Ok tt
  /\ state_of (disconnect w' (state_of (disconnect w a))) = state_of (disconnect w a).
Proof.
  intros Ho Hw Hw'.
  destruct a as [[b|] [o|] st stats [r|] sh t]; try (cbn in Ho; congruence);
    unfold disconnect, bot_and_webhookUrl, onStatusChange, logger, this_options;
    eff_unfold; cbn; rewrite ?Hw; cbn;
    destruct (truthy (webhookUrl o)); cbn; rewrite ?Hw, ?Hw'; cbn; rewrite ?Hw';
    repeat split; reflexivity.
Qed.

End TelegramProperties.

Section DiscordProperties.

Import Eff Channels Channels.Discord.

Lemma discord_connect_keeps_options : preserves Discord.is_initialized connect.
Proof.
  unfold connect, registerSlashCommands, setupEventHandlers, onStatusChange,
    logger, this_options.
  repeat preserves_step; assumption.
Qed.

Lemma discord_disconnect_keeps_options : preserves Discord.is_initialized disconnect.
Proof.
  unfold disconnect, onStatusChange, logger, this_options.
  repeat preserves_step; assumption.
Qed.

Lemma discord_shard_keeps_options : preserves Discord.is_initialized onShardDisconnect.
Proof.
  unfold onShardDisconnect, attemptReconnect.
  repeat first [ apply discord_connect_keeps_options
               | progress unfold logger, this_options
               | preserves_step ]; assumption.
Qed.

Lemma discord_initialize_sets_options (opts : DiscordConfig) (w : World call)
    (a : DiscordAdapter) :
  options (state_of (initialize opts w a)) = Some opts.
Proof. reflexivity. Qed.

Lemma discord_connect_uninitialized (w : World call) (a : DiscordAdapter) :
  options a = None -> status a <> CONNECTED ->
  connect w a = (Throw undefined_read, set_status CONNECTING a, []).
Proof.
  destruct a as [c o st stats sh t]. cbn. intros -> Hst.
  destruct st; try congruence; reflexivity.
Qed.

Lemma discord_disconnect_uninitialized (w : World call) (a : DiscordAdapter) :
  options a = None ->
  disconnect w a = (Throw undefined_read, set_isShuttingDown true a, []).
Proof. destruct a as [c o st stats sh t]. cbn. intros ->. reflexivity. Qed.

Lemma discord_shard_uninitialized (w : World call) (a : DiscordAdapter) :
  options a = None ->
  onShardDisconnect w a = (Throw undefined_read, a, []).
Proof. destruct a as [c o st stats sh t]. cbn. intros ->. reflexivity. Qed.

(** A Discord adapter that is connected has been initialized. *)
Lemma discord_connected_initialized (a : DiscordAdapter) :
  reachable a -> options a = None -> status a <> CONNECTED.
Proof.
  induction 1 as [now | opts w a _ _ | w a _ IH | w a _ IH | w a _ IH | st a _ IH];
    intros Hopt.
  - discriminate.
  - rewrite discord_initialize_sets_options in Hopt. discriminate.
  - destruct (options a) as [o|] eqn:Ho.
    + exfalso. apply (discord_connect_keeps_options w a); [| exact Hopt].
      unfold Discord.is_initialized. congruence.
    + rewrite discord_connect_uninitialized by auto. cbn. discriminate.
  - destruct (options a) as [o|] eqn:Ho.
    + exfalso. apply (discord_disconnect_keeps_options w a); [| exact Hopt].
      unfold Discord.is_initialized. congruence.
    + rewrite discord_disconnect_uninitialized by auto. cbn. auto.
  - destruct (options a) as [o|] eqn:Ho.
    + exfalso. apply (discord_shard_keeps_options w a); [| exact Hopt].
      unfold Discord.is_initialized. congruence.
    + rewrite discord_shard_uninitialized by auto. cbn. auto.
  - apply IH. exact Hopt.
Qed.

Lemma discord_connect_connected (w : World call) (a : DiscordAdapter) :
  options a <> None -> status a = CONNECTED ->
  connect w a = (Ok tt, a, [Logger LWarn "Discord already connected"]).
Proof.
  destruct a as [c [o|] st stats sh t]; cbn; intros Ho ->; [reflexivity | congruence].
Qed.

Lemma discord_disconnect_twice (w w' : World call) (a : DiscordAdapter) :
  options a <> None -> (forall c, w c = None) -> (forall c, w' c = None) ->
  result_of (disconnect w a) = Ok tt
  /\ status (state_of (disconnect w a)) = DISCONNECTED
  /\ client (state_of (disconnect w a)) = None
  /\ result_of (disconnect w' (state_of (disconnect w a))) = Ok tt
  /\ state_of (disconnect w' (state_of (disconnect w a))) = state_of (disconnect w a).
Proof.
  intros Ho Hw Hw'.
  destruct a as [[c|] [o|] st stats sh t]; try (cbn in Ho; congruence);
    unfold disconnect, onStatusChange, logger, this_options;
    eff_unfold; cbn; rewrite ?Hw; cbn; rewrite ?Hw'; cbn;
    repeat split; reflexivity.
Qed.

End DiscordProperties.

Section WhatsAppProperties.

Import Eff Channels Channels.WhatsApp.

Lemma whatsapp_startSocket_keeps_options : preserves WhatsApp.is_initialized startSocket.
Proof.
  unfold startSocket, setupEventHandlers, logger, this_options.
  repeat preserves_step; assumption.
Qed.

Lemma whatsapp_connect_keeps_options : preserves WhatsApp.is_initialized connect.
Proof.
  unfold connect.
  repeat first [ apply whatsapp_startSocket_keeps_options
               | progress unfold onStatusChange, logger, this_options
               | preserves_step ]; assumption.
Qed.

Lemma whatsapp_disconnect_keeps_options : preserves WhatsApp.is_initialized disconnect.
Proof.
  unfold disconnect, onStatusChange, logger, this_options.
  repeat preserves_step; assumption.
Qed.

Lemma whatsapp_update_keeps_options (update : ConnectionUpdate) :
  preserves WhatsApp.is_initialized (handleConnectionUpdate update).
Proof.
  unfold handleConnectionUpdate, handleConnectionOpen, handleConnectionClose,
    updateConfigWithQR, onStatusChange, logger, this_options.
  repeat preserves_step; try assumption; unfold WhatsApp.is_initialized; discriminate.
Qed.

Lemma whatsapp_initialize_sets_options (dir : string) (opts : WhatsAppConfig)
    (w : World call) (a : WhatsAppAdapter) :
  options (state_of (initialize dir opts w a)) = Some opts.
Proof.
  unfold initialize, logger, this_options. eff_unfold. cbn.
  destruct (w FsMkdir); reflexivity.
Qed.

Lemma whatsapp_connect_uninitialized (w : World call) (a : WhatsAppAdapter) :
  options a = None -> status a <> CONNECTED ->
  connect w a = (Throw undefined_read, set_status CONNECTING a, []).
Proof.
  destruct a as [so o st stats dir q n m sh t]. cbn. intros -> Hst.
  destruct st; try congruence; reflexivity.
Qed.

Lemma whatsapp_disconnect_uninitialized (w : World call) (a : WhatsAppAdapter) :
  options a = None ->
  disconnect w a = (Throw undefined_read, set_isShuttingDown true a, []).
Proof. destruct a as [so o st stats dir q n m sh t]. cbn. intros ->. reflexivity. Qed.

(** A WhatsApp adapter that is connected has been initialized: before
    [initialize] no socket is made, so no update is ever delivered. *)
Lemma whatsapp_connected_initialized (g : bool) (a : WhatsAppAdapter) :
  reachable g a ->
  options a = None -> status a <> CONNECTED /\ g = false /\ socket a = None.
Proof.
  induction 1 as [now | g dir opts w a _ _ | g w a _ IH | g w a _ IH
                  | update w a _ IH | w a _ IH | g st a _ IH];
    intros Hopt.
  - repeat split; discriminate.
  - rewrite whatsapp_initialize_sets_options in Hopt. discriminate.
  - destruct (options a) as [o|] eqn:Ho.
    + exfalso. apply (whatsapp_connect_keeps_options w a); [| exact Hopt].
      unfold WhatsApp.is_initialized. congruence.
    + destruct (IH eq_refl) as (Hst & -> & Hso).
      rewrite whatsapp_connect_uninitialized by auto. cbn.
      unfold has_socket. cbn. rewrite Hso. repeat split; auto; discriminate.
  - destruct (options a) as [o|] eqn:Ho.
    + exfalso. apply (whatsapp_disconnect_keeps_options w a); [| exact Hopt].
      unfold WhatsApp.is_initialized. congruence.
    + destruct (IH eq_refl) as (Hst & -> & Hso).
      rewrite whatsapp_disconnect_uninitialized by auto. cbn. auto.
  - destruct (options a) as [o|] eqn:Ho.
    + exfalso. apply (whatsapp_update_keeps_options update w a); [| exact Hopt].
      unfold WhatsApp.is_initialized. congruence.
    + destruct (IH eq_refl) as (_ & Hg & _). discriminate.
  - destruct (options a) as [o|] eqn:Ho.
    + exfalso. apply (whatsapp_startSocket_keeps_options w a); [| exact Hopt].
      unfold WhatsApp.is_initialized. congruence.
    + destruct (IH eq_refl) as (_ & Hg & _). discriminate.
  - apply IH. exact Hopt.
Qed.

Lemma whatsapp_connect_connected (w : World call) (a : WhatsAppAdapter) :
  options a <> None -> status a = CONNECTED ->
  connect w a = (Ok tt, a, [Logger LWarn "WhatsApp already connected"]).
Proof.
  destruct a as [so [o|] st stats dir q n m sh t]; cbn; intros Ho ->;
    [reflexivity | congruence].
Qed.

Lemma whatsapp_disconnect_twice (w w' : World call) (a : WhatsAppAdapter) :
  options a <> None -> (forall c, w c = None) -> (forall c, w' c = None) ->
  result_of (disconnect w a) = Ok tt
  /\ status (state_of (disconnect w a)) = DISCONNECTED
  /\ socket (state_of (disconnect w a)) = None
  /\ result_of (disconnect w' (state_of (disconnect w a))) = Ok tt
  /\ state_of (disconnect w' (state_of (disconnect w a))) = state_of (disconnect w a).
Proof.
  intros Ho Hw Hw'.
  destruct a as [[so|] [o|] st stats dir q n m sh t]; try (cbn in Ho; congruence);
    unfold disconnect, onStatusChange, logger, this_options;
    eff_unfold; cbn; rewrite ?Hw; cbn; rewrite ?Hw'; cbn;
    repeat split; reflexivity.
Qed.

End WhatsAppProperties.

(** ** Properties of every adapter *)

Section AdapterProperties.

Import Eff Channels.

(** C6. On an adapter whose status is connected, [connect] returns at
    once: it logs a warning and does nothing else. No connection is
    made, no status change is reported, and the adapter, with its
    status, its statistics and its connection, is as before. *)
Theorem connect_when_connected_is_noop (v : Variant) (a : Adapter v) (w : World call) :
  reachable v a ->
  getStatus v a = CONNECTED ->
  connect v w a = (Ok tt, a, [Logger LWarn (already_connected v)])
  /\ (forall st e, ~ In (OnStatusChange st e) (trace_of (connect v w a)))
  /\ existsb reconnect_call (trace_of (connect v w a)) = false.
Proof.
  intros Hreach Hst.
  assert (Heq : connect v w a = (Ok tt, a, [Logger LWarn (already_connected v)])).
  { destruct v; cbn in *.
    - apply telegram_connect_connected; [| exact Hst].
      intros Ho. now apply (telegram_connected_initialized a Hreach Ho).
    - apply discord_connect_connected; [| exact Hst].
      intros Ho. now apply (discord_connected_initialized a Hreach Ho).
    - destruct Hreach as [g Hreach].
      apply whatsapp_connect_connected; [| exact Hst].
      intros Ho. now apply (whatsapp_connected_initialized g a Hreach Ho). }
  rewrite Heq. split; [reflexivity |]. split.
  - intros st e [Hin | []]. discriminate.
  - destruct v; reflexivity.
Qed.

(** C3, as amended. On an adapter that has been initialized, and as long
    as no call to the platform nor the status callback fails,
    [disconnect] returns without throwing and leaves the adapter
    disconnected and without a connection; called again it returns
    without throwing and leaves the adapter as the first call left it. *)
Theorem disconnect_initialized_is_idempotent
    (v : Variant) (a : Adapter v) (w w' : World call) :
  initialized v a = true ->
  (forall c, w c = None) ->
  (forall c, w' c = None) ->
  let once := disconnect v w a in
  let twice := disconnect v w' (state_of once) in
  result_of once = Ok tt
  /\ getStatus v (state_of once) = DISCONNECTED
  /\ connection_held v (state_of once) = false
  /\ result_of twice = Ok tt
  /\ state_of twice = state_of once.
Proof.
  intros Hinit Hw Hw'. destruct v; cbn in *; apply bool_decide_eq_true in Hinit.
  - destruct (telegram_disconnect_twice w w' a Hinit Hw Hw')
      as (H1 & H2 & H3 & H4 & H5 & H6).
    repeat split; try assumption.
    unfold Telegram.getStatus. rewrite H3, H4. reflexivity.
  - destruct (discord_disconnect_twice w w' a Hinit Hw Hw') as (H1 & H2 & H3 & H4 & H5).
    repeat split; try assumption. rewrite H3. reflexivity.
  - destruct (whatsapp_disconnect_twice w w' a Hinit Hw Hw') as (H1 & H2 & H3 & H4 & H5).
    repeat split; try assumption. rewrite H3. reflexivity.
Qed.

End AdapterProperties.

(** The claim as stated fails: on an adapter that was never initialized
    [disconnect] throws, whatever the variant; and on a connected
    WhatsApp adapter whose logout is rejected it throws and leaves the
    status connected. *)
Lemma disconnect_can_throw :
  Eff.result_of (Channels.disconnect Channels.telegram Channels.all_resolve
                   (Channels.new Channels.telegram 0))
  = Throw Channels.undefined_read
  /\ Eff.result_of (Channels.disconnect Channels.discord Channels.all_resolve
                      (Channels.new Channels.discord 0))
     = Throw Channels.undefined_read
  /\ Eff.result_of (Channels.disconnect Channels.whatsapp Channels.all_resolve
                      (Channels.new Channels.whatsapp 0))
     = Throw Channels.undefined_read
  /\ Eff.result_of (Channels.disconnect Channels.whatsapp Channels.logout_rejects
                      (Channels.connected Channels.whatsapp))
     = Throw (Error "Connection Closed")
  /\ Channels.getStatus Channels.whatsapp
       (Eff.state_of (Channels.disconnect Channels.whatsapp Channels.logout_rejects
                        (Channels.connected Channels.whatsapp)))
     = CONNECTED.
Proof. repeat split; reflexivity. Qed.

Lemma disconnect_initialized_is_idempotent_witness :
  let once :=
    Channels.disconnect Channels.whatsapp Channels.all_resolve
      (Channels.connected Channels.whatsapp) in
  let twice :=
    Channels.disconnect Channels.whatsapp Channels.all_resolve (Eff.state_of once) in
  Channels.initialized Channels.whatsapp (Channels.connected Channels.whatsapp) = true
  /\ Eff.result_of once = Ok tt
  /\ Channels.getStatus Channels.whatsapp (Eff.state_of once) = DISCONNECTED
  /\ Channels.connection_held Channels.whatsapp (Eff.state_of once) = false
  /\ Eff.result_of twice = Ok tt
  /\ Eff.state_of twice = Eff.state_of once.
Proof.
  intros once twice. split; [reflexivity |].
  apply (disconnect_initialized_is_idempotent Channels.whatsapp
           (Channels.connected Channels.whatsapp)
           Channels.all_resolve Channels.all_resolve);
    reflexivity.
Defined.

Lemma connected_whatsapp_reachable :
  Channels.reachable Channels.whatsapp (Channels.connected Channels.whatsapp).
Proof.
  exists true. unfold Channels.connected, Channels.connected_whatsapp.
  apply Channels.WhatsApp.reach_update.
  apply (Channels.WhatsApp.reach_connect false Channels.all_resolve
           (Eff.state_of
              (Channels.WhatsApp.initialize "whatsapp-sessions/session-1"
                 Channels.sample_whatsapp Channels.all_resolve
                 (Channels.WhatsApp.new 0)))).
  apply Channels.WhatsApp.reach_initialize.
  apply Channels.WhatsApp.reach_new.
Qed.

Lemma connect_when_connected_is_noop_witness :
  Channels.getStatus Channels.whatsapp (Channels.connected Channels.whatsapp) = CONNECTED
  /\ Channels.connect Channels.whatsapp Channels.login_rejects
       (Channels.connected Channels.whatsapp)
     = (Ok tt, Channels.connected Channels.whatsapp,
        [Channels.Logger Channels.LWarn "WhatsApp already connected"]).
Proof.
  split; [reflexivity |].
  apply (connect_when_connected_is_noop Channels.whatsapp
           (Channels.connected Channels.whatsapp) Channels.login_rejects).
  - exact connected_whatsapp_reachable.
  - reflexivity.
Defined.

(** ** Reconnection of the WhatsApp adapter *)

Section ReconnectProperties.

Import Eff Channels Channels.WhatsApp.

(** A close that is not a logout, with attempts left: the counter goes
    up by one and one timer is set, with the delay of the attempt. *)
Lemma whatsapp_close_retries (code : option Z) (w : World call) (a : WhatsAppAdapter) :
  options a <> None ->
  isShuttingDown a = false ->
  code <> Some loggedOut ->
  (reconnectAttempts a < maxReconnectAttempts a)%nat ->
  handleConnectionUpdate (transient_update code) w a
  = (Ok tt, set_reconnectAttempts (S (reconnectAttempts a)) a,
     [ Logger LInfo "WhatsApp connection closed";
       Logger LInfo "Reconnecting to WhatsApp...";
       SetTimeout "startSocket" (Z.min (1000 * 2 ^ Z.of_nat (reconnectAttempts a)) 30000) ]).
Proof.
  intros Ho Hsh Hcode Hlt.
  destruct a as [so [o|] st stats dir q n m sh t]; [| cbn in Ho; congruence].
  cbn in Hsh, Hlt. subst sh. apply Nat.ltb_lt in Hlt.
  unfold handleConnectionUpdate, handleConnectionClose, onStatusChange, logger, this_options.
  eff_unfold. cbn -[Nat.ltb backoff_delay].
  rewrite (bool_decide_eq_false_2 _ Hcode). cbn -[Nat.ltb backoff_delay]. rewrite Hlt.
  reflexivity.
Qed.

(** A close that is not a logout, with no attempt left: the status
    becomes error, the callback is told, and nothing else happens. *)
Lemma whatsapp_close_exhausted (code : option Z) (w : World call) (a : WhatsAppAdapter) :
  options a <> None ->
  isShuttingDown a = false ->
  code <> Some loggedOut ->
  (maxReconnectAttempts a <= reconnectAttempts a)%nat ->
  state_of (handleConnectionUpdate (transient_update code) w a) = set_status ERROR a
  /\ trace_of (handleConnectionUpdate (transient_update code) w a)
     = [ Logger LInfo "WhatsApp connection closed";
         OnStatusChange ERROR (Some "Max reconnection attempts reached") ].
Proof.
  intros Ho Hsh Hcode Hle.
  destruct a as [so [o|] st stats dir q n m sh t]; [| cbn in Ho; congruence].
  cbn in Hsh, Hle. subst sh. apply Nat.ltb_ge in Hle.
  unfold handleConnectionUpdate, handleConnectionClose, onStatusChange, logger, this_options.
  eff_unfold. cbn -[Nat.ltb backoff_delay].
  rewrite (bool_decide_eq_false_2 _ Hcode). cbn -[Nat.ltb backoff_delay]. rewrite Hle.
  destruct (w (OnStatusChange ERROR (Some "Max reconnection attempts reached")));
    split; reflexivity.
Qed.

(** An update other than ['open'] never lowers the counter, never takes
    it past the maximum, and sets exactly as many timers as it adds
    attempts. *)
Lemma whatsapp_update_counts (update : ConnectionUpdate) (w : World call)
    (a : WhatsAppAdapter) :
  connection update <> Some Open ->
  (reconnectAttempts a <= maxReconnectAttempts a)%nat ->
  maxReconnectAttempts (state_of (handleConnectionUpdate update w a))
  = maxReconnectAttempts a
  /\ (reconnectAttempts (state_of (handleConnectionUpdate update w a))
      <= maxReconnectAttempts a)%nat
  /\ (count_timers (trace_of (handleConnectionUpdate update w a)) + reconnectAttempts a
      = reconnectAttempts (state_of (handleConnectionUpdate update w a)))%nat.
Proof.
  intros Hopen Hle.
  destruct a as [so o st stats dir q n m sh t].
  destruct update as [[[]|] code qrv url]; cbn in Hopen, Hle; try congruence;
    unfold handleConnectionUpdate, handleConnectionClose, updateConfigWithQR,
      onStatusChange, logger, this_options;
    destruct (truthy qrv), o as [o|]; eff_unfold; cbn -[Nat.ltb backoff_delay];
    repeat match goal with
           | |- context [w ?c] => destruct (w c) eqn:?; cbn -[Nat.ltb backoff_delay]
           | |- context [if ?b then _ else _] =>
               destruct b eqn:?; cbn -[Nat.ltb backoff_delay]
           end;
    unfold count_timers; cbn -[Nat.ltb backoff_delay];
    repeat match goal with
           | H : (_ <? _)%nat = true |- _ => apply Nat.ltb_lt in H
           | H : (_ <? _)%nat = false |- _ => apply Nat.ltb_ge in H
           end;
    repeat split; lia.
Qed.

Lemma whatsapp_updates_bounded (events : list (ConnectionUpdate * World call))
    (a : WhatsAppAdapter) :
  Forall (fun e => connection (fst e) <> Some Open) events ->
  (reconnectAttempts a <= maxReconnectAttempts a)%nat ->
  (total_timers (snd (run_updates events a)) + reconnectAttempts a
   <= maxReconnectAttempts a)%nat.
Proof.
  intros Hev. revert a.
  induction Hev as [|[update w] rest Hu _ IH]; intros a Hle; [cbn; lia |].
  cbn [run_updates snd total_timers fst].
  destruct (whatsapp_update_counts update w a Hu Hle) as (Hmax & Hbound & Hcount).
  specialize (IH (state_of (handleConnectionUpdate update w a))).
  rewrite Hmax in IH. specialize (IH Hbound).
  cbn [fst] in Hu. lia.
Qed.

(** C5. The WhatsApp adapter starts with no attempt made and a maximum
    of ten. When its connection closes for a reason other than a logout
    and attempts are left, attempt number [n], counted from zero, is
    scheduled after [min(1000 * 2^n, 30000)] milliseconds and the
    counter becomes [n + 1]; as long as the connection does not open, no
    more timers are set than the maximum allows; and when the connection
    opens the counter is back at zero. *)
Theorem whatsapp_backoff_policy :
  (forall now,
     reconnectAttempts (WhatsApp.new now) = 0%nat
     /\ maxReconnectAttempts (WhatsApp.new now) = 10%nat)
  /\ (forall code w a,
        options a <> None ->
        isShuttingDown a = false ->
        code <> Some loggedOut ->
        (reconnectAttempts a < maxReconnectAttempts a)%nat ->
        handleConnectionUpdate (transient_update code) w a
        = (Ok tt, set_reconnectAttempts (S (reconnectAttempts a)) a,
           [ Logger LInfo "WhatsApp connection closed";
             Logger LInfo "Reconnecting to WhatsApp...";
             SetTimeout "startSocket"
               (Z.min (1000 * 2 ^ Z.of_nat (reconnectAttempts a)) 30000) ]))
  /\ (forall events a,
        Forall (fun e => connection (fst e) <> Some Open) events ->
        (reconnectAttempts a <= maxReconnectAttempts a)%nat ->
        (total_timers (snd (run_updates events a)) + reconnectAttempts a
         <= maxReconnectAttempts a)%nat)
  /\ (forall w a,
        reconnectAttempts (state_of (handleConnectionUpdate open_update w a)) = 0%nat
        /\ status (state_of (handleConnectionUpdate open_update w a)) = CONNECTED).
Proof.
  split; [intros now; split; reflexivity |].
  split; [exact whatsapp_close_retries |].
  split; [exact whatsapp_updates_bounded |].
  intros w a. destruct a as [so [o|] st stats dir q n m sh t];
    unfold handleConnectionUpdate, handleConnectionOpen, onStatusChange, logger, this_options;
    eff_unfold; cbn; world_cases w; split; reflexivity.
Qed.

(** C4, as amended. Once the WhatsApp adapter has used up its attempts,
    every further close of the connection that is not a logout, while
    the adapter is not shutting down, puts the status at error and
    reports it through [onStatusChange]: the calls of each such close
    are the log line and the callback with the error status and the
    message [Max reconnection attempts reached], and nothing else. No
    timer is set and the connect path is not entered, and the counter
    stays where it is. *)
Theorem whatsapp_exhausted_stays_in_error
    (a : WhatsAppAdapter) (events : list (option Z * World call)) :
  options a <> None ->
  isShuttingDown a = false ->
  (maxReconnectAttempts a <= reconnectAttempts a)%nat ->
  Forall (fun e => fst e <> Some loggedOut) events ->
  events <> [] ->
  let run := run_updates (map (fun e => (transient_update (fst e), snd e)) events) a in
  status (fst run) = ERROR
  /\ reconnectAttempts (fst run) = reconnectAttempts a
  /\ length (snd run) = length events
  /\ Forall (fun t => t = [ Logger LInfo "WhatsApp connection closed";
                            OnStatusChange ERROR (Some "Max reconnection attempts reached") ]
                      /\ existsb reconnect_call t = false) (snd run).
Proof.
  intros Ho Hsh Hle Hev Hne.
  assert (Hgen : forall a0,
    options a0 <> None -> isShuttingDown a0 = false ->
    (maxReconnectAttempts a0 <= reconnectAttempts a0)%nat ->
    let run := run_updates (map (fun e => (transient_update (fst e), snd e)) events) a0 in
    (events <> [] -> status (fst run) = ERROR)
    /\ (events = [] -> fst run = a0)
    /\ reconnectAttempts (fst run) = reconnectAttempts a0
    /\ length (snd run) = length events
    /\ Forall (fun t => t = [ Logger LInfo "WhatsApp connection closed";
                              OnStatusChange ERROR
                                (Some "Max reconnection attempts reached") ]
                        /\ existsb reconnect_call t = false) (snd run)).
  { clear a Ho Hsh Hle Hne.
    induction Hev as [|[code w] rest Hcode _ IH]; intros a0 Ho Hsh Hle.
    - cbn. split; [congruence |]. repeat split; auto.
    - cbn [map run_updates fst snd]. cbn [fst] in Hcode.
      destruct (whatsapp_close_exhausted code w a0 Ho Hsh Hcode Hle) as [Hstate Htrace].
      rewrite Hstate, Htrace.
      destruct (IH (set_status ERROR a0)) as (H1 & H2 & H3 & H4 & H5);
        [ destruct a0; exact Ho | destruct a0; exact Hsh | destruct a0; exact Hle |].
      split; [| split; [| split; [| split]]].
      + intros _. destruct rest as [|e rest'].
        * rewrite H2 by reflexivity. destruct a0; reflexivity.
        * apply H1. discriminate.
      + discriminate.
      + rewrite H3. destruct a0; reflexivity.
      + cbn [length]. now rewrite H4.
      + constructor; [split; reflexivity | exact H5]. }
  destruct (Hgen a Ho Hsh Hle) as (H1 & _ & H3 & H4 & H5).
  split; [now apply H1 |]. split; [exact H3 |]. split; [exact H4 | exact H5].
Qed.

End ReconnectProperties.

Lemma whatsapp_backoff_policy_witness :
  map (List.filter Channels.is_timer)
    (snd (Channels.run_updates
            (repeat (Channels.transient_update None, Channels.all_resolve) 3)
            Channels.connected_whatsapp))
  = [ [Channels.SetTimeout "startSocket" 1000];
      [Channels.SetTimeout "startSocket" 2000];
      [Channels.SetTimeout "startSocket" 4000] ]
  /\ Eff.trace_of
       (Channels.WhatsApp.handleConnectionUpdate (Channels.transient_update None)
          Channels.all_resolve Channels.connected_whatsapp)
     = [ Channels.Logger Channels.LInfo "WhatsApp connection closed";
         Channels.Logger Channels.LInfo "Reconnecting to WhatsApp...";
         Channels.SetTimeout "startSocket" 1000 ].
Proof.
  split; [reflexivity |].
  destruct whatsapp_backoff_policy as (_ & Hretry & _).
  rewrite (Hretry None Channels.all_resolve Channels.connected_whatsapp).
  - vm_compute. reflexivity.
  - vm_compute. discriminate.
  - vm_compute. reflexivity.
  - discriminate.
  - vm_compute. lia.
Defined.

Lemma whatsapp_exhausted_stays_in_error_witness :
  let events := [(None, Channels.all_resolve); (Some 428, Channels.all_resolve)] in
  let run :=
    Channels.run_updates
      (map (fun e => (Channels.transient_update (fst e), snd e)) events)
      Channels.exhausted_whatsapp in
  Channels.WhatsApp.reconnectAttempts Channels.exhausted_whatsapp = 10%nat
  /\ Channels.WhatsApp.status (fst run) = ERROR
  /\ Channels.WhatsApp.reconnectAttempts (fst run) = 10%nat
  /\ length (snd run) = 2%nat
  /\ Forall (fun t => t = [ Channels.Logger Channels.LInfo "WhatsApp connection closed";
                            Channels.OnStatusChange ERROR
                              (Some "Max reconnection attempts reached") ]
                      /\ existsb Channels.reconnect_call t = false) (snd run).
Proof.
  intros events run. split; [reflexivity |].
  apply (whatsapp_exhausted_stays_in_error Channels.exhausted_whatsapp events).
  - vm_compute. discriminate.
  - vm_compute. reflexivity.
  - vm_compute. lia.
  - repeat constructor; discriminate.
  - discriminate.
Defined.

(** The claim as stated fails for Discord, which has no maximum: after
    eleven shard disconnects a connected adapter is still connected, not
    in error, and the eleventh has gone after a new connection like the
    first; an adapter in error, whose logins are rejected, logs in again
    at the eleventh. *)
Lemma discord_reconnects_without_bound :
  let run :=
    Channels.repeat_run (Channels.onTransientDisconnect Channels.discord)
      Channels.all_resolve 11 (Channels.connected Channels.discord) in
  let run' :=
    Channels.repeat_run (Channels.onTransientDisconnect Channels.discord)
      Channels.login_rejects 11 Channels.failed_discord in
  Channels.getStatus Channels.discord (fst run) = CONNECTED
  /\ existsb Channels.reconnect_call (List.last (snd run) []) = true
  /\ Channels.getStatus Channels.discord (fst run') = ERROR
  /\ In Channels.ClientLogin (List.last (snd run') []).
Proof.
  vm_compute. repeat split. tauto.
Qed.

Lemma repository_stores_only_encrypted_config_witness :
  (exists row,
     Vault.table_after (Vault.new_ChannelRepository None) Reference.sample_env
       Reference.sample_create [] = [row]
     /\ row !! "channel_config" = Some (Vault.VText Reference.sample_record))
  /\ (exists row,
        Vault.table_after (Vault.new_ChannelRepository None) Reference.sample_env
          Reference.sample_update [Reference.corrupt_row] = [row]
        /\ Reference.corrupt_row !! "channel_config" = Some (Vault.VText "{}")
        /\ row !! "channel_config" = Some (Vault.VText Reference.sample_record)).
Proof.
  split.
  - destruct (repository_stores_only_encrypted_config (RT := Reference.runtime)
                (Vault.new_ChannelRepository None) Reference.sample_env
                Reference.sample_create [])
      as (_ & Hcreate & _).
    apply (Hcreate "user-1" "org-1" "telegram" "openclaw_bot" None
             Reference.sample_config None None); reflexivity.
  - destruct (repository_stores_only_encrypted_config (RT := Reference.runtime)
                (Vault.new_ChannelRepository None) Reference.sample_env
                Reference.sample_update [Reference.corrupt_row])
      as (_ & _ & Hupdate & _).
    rewrite (Hupdate "dead" "org-1" Reference.sample_config eq_refl eq_refl).
    cbn [map].
    assert (Hcond :
      Vault.col_is "channel_id" (Vault.VText "dead") Reference.corrupt_row
      && Vault.col_is "organization_id" (Vault.VText "org-1") Reference.corrupt_row = true)
      by (vm_compute; reflexivity).
    rewrite Hcond. eexists. split; [reflexivity |]. split; [reflexivity |].
    rewrite lookup_insert_ne by discriminate. apply lookup_insert_eq.
Defined.

(** * Further properties *)

(** ** The channel repository: what its queries find *)

Section RepositoryQueries.

Import Vault.

Context `{RT : NodeRuntime}.

(** The vault reads back what it wrote, whatever its key, as long as
    the key has the length AES-256 takes. *)
Lemma decrypt_own_record (this : ChannelEncryption) (iv : Hex.bytes) (x : json number) :
  length (key this) = 32%nat -> wf_json x = true -> length iv = 16%nat ->
  decrypt this (encrypt this iv x) = Ok x.
Proof.
  intros Hkey Hwf Hiv. unfold encrypt. rewrite decrypt_envelope, !Hex.from_toString.
  destruct (gcm_open_seal (key this) iv (utf8_encode (JSON_stringify x)) Hkey Hiv)
    as (Hc & Ht & tail & Hfin & Hpt).
  rewrite Hc, Ht. cbn [negb]. rewrite Hfin, Hpt, utf8_decode_encode.
  now rewrite JSON_parse_stringify.
Qed.

(** [mapRowToConfig] copies the columns of the row. *)
Lemma mapRowToConfig_columns (this : ChannelRepository) (row : Row) (c : ChannelConfig) :
  mapRowToConfig this row = Ok c ->
  channelId c = row !! "channel_id"
  /\ organizationId c = row !! "organization_id"
  /\ channelType c = row !! "channel_type"
  /\ channelIdentifier c = row !! "channel_identifier"
  /\ active c = row !! "active"
  /\ createdAt c = row !! "created_at".
Proof.
  unfold mapRowToConfig, result_bind.
  destruct (row !! "channel_config") as [[| s | | |]|]; try discriminate.
  destruct (decrypt (encryption this) s); [| discriminate].
  intros [= <-]. cbn. repeat split; reflexivity.
Qed.

Lemma mapRowToConfig_encrypted (this : ChannelRepository) (row : Row)
    (iv : Hex.bytes) (cfg : json number) :
  length (key (encryption this)) = 32%nat -> wf_json cfg = true -> length iv = 16%nat ->
  row !! "channel_config" = Some (VText (encrypt (encryption this) iv cfg)) ->
  exists c, mapRowToConfig this row = Ok c /\ config c = cfg.
Proof.
  intros Hkey Hwf Hiv Hrow. unfold mapRowToConfig.
  rewrite Hrow, decrypt_own_record by assumption.
  cbn [result_bind]. eexists. split; reflexivity.
Qed.

Lemma col_is_true (column : string) (v : SqlValue) (row : Row) :
  col_is column v row = true <-> row !! column = Some v.
Proof. unfold col_is. apply bool_decide_eq_true. Qed.

Lemma col_is_false (column : string) (v : SqlValue) (row : Row) :
  col_is column v row = false <-> row !! column <> Some v.
Proof. unfold col_is. apply bool_decide_eq_false. Qed.

(** Looking a column up in a row that a SET clause has rewritten. *)
Ltac lookup_set :=
  cbn [set_columns];
  repeat (rewrite lookup_insert_ne by discriminate);
  try reflexivity; try apply lookup_insert_eq.

(** The row [create] inserts. *)
Lemma create_result (this : ChannelRepository) (env : QueryEnv)
    (u o t i : string) (n : option string) (cfg : json number) (wu ws : option string)
    (db : list Row) :
  query_error env = None ->
  exists row,
    create this env u o t i n cfg wu ws db = (mapRowToConfig this row, (db ++ [row])%list)
    /\ row !! "channel_id" = column_defaults env !! "channel_id"
    /\ row !! "organization_id" = Some (VText o)
    /\ row !! "active" = Some (VBool true)
    /\ row !! "channel_config"
       = Some (VText (encrypt (encryption this) (randomBytes16 env) cfg)).
Proof.
  intros Herr. unfold create. rewrite Herr. eexists. split; [reflexivity |].
  repeat split; lookup_set.
Qed.

Lemma filter_none {A : Type} (p : A -> bool) (l : list A) :
  Forall (fun x => p x = false) l -> List.filter p l = [].
Proof.
  induction 1 as [|x l Hx _ IH]; [reflexivity |]. cbn. now rewrite Hx.
Qed.

Lemma update_where_none (cond : Row -> bool) (f : Row -> Row) (db : list Row) :
  Forall (fun row => cond row = false) db -> update_where cond f db = db.
Proof.
  unfold update_where. induction 1 as [|row db Hrow _ IH]; [reflexivity |].
  cbn. now rewrite Hrow, IH.
Qed.

(** A filter that rejects every row an UPDATE rewrites, before and
    after, does not see the UPDATE. *)
Lemma filter_update_where (p cond : Row -> bool) (f : Row -> Row) (db : list Row) :
  (forall row, cond row = true -> p row = false /\ p (f row) = false) ->
  List.filter p (update_where cond f db) = List.filter p db.
Proof.
  intros Hp. unfold update_where. induction db as [|row db IH]; [reflexivity |].
  cbn. destruct (cond row) eqn:Hc; [| now rewrite IH].
  destruct (Hp row Hc) as [-> ->]. exact IH.
Qed.

(** A filter that the UPDATE's condition implies and that the SET
    clause does not affect selects the rewritten rows. *)
Lemma filter_updated (p cond : Row -> bool) (f : Row -> Row) (db : list Row) :
  (forall row, p row = true -> cond row = true) ->
  (forall row, cond row = true -> p (f row) = p row) ->
  List.filter p (update_where cond f db) = map f (List.filter p db).
Proof.
  intros Himp Hkeep. unfold update_where. induction db as [|row db IH]; [reflexivity |].
  cbn. destruct (cond row) eqn:Hc.
  - rewrite (Hkeep row Hc). destruct (p row); cbn; now rewrite IH.
  - destruct (p row) eqn:Hp; [| exact IH].
    apply Himp in Hp. congruence.
Qed.

Lemma filter_filter_neg {A : Type} (p cond : A -> bool) (l : list A) :
  (forall x, cond x = true -> p x = false) ->
  List.filter p (List.filter (fun x => negb (cond x)) l) = List.filter p l.
Proof.
  intros Hp. induction l as [|x l IH]; [reflexivity |].
  cbn. destruct (cond x) eqn:Hc; cbn.
  - now rewrite (Hp x Hc).
  - destruct (p x); now rewrite IH.
Qed.

(** A SET clause that does not name a column leaves a comparison on it
    as it was. *)
Lemma col_is_set_columns (column : string) (v : SqlValue)
    (assignments : list (string * SqlValue)) (row : Row) :
  ~ In column (map fst assignments) ->
  col_is column v (set_columns assignments row) = col_is column v row.
Proof. intros Hin. unfold col_is. now rewrite set_columns_other. Qed.

Lemma first_row_found (this : ChannelRepository) (rows : list Row) (c : ChannelConfig) :
  first_row this rows = Ok (Some c) ->
  exists row rest, rows = row :: rest /\ mapRowToConfig this row = Ok c.
Proof.
  destruct rows as [|row rest]; [discriminate |]. cbn [first_row]. unfold result_bind.
  destruct (mapRowToConfig this row) as [c'|] eqn:Hmap; [| discriminate].
  intros [= <-]. now exists row, rest.
Qed.

Lemma map_rows_Forall2 (this : ChannelRepository) (rows : list Row) (cs : list ChannelConfig) :
  map_rows this rows = Ok cs <->
  Forall2 (fun row c => mapRowToConfig this row = Ok c) rows cs.
Proof.
  revert cs. induction rows as [|row rows IH]; intros cs; cbn [map_rows]; unfold result_bind.
  - split; [intros [= <-]; constructor | intros Hf; inversion Hf; reflexivity].
  - destruct (mapRowToConfig this row) as [c|] eqn:Hmap.
    + destruct (map_rows this rows) as [cs'|] eqn:Hrows.
      * split.
        -- intros [= <-]. constructor; [exact Hmap |]. now apply IH.
        -- intros Hf. inversion Hf as [|r c' rs cs'' Hc Hrest]; subst.
           apply IH in Hrest. congruence.
      * split; [discriminate |].
        intros Hf. inversion Hf as [|r c' rs cs'' Hc Hrest]; subst.
        apply IH in Hrest. discriminate.
    + split; [discriminate |].
      intros Hf. inversion Hf; congruence.
Qed.

(** ORDER BY rearranges the rows and puts them in descending order. *)
Lemma insert_desc_perm (row : Row) (sorted : list Row) :
  insert_desc row sorted ≡ₚ row :: sorted.
Proof.
  induction sorted as [|r rest IH]; [reflexivity |]. cbn [insert_desc].
  destruct (not_older (created_at row) (created_at r)); [reflexivity |].
  rewrite IH. apply Permutation_swap.
Qed.

Lemma order_by_perm (rows : list Row) : order_by_created_at_desc rows ≡ₚ rows.
Proof.
  unfold order_by_created_at_desc. induction rows as [|row rows IH]; [reflexivity |].
  cbn [fold_right]. rewrite insert_desc_perm. now rewrite IH.
Qed.

Lemma not_older_trans (a b c : option Z) :
  not_older a b = true -> not_older b c = true -> not_older a c = true.
Proof.
  destruct a as [x|], b as [y|], c as [z|]; cbn; try congruence.
  rewrite !Z.leb_le. lia.
Qed.

Lemma not_older_total (a b : option Z) :
  not_older a b = false -> not_older b a = true.
Proof.
  destruct a as [x|], b as [y|]; cbn; try congruence.
  rewrite Z.leb_gt, Z.leb_le. lia.
Qed.

Lemma insert_desc_sorted (row : Row) (sorted : list Row) :
  StronglySorted (fun a b => not_older (created_at a) (created_at b) = true) sorted ->
  StronglySorted (fun a b => not_older (created_at a) (created_at b) = true)
    (insert_desc row sorted).
Proof.
  induction 1 as [|r rest Hrest IH Hall]; cbn [insert_desc].
  - repeat constructor.
  - destruct (not_older (created_at row) (created_at r)) eqn:Hrow.
    + constructor; [now constructor |].
      constructor; [exact Hrow |].
      eapply Forall_impl; [exact Hall |]. cbn. intros r' Hr'.
      now apply (not_older_trans _ (created_at r)).
    + constructor; [exact IH |].
      rewrite insert_desc_perm. constructor; [| exact Hall].
      now apply not_older_total.
Qed.

Lemma order_by_sorted (rows : list Row) :
  StronglySorted (fun a b => not_older (created_at a) (created_at b) = true)
    (order_by_created_at_desc rows).
Proof.
  unfold order_by_created_at_desc. induction rows as [|row rows IH]; [constructor |].
  cbn [fold_right]. now apply insert_desc_sorted.
Qed.

(** X1. A channel that [create] has inserted is what [findById] returns
    for the id the table gave it and the organization it was created
    for, with the configuration that was passed in, decrypted. *)
Theorem create_then_findById
    (env_key : option string) (env env' : QueryEnv) (id u o t i : string)
    (n : option string) (cfg : json number) (wu ws : option string) (db : list Row) :
  let this := new_ChannelRepository env_key in
  let created := create this env u o t i n cfg wu ws db in
  wf_json cfg = true ->
  length (randomBytes16 env) = 16%nat ->
  query_error env = None ->
  query_error env' = None ->
  column_defaults env !! "channel_id" = Some (VText id) ->
  Forall (fun row => row !! "channel_id" <> Some (VText id)) db ->
  exists c,
    fst created = Ok c
    /\ config c = cfg
    /\ findById this env' id o (snd created) = (Ok (Some c), snd created).
Proof.
  intros this created Hwf Hiv Herr Herr' Hid Hdb.
  destruct (create_result this env u o t i n cfg wu ws db Herr)
    as (row & Hcreate & Hrid & Horg & Hact & Hcfg).
  destruct (mapRowToConfig_encrypted this row (randomBytes16 env) cfg
              (key_length env_key) Hwf Hiv Hcfg) as (c & Hmap & Hconf).
  exists c. subst created. rewrite Hcreate. cbn [fst snd].
  split; [exact Hmap |]. split; [exact Hconf |].
  unfold findById. rewrite Herr'. f_equal.
  rewrite List.filter_app, filter_none.
  - cbn [List.filter app].
    rewrite (proj2 (col_is_true "channel_id" (VText id) row)) by congruence.
    rewrite (proj2 (col_is_true "organization_id" (VText o) row) Horg).
    rewrite (proj2 (col_is_true "active" (VBool true) row) Hact).
    cbn [andb first_row]. now rewrite Hmap.
  - eapply Forall_impl; [exact Hdb |]. cbn. intros r Hr.
    rewrite (proj2 (col_is_false "channel_id" (VText id) r) Hr). reflexivity.
Qed.

Lemma Forall2_In_r {A B : Type} (R : A -> B -> Prop) (l1 : list A) (l2 : list B) (y : B) :
  Forall2 R l1 l2 -> In y l2 -> exists x, In x l1 /\ R x y.
Proof.
  induction 1 as [|x y' l1 l2 Hxy _ IH]; intros Hin; [contradiction |].
  destruct Hin as [<- | Hin].
  - exists x. split; [now left | exact Hxy].
  - destruct (IH Hin) as (x' & Hx' & Hr). exists x'. split; [now right | exact Hr].
Qed.

(** What [listByOrganization] maps to configurations: the rows its
    WHERE clause selects, newest first. *)
Lemma listByOrganization_rows (this : ChannelRepository) (env : QueryEnv)
    (o : string) (t : option string) (db : list Row) (cs : list ChannelConfig) :
  fst (listByOrganization this env o t db) = Ok cs ->
  Forall2 (fun row c => mapRowToConfig this row = Ok c)
    (order_by_created_at_desc (List.filter (listed o t) db)) cs.
Proof.
  unfold listByOrganization. destruct (query_error env); [discriminate |].
  cbn [fst]. intros Hrows. apply map_rows_Forall2 in Hrows. exact Hrows.
Qed.

Lemma listed_true (o : string) (t : option string) (row : Row) :
  listed o t row = true ->
  row !! "organization_id" = Some (VText o) /\ row !! "active" = Some (VBool true).
Proof.
  unfold listed. intros Hp.
  apply andb_prop in Hp. destruct Hp as [Hp _].
  apply andb_prop in Hp. destruct Hp as [Ho Ha].
  now apply col_is_true in Ho, Ha.
Qed.

(** X2. Reads are scoped to the organization: whatever the table holds,
    a configuration returned by [findById], by [findByTypeAndIdentifier]
    or in the list of [listByOrganization] is that of an active row of
    the organization asked for, with the id, or the type and the
    identifier, asked for. *)
Theorem reads_are_scoped_to_the_organization
    (this : ChannelRepository) (env : QueryEnv) (db : list Row) :
  (forall id o c,
     fst (findById this env id o db) = Ok (Some c) ->
     channelId c = Some (VText id)
     /\ organizationId c = Some (VText o)
     /\ active c = Some (VBool true))
  /\ (forall o t i c,
        fst (findByTypeAndIdentifier this env o t i db) = Ok (Some c) ->
        organizationId c = Some (VText o)
        /\ channelType c = Some (VText t)
        /\ channelIdentifier c = Some (VText i)
        /\ active c = Some (VBool true))
  /\ (forall o t cs,
        fst (listByOrganization this env o t db) = Ok cs ->
        Forall (fun c => organizationId c = Some (VText o)
                         /\ active c = Some (VBool true)) cs).
Proof.
  split; [| split].
  - intros id o c. unfold findById. destruct (query_error env); [discriminate |].
    cbn [fst]. intros Hfirst.
    destruct (first_row_found this _ c Hfirst) as (row & rest & Hrows & Hmap).
    assert (Hin : In row (List.filter (fun row =>
      col_is "channel_id" (VText id) row
      && col_is "organization_id" (VText o) row
      && col_is "active" (VBool true) row) db)) by (rewrite Hrows; now left).
    apply filter_In in Hin. destruct Hin as [_ Hp].
    apply andb_prop in Hp. destruct Hp as [Hp Ha].
    apply andb_prop in Hp. destruct Hp as [Hi Ho].
    apply col_is_true in Hi, Ho, Ha.
    destruct (mapRowToConfig_columns this row c Hmap) as (-> & -> & _ & _ & -> & _).
    auto.
  - intros o t i c. unfold findByTypeAndIdentifier.
    destruct (query_error env); [discriminate |].
    cbn [fst]. intros Hfirst.
    destruct (first_row_found this _ c Hfirst) as (row & rest & Hrows & Hmap).
    assert (Hin : In row (List.filter (fun row =>
      col_is "organization_id" (VText o) row
      && col_is "channel_type" (VText t) row
      && col_is "channel_identifier" (VText i) row
      && col_is "active" (VBool true) row) db)) by (rewrite Hrows; now left).
    apply filter_In in Hin. destruct Hin as [_ Hp].
    apply andb_prop in Hp. destruct Hp as [Hp Ha].
    apply andb_prop in Hp. destruct Hp as [Hp Hi].
    apply andb_prop in Hp. destruct Hp as [Ho Ht].
    apply col_is_true in Hi, Ho, Ha, Ht.
    destruct (mapRowToConfig_columns this row c Hmap) as (_ & -> & -> & -> & -> & _).
    auto.
  - intros o t cs Hlist. apply listByOrganization_rows in Hlist.
    rewrite List.Forall_forall. intros c Hc.
    destruct (Forall2_In_r _ _ _ c Hlist Hc) as (row & Hrow & Hmap).
    apply (Permutation_in _ (order_by_perm _)) in Hrow.
    apply filter_In in Hrow. destruct Hrow as [_ Hp].
    apply listed_true in Hp. destruct Hp as [Ho Ha].
    destruct (mapRowToConfig_columns this row c Hmap) as (_ & -> & _ & _ & -> & _).
    auto.
Qed.

(** The rows an UPDATE or a DELETE of the repository selects belong to
    the organization it was called for. *)
Lemma own_rows_only (id o : string) (row : Row) :
  col_is "channel_id" (VText id) row && col_is "organization_id" (VText o) row = true ->
  negb (col_is "organization_id" (VText o) row) = false.
Proof.
  intros Hc. apply andb_prop in Hc. destruct Hc as [_ ->]. reflexivity.
Qed.

(** X3. Writes are scoped to the organization: whatever method is
    called, with whatever arguments and outcome, the rows of every other
    organization are in the table afterwards exactly as they were
    before, in the same order. *)
Theorem writes_leave_other_organizations
    (this : ChannelRepository) (env : QueryEnv) (op : operation) (db : list Row) :
  let other row :=
    negb (col_is "organization_id" (VText (operation_organization op)) row) in
  List.filter other (table_after this env op db) = List.filter other db.
Proof.
  intros other. subst other.
  destruct op as [u o t i n cfg wu ws | c o | o t i | o t | c o cfg
                  | c o st e | c o | c o | c o | c o];
    cbn [table_after operation_organization].
  - destruct (query_error env) eqn:Herr.
    + unfold create. rewrite Herr. reflexivity.
    + destruct (create_result this env u o t i n cfg wu ws db Herr)
        as (row & -> & _ & Horg & _).
      cbn [snd]. rewrite List.filter_app. cbn [List.filter].
      rewrite (proj2 (col_is_true "organization_id" (VText o) row) Horg).
      cbn [negb]. apply app_nil_r.
  - unfold findById. now destruct (query_error env).
  - unfold findByTypeAndIdentifier. now destruct (query_error env).
  - unfold listByOrganization. now destruct (query_error env).
  - unfold updateConfig. destruct (query_error env); [reflexivity |].
    cbv zeta. destruct (returning _ _ db); cbn [snd];
      (apply filter_update_where; intros row Hc; split; [now apply (own_rows_only c) |];
       rewrite col_is_set_columns by (cbn; intuition discriminate);
       now apply (own_rows_only c)).
  - unfold updateStatus. destruct (query_error env); [reflexivity |].
    cbv zeta. cbn [snd].
    apply filter_update_where; intros row Hc; split; [now apply (own_rows_only c) |].
    rewrite col_is_set_columns by (cbn; intuition discriminate).
    now apply (own_rows_only c).
  - unfold incrementMessageCount. destruct (query_error env); [reflexivity |].
    cbv zeta. cbn [snd].
    apply filter_update_where; intros row Hc; split; [now apply (own_rows_only c) |].
    rewrite col_is_set_columns by (cbn; intuition discriminate).
    now apply (own_rows_only c).
  - unfold markVerified. destruct (query_error env); [reflexivity |].
    cbv zeta. cbn [snd].
    apply filter_update_where; intros row Hc; split; [now apply (own_rows_only c) |].
    rewrite col_is_set_columns by (cbn; intuition discriminate).
    now apply (own_rows_only c).
  - unfold deactivate. destruct (query_error env); [reflexivity |].
    cbv zeta. cbn [snd].
    apply filter_update_where; intros row Hc; split; [now apply (own_rows_only c) |].
    rewrite col_is_set_columns by (cbn; intuition discriminate).
    now apply (own_rows_only c).
  - unfold delete. destruct (query_error env); [reflexivity |].
    cbv zeta. cbn [snd].
    apply (filter_filter_neg
             (fun row => negb (col_is "organization_id" (VText o) row))
             (fun row => col_is "channel_id" (VText c) row
                         && col_is "organization_id" (VText o) row)).
    intros row Hc. now apply (own_rows_only c).
Qed.

Lemma In_update_where (cond : Row -> bool) (f : Row -> Row) (db : list Row) (row' : Row) :
  In row' (update_where cond f db) ->
  exists row, In row db
    /\ ((cond row = true /\ row' = f row) \/ (cond row = false /\ row' = row)).
Proof.
  unfold update_where. intros Hin. apply in_map_iff in Hin.
  destruct Hin as (row & Heq & Hrow). exists row. split; [exact Hrow |].
  destruct (cond row); [left | right]; auto.
Qed.

(** X4. [deactivate] is a soft delete: the table keeps all its rows,
    but afterwards [findById] answers [null] for the channel and the
    lists of [listByOrganization] no longer hold it. *)
Theorem deactivate_hides_the_channel
    (this : ChannelRepository) (env env' : QueryEnv) (id o : string) (db : list Row) :
  query_error env = None ->
  query_error env' = None ->
  let db' := snd (deactivate this env id o db) in
  length db' = length db
  /\ findById this env' id o db' = (Ok None, db')
  /\ (forall t cs,
        fst (listByOrganization this env' o t db') = Ok cs ->
        Forall (fun c => channelId c <> Some (VText id)) cs).
Proof.
  intros Herr Herr' db'. subst db'. unfold deactivate. rewrite Herr. cbv zeta. cbn [snd].
  set (cond := fun row : Row =>
         col_is "channel_id" (VText id) row && col_is "organization_id" (VText o) row).
  set (f := set_columns [("active", VBool false);
                         ("connection_status", VStatus DISCONNECTED);
                         ("updated_at", VInt (NOW env))]).
  assert (Hf : forall row, f row !! "active" = Some (VBool false)).
  { intros row. subst f. lookup_set. }
  split; [| split].
  - unfold update_where. apply length_map.
  - unfold findById. rewrite Herr'. f_equal. rewrite filter_none; [reflexivity |].
    rewrite List.Forall_forall. intros row' Hin.
    apply In_update_where in Hin.
    destruct Hin as (row & _ & [[_ ->] | [Hc ->]]).
    + rewrite (proj2 (col_is_false "active" (VBool true) (f row)))
        by (rewrite Hf; discriminate).
      apply andb_false_r.
    + fold (cond row). now rewrite Hc.
  - intros t cs Hlist. apply listByOrganization_rows in Hlist.
    rewrite List.Forall_forall. intros c Hc.
    destruct (Forall2_In_r _ _ _ c Hlist Hc) as (row' & Hrow & Hmap).
    apply (Permutation_in _ (order_by_perm _)) in Hrow.
    apply filter_In in Hrow. destruct Hrow as [Hin Hp].
    apply listed_true in Hp. destruct Hp as [Ho Ha].
    destruct (mapRowToConfig_columns this row' c Hmap) as (-> & _).
    apply In_update_where in Hin.
    destruct Hin as (row & _ & [[_ ->] | [Hcond ->]]).
    + rewrite Hf in Ha. discriminate.
    + subst cond. cbn beta in Hcond.
      rewrite (proj2 (col_is_true "organization_id" (VText o) row) Ho) in Hcond.
      rewrite andb_true_r in Hcond. now apply col_is_false in Hcond.
Qed.

(** X5. After [delete], the channel is gone for good: [findById]
    answers [null], and [updateConfig] throws [Channel <id> not found]
    and changes nothing. *)
Theorem delete_then_not_found
    (this : ChannelRepository) (env env' : QueryEnv) (id o : string)
    (cfg : json number) (db : list Row) :
  query_error env = None ->
  query_error env' = None ->
  let db' := snd (delete this env id o db) in
  findById this env' id o db' = (Ok None, db')
  /\ updateConfig this env' id o cfg db'
     = (Throw (Error ("Channel " ++ id ++ " not found")), db').
Proof.
  intros Herr Herr' db'. subst db'. unfold delete. rewrite Herr. cbv zeta. cbn [snd].
  set (cond := fun row : Row =>
         col_is "channel_id" (VText id) row && col_is "organization_id" (VText o) row).
  assert (Hgone : Forall (fun row => cond row = false)
                    (List.filter (fun row => negb (cond row)) db)).
  { rewrite List.Forall_forall. intros row Hin. apply filter_In in Hin.
    destruct Hin as [_ Hn]. now apply negb_true_iff in Hn. }
  split.
  - unfold findById. rewrite Herr'. f_equal. rewrite filter_none; [reflexivity |].
    eapply Forall_impl; [exact Hgone |]. cbn beta. intros row Hc.
    fold (cond row). now rewrite Hc.
  - unfold updateConfig. rewrite Herr'. cbv zeta. unfold returning.
    fold cond. rewrite (filter_none cond) by exact Hgone. cbn [map].
    now rewrite update_where_none by exact Hgone.
Qed.

(** X6. [updateConfig] on a channel that is there and active: it returns
    the new configuration, and [findById] returns it from then on. *)
Theorem updateConfig_then_findById
    (env_key : option string) (env env' : QueryEnv) (id o : string)
    (cfg : json number) (db : list Row) :
  let this := new_ChannelRepository env_key in
  let updated := updateConfig this env id o cfg db in
  wf_json cfg = true ->
  length (randomBytes16 env) = 16%nat ->
  query_error env = None ->
  query_error env' = None ->
  (exists row, In row db
     /\ row !! "channel_id" = Some (VText id)
     /\ row !! "organization_id" = Some (VText o)
     /\ row !! "active" = Some (VBool true)) ->
  exists c c',
    fst updated = Ok c /\ config c = cfg
    /\ fst (findById this env' id o (snd updated)) = Ok (Some c') /\ config c' = cfg.
Proof.
  intros this updated Hwf Hiv Herr Herr' (row & Hin & Hid & Horg & Hact).
  subst updated. unfold updateConfig. rewrite Herr. cbv zeta.
  set (cond := fun row : Row =>
         col_is "channel_id" (VText id) row && col_is "organization_id" (VText o) row).
  set (f := set_columns
              [("channel_config", VText (encrypt (encryption this) (randomBytes16 env) cfg));
               ("updated_at", VInt (NOW env))]).
  apply col_is_true in Hid, Horg, Hact.
  assert (Hf : forall r, exists c, mapRowToConfig this (f r) = Ok c /\ config c = cfg).
  { intros r. apply (mapRowToConfig_encrypted this (f r) (randomBytes16 env) cfg
                       (key_length env_key) Hwf Hiv).
    subst f. lookup_set. }
  unfold returning.
  destruct (List.filter cond db) as [|r0 rest] eqn:Hsel.
  { exfalso. assert (Hrow : In row (List.filter cond db)).
    { apply filter_In. split; [exact Hin |]. subst cond. cbn beta. now rewrite Hid, Horg. }
    rewrite Hsel in Hrow. contradiction. }
  cbn [map fst snd]. destruct (Hf r0) as (c & Hc & Hconf).
  set (P := fun row : Row =>
         col_is "channel_id" (VText id) row && col_is "organization_id" (VText o) row
         && col_is "active" (VBool true) row).
  assert (Hfind : List.filter P (update_where cond f db) = map f (List.filter P db)).
  { apply filter_updated.
    - intros r Hp. subst P cond. cbn beta in *. apply andb_prop in Hp. tauto.
    - intros r _. subst P f. cbn beta.
      now rewrite !col_is_set_columns by (cbn; intuition discriminate). }
  destruct (List.filter P db) as [|r1 rest1] eqn:Hsel1.
  { exfalso. assert (Hrow : In row (List.filter P db)).
    { apply filter_In. split; [exact Hin |]. subst P. cbn beta. now rewrite Hid, Horg, Hact. }
    rewrite Hsel1 in Hrow. contradiction. }
  destruct (Hf r1) as (c' & Hc' & Hconf').
  exists c, c'. split; [exact Hc |]. split; [exact Hconf |].
  unfold findById. rewrite Herr'. cbn [fst]. fold P. rewrite Hfind.
  cbn [map first_row]. rewrite Hc'. cbn [result_bind]. auto.
Qed.

(** X7. [listByOrganization] returns the active channels of the
    organization (of the type asked for, if one is given and not empty),
    all of them and nothing else, in the descending order of
    [created_at]: those without a stamp first, as PostgreSQL puts NULL,
    then the newest first. *)
Theorem listByOrganization_newest_first
    (this : ChannelRepository) (env : QueryEnv) (o : string) (t : option string)
    (db : list Row) (cs : list ChannelConfig) :
  fst (listByOrganization this env o t db) = Ok cs ->
  StronglySorted (fun a b => not_older a b = true) (map created_of cs)
  /\ exists rows,
       rows ≡ₚ List.filter (listed o t) db
       /\ Forall2 (fun row c => mapRowToConfig this row = Ok c) rows cs.
Proof.
  intros Hlist. apply listByOrganization_rows in Hlist. split.
  - pose proof (order_by_sorted (List.filter (listed o t) db)) as Hsorted.
    revert Hsorted Hlist.
    generalize (order_by_created_at_desc (List.filter (listed o t) db)) as rows.
    intros rows Hsorted Hlist.
    assert (Hmap : map created_of cs = map created_at rows).
    { clear Hsorted. induction Hlist as [|row c rows cs Hc _ IH]; [reflexivity |].
      cbn [map]. rewrite IH. f_equal. unfold created_of, created_at.
      now destruct (mapRowToConfig_columns this row c Hc) as (_ & _ & _ & _ & _ & ->). }
    rewrite Hmap. clear Hmap Hlist.
    induction Hsorted as [|row rows _ IH Hall]; cbn [map]; constructor; [exact IH |].
    apply Forall_map. exact Hall.
  - eexists. split; [apply order_by_perm | exact Hlist].
Qed.

(** X8. One row of the organization that does not decrypt makes the
    whole list fail: [listByOrganization] rejects, whatever the other
    rows hold. *)
Theorem listByOrganization_fails_on_one_row
    (this : ChannelRepository) (env : QueryEnv) (o : string) (t : option string)
    (db : list Row) (row : Row) (e : exn) :
  query_error env = None ->
  In row db ->
  listed o t row = true ->
  mapRowToConfig this row = Throw e ->
  exists e', fst (listByOrganization this env o t db) = Throw e'.
Proof.
  intros Herr Hin Hp Hbad.
  destruct (fst (listByOrganization this env o t db)) as [cs|e'] eqn:Hlist;
    [| now exists e'].
  exfalso. apply listByOrganization_rows in Hlist.
  assert (Hrow : In row (order_by_created_at_desc (List.filter (listed o t) db))).
  { apply (Permutation_in _ (Permutation_sym (order_by_perm _))).
    apply filter_In. now split. }
  clear Hin Hp. induction Hlist as [|r c rows cs Hc _ IH]; [contradiction |].
  destruct Hrow as [-> | Hrow]; [congruence | now apply IH].
Qed.

End RepositoryQueries.

Lemma create_then_findById_witness :
  let this := Vault.new_ChannelRepository None in
  let db := Vault.table_after this Reference.sample_env Reference.sample_create [] in
  let created :=
    Vault.create this Reference.other_env "user-2" "org-2" "discord" "guild-9" None
      Reference.sample_config None None db in
  exists c,
    fst created = Ok c
    /\ Vault.config c = Reference.sample_config
    /\ Vault.findById this Reference.sample_env "a1b2" "org-2" (snd created)
       = (Ok (Some c), snd created).
Proof.
  intros this db created.
  apply (create_then_findById (RT := Reference.runtime) None
           Reference.other_env Reference.sample_env "a1b2"
           "user-2" "org-2" "discord" "guild-9" None Reference.sample_config None None db).
  - reflexivity.
  - reflexivity.
  - reflexivity.
  - reflexivity.
  - vm_compute. reflexivity.
  - repeat constructor. vm_compute. discriminate.
Defined.


Lemma reads_are_scoped_to_the_organization_witness :
  exists c,
    fst (Vault.findById Reference.sample_repository Reference.sample_env "a1b2" "org-2"
           Reference.sample_table) = Ok (Some c)
    /\ Vault.channelId c = Some (Vault.VText "a1b2")
    /\ Vault.organizationId c = Some (Vault.VText "org-2")
    /\ Vault.active c = Some (Vault.VBool true).
Proof.
  assert (Hfound :
    match fst (Vault.findById Reference.sample_repository Reference.sample_env
                 "a1b2" "org-2" Reference.sample_table) with
    | Ok (Some _) => true
    | _ => false
    end = true) by (vm_compute; reflexivity).
  destruct (fst (Vault.findById Reference.sample_repository Reference.sample_env
                   "a1b2" "org-2" Reference.sample_table)) as [[c|]|e] eqn:Hfind;
    try discriminate Hfound.
  exists c. split; [reflexivity |].
  exact (proj1 (reads_are_scoped_to_the_organization (RT := Reference.runtime)
                  Reference.sample_repository Reference.sample_env
                  Reference.sample_table) "a1b2" "org-2" c Hfind).
Defined.

Lemma deactivate_hides_the_channel_witness :
  let this := Reference.sample_repository in
  let db' := snd (Vault.deactivate this Reference.other_env "a1b2" "org-2"
                    Reference.sample_table) in
  length db' = length Reference.sample_table
  /\ Vault.findById this Reference.sample_env "a1b2" "org-2" db' = (Ok None, db')
  /\ (forall t cs,
        fst (Vault.listByOrganization this Reference.sample_env "org-2" t db') = Ok cs ->
        Forall (fun c => Vault.channelId c <> Some (Vault.VText "a1b2")) cs).
Proof.
  intros this db'.
  apply (deactivate_hides_the_channel (RT := Reference.runtime) this
           Reference.other_env Reference.sample_env "a1b2" "org-2" Reference.sample_table);
    reflexivity.
Defined.

Lemma delete_then_not_found_witness :
  let this := Reference.sample_repository in
  let db' := snd (Vault.delete this Reference.other_env "a1b2" "org-2"
                    Reference.sample_table) in
  Vault.findById this Reference.sample_env "a1b2" "org-2" db' = (Ok None, db')
  /\ Vault.updateConfig this Reference.sample_env "a1b2" "org-2" Reference.sample_config db'
     = (Throw (Error "Channel a1b2 not found"), db').
Proof.
  intros this db'.
  apply (delete_then_not_found (RT := Reference.runtime) this
           Reference.other_env Reference.sample_env "a1b2" "org-2"
           Reference.sample_config Reference.sample_table);
    reflexivity.
Defined.

Lemma updateConfig_then_findById_witness :
  let this := Vault.new_ChannelRepository None in
  let updated :=
    Vault.updateConfig this Reference.other_env "a1b2" "org-2" Reference.sample_config
      Reference.sample_table in
  exists c c',
    fst updated = Ok c /\ Vault.config c = Reference.sample_config
    /\ fst (Vault.findById this Reference.sample_env "a1b2" "org-2" (snd updated))
       = Ok (Some c')
    /\ Vault.config c' = Reference.sample_config.
Proof.
  intros this updated.
  apply (updateConfig_then_findById (RT := Reference.runtime) None
           Reference.other_env Reference.sample_env "a1b2" "org-2"
           Reference.sample_config Reference.sample_table);
    try reflexivity.
  destruct (create_result (RT := Reference.runtime) this Reference.other_env
              "user-2" "org-2" "discord" "guild-9" None
              (Vault.JObject [("botToken", Vault.JString "xyz")]) None None
              (Vault.table_after this Reference.sample_env Reference.sample_create [])
              eq_refl) as (row & Hcreate & Hid & Horg & Hact & _).
  exists row. split; [| split; [| split]].
  - unfold Reference.sample_table, Reference.other_create. cbn [Vault.table_after].
    fold this. unfold Reference.sample_repository. fold this.
    rewrite Hcreate. cbn [snd]. apply in_or_app. right. now left.
  - rewrite Hid. vm_compute. reflexivity.
  - exact Horg.
  - exact Hact.
Defined.

(** Four channels inserted with the stamps 2, 1, 3 (thousand
    milliseconds after the same instant) and none come back as none, 3,
    2, 1. *)
Lemma listByOrganization_newest_first_witness :
  map Vault.created_at Reference.stamped_table
  = [Some 1700000002000; Some 1700000001000; Some 1700000003000; None]
  /\ exists cs,
       fst (Vault.listByOrganization Reference.sample_repository Reference.sample_env
              "org-3" None Reference.stamped_table) = Ok cs
       /\ map Vault.created_of cs
          = [None; Some 1700000003000; Some 1700000002000; Some 1700000001000]
       /\ StronglySorted (fun a b => Vault.not_older a b = true) (map Vault.created_of cs).
Proof.
  split; [vm_compute; reflexivity |].
  assert (Horder :
    match fst (Vault.listByOrganization Reference.sample_repository Reference.sample_env
                 "org-3" None Reference.stamped_table) with
    | Ok cs =>
        bool_decide (map Vault.created_of cs
                     = [None; Some 1700000003000; Some 1700000002000; Some 1700000001000])
    | Throw _ => false
    end = true) by (vm_compute; reflexivity).
  destruct (fst (Vault.listByOrganization Reference.sample_repository Reference.sample_env
                   "org-3" None Reference.stamped_table)) as [cs|e] eqn:Hlist;
    [| discriminate Horder].
  exists cs. split; [reflexivity |]. split; [now apply bool_decide_eq_true in Horder |].
  exact (proj1 (listByOrganization_newest_first (RT := Reference.runtime)
                  Reference.sample_repository Reference.sample_env
                  "org-3" None Reference.stamped_table cs Hlist)).
Defined.

Lemma listByOrganization_fails_on_one_row_witness :
  exists e,
    fst (Vault.listByOrganization Reference.sample_repository Reference.sample_env
           "org-1" None (Reference.sample_table ++ [Reference.corrupt_row])) = Throw e.
Proof.
  assert (Hbad :
    match Vault.mapRowToConfig Reference.sample_repository Reference.corrupt_row with
    | Ok _ => false
    | Throw _ => true
    end = true) by (vm_compute; reflexivity).
  destruct (Vault.mapRowToConfig Reference.sample_repository Reference.corrupt_row)
    as [c|e] eqn:Hmap; [discriminate Hbad |].
  apply (listByOrganization_fails_on_one_row (RT := Reference.runtime)
           Reference.sample_repository Reference.sample_env "org-1" None
           (Reference.sample_table ++ [Reference.corrupt_row]) Reference.corrupt_row e).
  - reflexivity.
  - apply in_or_app. right. now left.
  - vm_compute. reflexivity.
  - exact Hmap.
Defined.

(** ** The authentication client: validation and the cache *)

Section TokenValidation.

Import Eff Auth.

Context `{UJ : UserJson}.

Variable remote : Remote.

(** [getCachedToken] never throws and never calls the auth service; a
    user it returns was parsed from a live entry under the key of the
    token. *)
Lemma getCachedToken_outcome (this : NexusAuthClient) (token : string)
    (w : World call) (cache : Cache) :
  exists o s t,
    getCachedToken remote this token w cache = (Ok o, s, t)
    /\ (forall path, ~ In (HttpPost path) t)
    /\ (forall u, o = Some u ->
          exists v e, cache !! getCacheKey token = Some (v, e)
            /\ Date_now remote < e /\ JSON_parse_user v = Some u).
Proof.
  unfold getCachedToken. destruct (redis this).
  2: { exists None, cache, []. repeat split; [intros p [] | discriminate]. }
  unfold redis_get, redis_del. eff_unfold.
  destruct (w (RedisGet (getCacheKey token))).
  { eexists _, _, _. split; [reflexivity |].
    split; [intros p Hin; cbn in Hin; intuition discriminate | discriminate]. }
  destruct (cache !! getCacheKey token) as [[v e]|] eqn:Hl.
  2: { eexists _, _, _. split; [reflexivity |].
       split; [intros p Hin; cbn in Hin; intuition discriminate | discriminate]. }
  destruct (Date_now remote <? e) eqn:Hfresh.
  2: { eexists _, _, _. split; [reflexivity |].
       split; [intros p Hin; cbn in Hin; intuition discriminate | discriminate]. }
  apply Z.ltb_lt in Hfresh.
  destruct v as [|c s].
  { eexists _, _, _. split; [reflexivity |].
    split; [intros p Hin; cbn in Hin; intuition discriminate | discriminate]. }
  destruct (JSON_parse_user (String c s)) as [user|] eqn:Hparse.
  2: { eexists _, _, _. split; [reflexivity |].
       split; [intros p Hin; cbn in Hin; intuition discriminate | discriminate]. }
  destruct (expired remote (exp user)).
  - destruct (w (RedisDel (getCacheKey token)));
      (eexists _, _, _; split; [reflexivity |];
       split; [intros p Hin; cbn in Hin; intuition discriminate | discriminate]).
  - eexists _, _, _. split; [reflexivity |].
    split; [intros p Hin; cbn in Hin; intuition discriminate |].
    intros u [= <-]. eauto.
Qed.

(** [cacheToken] never throws and never calls the auth service. *)
Lemma cacheToken_outcome (this : NexusAuthClient) (token : string) (u : AuthenticatedUser)
    (w : World call) (cache : Cache) :
  exists s t,
    cacheToken remote this token u w cache = (Ok tt, s, t)
    /\ (forall path, ~ In (HttpPost path) t).
Proof.
  unfold cacheToken. destruct (redis this).
  2: { exists cache, []. split; [reflexivity | intros p []]. }
  unfold redis_setex. eff_unfold.
  destruct (w (RedisSetex _ _ _)); [| destruct (time_to_live remote this u <=? 0)];
    (eexists _, _; split; [reflexivity |]; intros p Hin; cbn in Hin; intuition discriminate).
Qed.

(** The client the constructor returns, before [setRedis]. *)
Lemma validateToken_without_redis (this : NexusAuthClient) (token : string)
    (w : World call) (cache : Cache) :
  redis this = None ->
  validateToken remote this token w cache =
  match jwt_decode remote token with
  | None => (Throw (Error "Failed to decode token"), cache, [])
  | Some decoded =>
      if expired remote (or_zero (claim_exp decoded))
      then (Throw (Error "Token expired"), cache, [])
      else
        match post_validate remote token with
        | AxiosError (Some 401) _ =>
            (Throw (Error "Invalid or expired token"), cache,
             [HttpPost "/v1/auth/validate"; ConsoleError "Auth client response error:"])
        | AxiosError (Some 403) _ =>
            (Throw (Error "Insufficient permissions"), cache,
             [HttpPost "/v1/auth/validate"; ConsoleError "Auth client response error:"])
        | AxiosError _ msg =>
            (Throw (Error ("Auth service error: " ++ msg)), cache,
             [HttpPost "/v1/auth/validate"; ConsoleError "Auth client response error:"])
        | Response data =>
            match valid data, user data with
            | true, Some u =>
                (Ok {| userId := id u;
                       organizationId := organization_id u;
                       email := remote_email u;
                       name := remote_name u;
                       tier := tier_of (remote_tier u);
                       permissions := match remote_permissions u with
                                      | Some l => l
                                      | None => []
                                      end;
                       exp := or_zero (claim_exp decoded);
                       iat := or_zero (claim_iat decoded) |},
                 cache, [HttpPost "/v1/auth/validate"])
            | _, _ =>
                (Throw (Error (match error data with
                               | Some (String c s) => String c s
                               | _ => "Invalid token"
                               end)), cache, [HttpPost "/v1/auth/validate"])
            end
        end
  end.
Proof.
  intros Hredis. unfold validateToken, cacheToken, decodeToken. rewrite Hredis.
  eff_unfold.
  destruct (jwt_decode remote token) as [decoded|]; [| reflexivity].
  destruct (expired remote (or_zero (claim_exp decoded))); [reflexivity |].
  destruct (post_validate remote token) as [data | status msg].
  - destruct (valid data), (user data); reflexivity.
  - repeat match goal with
           | |- context [match ?x with _ => _ end] => is_var x; destruct x
           end; reflexivity.
Qed.

(** X9. A token that [jwt.decode] cannot read, or whose [exp] has
    passed, is never sent to the auth service: [validateToken] throws
    [Failed to decode token] or [Token expired], unless the cache holds a
    live entry under the key of the token, whose user it then returns. *)
Theorem validateToken_asks_nothing_for_a_dead_token
    (this : NexusAuthClient) (token : string) (w : World call) (cache : Cache) :
  (jwt_decode remote token = None
   \/ exists decoded, jwt_decode remote token = Some decoded
                      /\ expired remote (or_zero (claim_exp decoded)) = true) ->
  (forall path, ~ In (HttpPost path) (trace_of (validateToken remote this token w cache)))
  /\ match result_of (validateToken remote this token w cache) with
     | Ok u =>
         exists v e, cache !! getCacheKey token = Some (v, e)
           /\ Date_now remote < e /\ JSON_parse_user v = Some u
     | Throw e => e = Error "Failed to decode token" \/ e = Error "Token expired"
     end.
Proof.
  intros Hdead.
  destruct (redis this) as [r|] eqn:Hr.
  2: { rewrite validateToken_without_redis by exact Hr.
       destruct Hdead as [-> | (decoded & -> & ->)]; cbn; split; auto. }
  destruct (getCachedToken_outcome this token w cache) as (o & s & t & Hget & Hnopost & Hhit).
  unfold validateToken, decodeToken. rewrite Hr. eff_unfold. rewrite Hget.
  destruct o as [u|].
  - cbn. rewrite app_nil_r. split; [exact Hnopost | now apply Hhit].
  - destruct Hdead as [-> | (decoded & -> & ->)]; cbn; rewrite app_nil_r; split; auto.
Qed.

(** X10. Redis is never fatal: whatever its commands answer, and
    whether they fail or not, [validateToken] returns the user of a live
    cache entry or else exactly what the client returns before
    [setRedis], that is, what the token and the auth service decide. *)
Theorem validateToken_survives_redis
    (this : NexusAuthClient) (token : string) (w : World call) (cache : Cache) :
  let bare := {| authUrl := authUrl this; apiKey := apiKey this;
                 redis := None; cacheTTL := cacheTTL this |} in
  (exists u v e,
     result_of (validateToken remote this token w cache) = Ok u
     /\ cache !! getCacheKey token = Some (v, e)
     /\ Date_now remote < e
     /\ JSON_parse_user v = Some u)
  \/ result_of (validateToken remote this token w cache)
     = result_of (validateToken remote bare token w cache).
Proof.
  intros bare. rewrite (validateToken_without_redis bare) by reflexivity.
  destruct (redis this) as [r|] eqn:Hr.
  2: { right. now rewrite validateToken_without_redis by exact Hr. }
  destruct (getCachedToken_outcome this token w cache) as (o & s & t & Hget & _ & Hhit).
  unfold validateToken, decodeToken. rewrite Hr. eff_unfold. rewrite Hget.
  destruct o as [u|].
  { left. destruct (Hhit u eq_refl) as (v & e & Hl & Hfresh & Hparse).
    exists u, v, e. auto. }
  right.
  destruct (jwt_decode remote token) as [decoded|]; [| reflexivity].
  destruct (expired remote (or_zero (claim_exp decoded))); [reflexivity |].
  destruct (post_validate remote token) as [data | status msg].
  - destruct (valid data); [| reflexivity].
    destruct (user data) as [u|]; [| reflexivity].
    match goal with
    | |- context [cacheToken remote this token ?user w s] =>
        destruct (cacheToken_outcome this token user w s) as (s' & t' & -> & _)
    end.
    reflexivity.
  - repeat match goal with
           | |- context [match ?x with _ => _ end] => is_var x; destruct x
           end; reflexivity.
Qed.

(** X11. An entry that [cacheToken] writes never outlives the token:
    whatever the call leaves under a key was there before, or it is the
    user under the key of the token, with an expiry later than now, at
    most [cacheTTL] seconds away and, when the token carries [exp], not
    after it. *)
Theorem cacheToken_entry_expires_with_the_token
    (this : NexusAuthClient) (token : string) (u : AuthenticatedUser)
    (w : World call) (cache : Cache) (k v : string) (e : Z) :
  state_of (cacheToken remote this token u w cache) !! k = Some (v, e) ->
  cache !! k = Some (v, e)
  \/ (k = getCacheKey token
      /\ v = JSON_stringify_user u
      /\ Date_now remote < e <= Date_now remote + 1000 * cacheTTL this
      /\ (exp u <> 0 -> e <= 1000 * exp u)).
Proof.
  unfold cacheToken. destruct (redis this); [| now left].
  unfold redis_setex. eff_unfold.
  destruct (w (RedisSetex _ _ _)); [now left |].
  destruct (time_to_live remote this u <=? 0) eqn:Httl; [now left |].
  apply Z.leb_gt in Httl. cbn [fst snd].
  destruct (decide (k = getCacheKey token)) as [-> | Hk].
  - rewrite lookup_insert_eq. intros [= <- <-]. right.
    split; [reflexivity |]. split; [reflexivity |].
    revert Httl. unfold time_to_live.
    destruct (exp u =? 0) eqn:Hexp.
    + apply Z.eqb_eq in Hexp. intros Httl. split; [lia | congruence].
    + intros Httl.
      pose proof (Z.div_mod (- Date_now remote) 1000 ltac:(lia)) as Hdm.
      pose proof (Z.mod_pos_bound (- Date_now remote) 1000 ltac:(lia)) as Hb.
      split; [lia |]. intros _. lia.
  - rewrite lookup_insert_ne by congruence. now left.
Qed.

(** X12. After [invalidateToken], when Redis has carried out the DEL,
    the cache has nothing under the key of the token: a lookup for the
    token, and for every token with the same key, misses. *)
Theorem invalidateToken_then_miss
    (this : NexusAuthClient) (token token' : string) (w w' : World call) (cache : Cache) :
  redis this <> None ->
  w (RedisDel (getCacheKey token)) = None ->
  getCacheKey token' = getCacheKey token ->
  let cache' := state_of (invalidateToken this token w cache) in
  cache' !! getCacheKey token = None
  /\ result_of (getCachedToken remote this token' w' cache') = Ok None.
Proof.
  intros Hredis Hdel Hkey cache'.
  assert (Hgone : cache' !! getCacheKey token = None).
  { subst cache'. unfold invalidateToken. destruct (redis this); [| congruence].
    unfold redis_del. eff_unfold. rewrite Hdel. cbn [fst snd]. apply lookup_delete_eq. }
  split; [exact Hgone |].
  destruct (getCachedToken_outcome this token' w' cache') as (o & s & t & Hget & _ & Hhit).
  rewrite Hget. cbn. destruct o as [u|]; [| reflexivity].
  destruct (Hhit u eq_refl) as (v & e & Hl & _). rewrite Hkey in Hl. congruence.
Qed.

End TokenValidation.

Lemma validateToken_asks_nothing_for_a_dead_token_witness :
  Eff.result_of (Auth.validateToken Reference.sample_remote Reference.sample_client
                   Reference.other_token Reference.redis_up ∅)
  = Throw (Error "Failed to decode token")
  /\ forall path,
       ~ In (Auth.HttpPost path)
            (Eff.trace_of (Auth.validateToken Reference.sample_remote Reference.sample_client
                             Reference.other_token Reference.redis_up ∅)).
Proof.
  split; [vm_compute; reflexivity |].
  apply (validateToken_asks_nothing_for_a_dead_token (UJ := Reference.user_json)
           Reference.sample_remote Reference.sample_client Reference.other_token
           Reference.redis_up ∅).
  left. reflexivity.
Defined.

Lemma cacheToken_entry_expires_with_the_token_witness :
  let key := Auth.getCacheKey Reference.sample_token in
  let entry := (Auth.JSON_stringify_user Reference.sample_user, 1700000300000) in
  Eff.state_of (Auth.cacheToken Reference.sample_remote Reference.sample_client
                  Reference.sample_token Reference.sample_user Reference.redis_up ∅)
    !! key = Some entry
  /\ ((∅ : Auth.Cache) !! key = Some entry
      \/ (key = Auth.getCacheKey Reference.sample_token
          /\ fst entry = Auth.JSON_stringify_user Reference.sample_user
          /\ Auth.Date_now Reference.sample_remote < snd entry
             <= Auth.Date_now Reference.sample_remote
                + 1000 * Auth.cacheTTL Reference.sample_client
          /\ (Auth.exp Reference.sample_user <> 0 ->
              snd entry <= 1000 * Auth.exp Reference.sample_user))).
Proof.
  intros key entry. split; [vm_compute; reflexivity |].
  apply (cacheToken_entry_expires_with_the_token (UJ := Reference.user_json)
           Reference.sample_remote Reference.sample_client Reference.sample_token
           Reference.sample_user Reference.redis_up ∅ key (fst entry) (snd entry)).
  vm_compute. reflexivity.
Defined.

Lemma invalidateToken_then_miss_witness :
  let cached :=
    Eff.state_of (Auth.cacheToken Reference.sample_remote Reference.sample_client
                    Reference.sample_token Reference.sample_user Reference.redis_up ∅) in
  let cache' :=
    Eff.state_of (Auth.invalidateToken Reference.sample_client Reference.sample_token
                    Reference.redis_up cached) in
  cached !! Auth.getCacheKey Reference.sample_token <> None
  /\ cache' !! Auth.getCacheKey Reference.sample_token = None
  /\ Eff.result_of (Auth.getCachedToken Reference.sample_remote Reference.sample_client
                      Reference.other_token Reference.redis_up cache') = Ok None.
Proof.
  intros cached cache'. split; [vm_compute; discriminate |].
  apply (invalidateToken_then_miss (UJ := Reference.user_json)
           Reference.sample_remote Reference.sample_client Reference.sample_token
           Reference.other_token Reference.redis_up Reference.redis_up cached).
  - discriminate.
  - reflexivity.
  - vm_compute. reflexivity.
Defined.

(** ** The authentication client: API keys, logout, quotas *)

Section ApiKeys.

Import Eff Auth.

Context `{UJ : UserJson}.

Variable remote : Remote.
Variable post_validate_api_key : string -> HttpOutcome.

(** The two caches use keys that cannot meet. *)
Lemma cache_keys_apart (apiKey token : string) : apiKeyCacheKey apiKey <> getCacheKey token.
Proof.
  unfold apiKeyCacheKey, getCacheKey. rewrite !JS.append_String. discriminate.
Qed.

(** What [getCachedToken] answers is decided by the entry under the key
    of the token. *)
Lemma getCachedToken_reads_one_key (this : NexusAuthClient) (token : string)
    (w : World call) (cache cache' : Cache) :
  cache !! getCacheKey token = cache' !! getCacheKey token ->
  result_of (getCachedToken remote this token w cache)
  = result_of (getCachedToken remote this token w cache')
  /\ trace_of (getCachedToken remote this token w cache)
     = trace_of (getCachedToken remote this token w cache').
Proof.
  intros Hsame. unfold getCachedToken. destruct (redis this); [| split; reflexivity].
  unfold redis_get, redis_del. eff_unfold.
  destruct (w (RedisGet (getCacheKey token))); [split; reflexivity |].
  rewrite <- Hsame.
  destruct (cache !! getCacheKey token) as [[v e]|]; [| split; reflexivity].
  destruct (Date_now remote <? e); [| split; reflexivity].
  destruct v as [|c s]; [split; reflexivity |].
  destruct (JSON_parse_user (String c s)) as [user|]; [| split; reflexivity].
  destruct (expired remote (exp user)); [| split; reflexivity].
  destruct (w (RedisDel (getCacheKey token))); split; reflexivity.
Qed.

Lemma getCachedApiKey_reads_one_key (this : NexusAuthClient) (apiKey : string)
    (w : World call) (cache cache' : Cache) :
  cache !! apiKeyCacheKey apiKey = cache' !! apiKeyCacheKey apiKey ->
  getCachedApiKey remote this apiKey w cache' =
  (result_of (getCachedApiKey remote this apiKey w cache), cache',
   trace_of (getCachedApiKey remote this apiKey w cache)).
Proof.
  intros Hsame. unfold getCachedApiKey. destruct (redis this); [| reflexivity].
  unfold redis_get. eff_unfold.
  destruct (w (RedisGet (apiKeyCacheKey apiKey))); [reflexivity |].
  rewrite <- Hsame.
  destruct (cache !! apiKeyCacheKey apiKey) as [[v e]|]; [| reflexivity].
  destruct (Date_now remote <? e); [| reflexivity].
  destruct v as [|c s]; [reflexivity |].
  destruct (JSON_parse_user (String c s)) as [user|]; reflexivity.
Qed.

(** The keys [cacheApiKey] and [cacheToken] leave alone. *)
Lemma cacheApiKey_other_keys (this : NexusAuthClient) (apiKey : string)
    (u : AuthenticatedUser) (w : World call) (cache : Cache) (k : string) :
  k <> apiKeyCacheKey apiKey ->
  state_of (cacheApiKey remote this apiKey u w cache) !! k = cache !! k.
Proof.
  intros Hk. unfold cacheApiKey. destruct (redis this); [| reflexivity].
  unfold redis_setex. eff_unfold.
  destruct (w (RedisSetex _ _ _)); [reflexivity |]. cbn.
  now rewrite lookup_insert_ne by congruence.
Qed.

Lemma cacheToken_other_keys (this : NexusAuthClient) (token : string)
    (u : AuthenticatedUser) (w : World call) (cache : Cache) (k : string) :
  k <> getCacheKey token ->
  state_of (cacheToken remote this token u w cache) !! k = cache !! k.
Proof.
  intros Hk. unfold cacheToken. destruct (redis this); [| reflexivity].
  unfold redis_setex. eff_unfold.
  destruct (w (RedisSetex _ _ _)); [reflexivity |].
  destruct (time_to_live remote this u <=? 0); [reflexivity |]. cbn.
  now rewrite lookup_insert_ne by congruence.
Qed.

(** X13. The cache of API keys and the cache of tokens do not meet:
    their keys differ whatever the API key and the token are, so caching
    a user for an API key changes no answer of the token cache, and
    caching a user for a token changes no answer of the API key cache. *)
Theorem api_keys_and_tokens_are_cached_apart
    (this : NexusAuthClient) (apiKey token : string) (u : AuthenticatedUser)
    (w w' : World call) (cache : Cache) :
  apiKeyCacheKey apiKey <> getCacheKey token
  /\ result_of (getCachedToken remote this token w
                  (state_of (cacheApiKey remote this apiKey u w' cache)))
     = result_of (getCachedToken remote this token w cache)
  /\ result_of (getCachedApiKey remote this apiKey w
                  (state_of (cacheToken remote this token u w' cache)))
     = result_of (getCachedApiKey remote this apiKey w cache).
Proof.
  pose proof (cache_keys_apart apiKey token) as Hapart.
  split; [exact Hapart |]. split.
  - symmetry. apply getCachedToken_reads_one_key.
    symmetry. apply cacheApiKey_other_keys. congruence.
  - rewrite (getCachedApiKey_reads_one_key this apiKey w cache); [reflexivity |].
    symmetry. apply cacheToken_other_keys. exact Hapart.
Qed.

Lemma apiKeyCacheKey_suffix (prefix suffix : string) :
  String.length suffix = 16%nat ->
  apiKeyCacheKey (prefix ++ suffix) = "auth:apikey:" ++ suffix.
Proof.
  intros Hlen. unfold apiKeyCacheKey.
  change (-16) with (- Z.of_nat 16). rewrite <- Hlen.
  rewrite JS.slice_suffix by lia. reflexivity.
Qed.

(** X14. The API key cache has the weakness of the token cache: its key
    is made of the last sixteen characters only, and a cached user is
    returned without a look at its [exp]. Once a user has been cached
    for one API key, [validateApiKey] on any API key with the same last
    sixteen characters returns that user after one Redis GET, without a
    request to the auth service. *)
Theorem validateApiKey_suffix_collision
    (this : NexusAuthClient) (w : World call)
    (prefix1 prefix2 suffix : string) (u : AuthenticatedUser) (cache : Cache) :
  String.length suffix = 16%nat ->
  redis this <> None ->
  (forall c, w c = None) ->
  let key1 := prefix1 ++ suffix in
  let key2 := prefix2 ++ suffix in
  let cached := state_of (cacheApiKey remote this key1 u w cache) in
  validateApiKey remote post_validate_api_key this key2 w cached
  = (Ok u, cached, [RedisGet (apiKeyCacheKey key2)]).
Proof.
  intros Hlen Hredis Hw key1 key2 cached.
  assert (Hkey : apiKeyCacheKey key1 = apiKeyCacheKey key2).
  { unfold key1, key2. now rewrite !apiKeyCacheKey_suffix. }
  assert (Hcached : cached !! apiKeyCacheKey key2
                    = Some (JSON_stringify_user u, Date_now remote + 1000 * 3600)).
  { subst cached. unfold cacheApiKey. destruct (redis this); [| congruence].
    unfold redis_setex. eff_unfold. rewrite Hw. cbn. rewrite Hkey.
    apply lookup_insert_eq. }
  unfold validateApiKey, getCachedApiKey. destruct (redis this); [| congruence].
  unfold redis_get. eff_unfold. rewrite Hw, Hcached.
  assert (Hfresh : (Date_now remote <? Date_now remote + 1000 * 3600) = true)
    by (apply Z.ltb_lt; lia).
  rewrite Hfresh.
  pose proof (JSON_stringify_user_nonempty u) as Hne.
  pose proof (JSON_parse_stringify_user u) as Hparse.
  destruct (JSON_stringify_user u) as [|c s]; [congruence |].
  rewrite Hparse. reflexivity.
Qed.

(** X15. [logout] tells the auth service first and clears the cache
    only afterwards. When the request fails it throws
    [Failed to logout] and sends nothing to Redis, so the cached user
    stays; when the request succeeds it returns normally whatever Redis
    does, with the entry deleted only if the DEL went through. *)
Theorem logout_clears_the_cache_last
    (this : NexusAuthClient) (token : string) (w : World call) (cache : Cache) :
  (w (HttpPost "/v1/auth/logout") <> None ->
   logout this token w cache
   = (Throw (Error "Failed to logout"), cache,
      [HttpPost "/v1/auth/logout"; ConsoleError "Auth client response error:"]))
  /\ (w (HttpPost "/v1/auth/logout") = None ->
      result_of (logout this token w cache) = Ok tt
      /\ state_of (logout this token w cache)
         = match redis this, w (RedisDel (getCacheKey token)) with
           | Some _, None => base.delete (getCacheKey token) cache
           | _, _ => cache
           end).
Proof.
  unfold logout, http_request, invalidateToken, redis_del. split.
  - intros Hfail. eff_unfold.
    destruct (w (HttpPost "/v1/auth/logout")); [reflexivity | congruence].
  - intros Hok. eff_unfold. rewrite Hok.
    destruct (redis this); [| split; reflexivity].
    eff_unfold. destruct (w (RedisDel (getCacheKey token))); split; reflexivity.
Qed.

End ApiKeys.

Lemma validateApiKey_suffix_collision_witness :
  let cached :=
    Eff.state_of (Auth.cacheApiKey Reference.sample_remote Reference.sample_client
                    Reference.sample_api_key Reference.sample_user Reference.redis_up ∅) in
  Reference.sample_api_key <> Reference.other_api_key
  /\ Auth.validateApiKey Reference.sample_remote Reference.no_api_key_service
       Reference.sample_client Reference.other_api_key Reference.redis_up cached
     = (Ok Reference.sample_user, cached,
        [Auth.RedisGet (Auth.apiKeyCacheKey Reference.other_api_key)]).
Proof.
  intros cached. split; [discriminate |].
  apply (validateApiKey_suffix_collision (UJ := Reference.user_json)
           Reference.sample_remote Reference.no_api_key_service
           Reference.sample_client Reference.redis_up
           "sk_live_4eC39HqLyjWD" "guess-" Reference.sample_suffix
           Reference.sample_user ∅).
  - reflexivity.
  - discriminate.
  - reflexivity.
Defined.

Lemma logout_clears_the_cache_last_witness :
  let cached :=
    Eff.state_of (Auth.cacheToken Reference.sample_remote Reference.sample_client
                    Reference.sample_token Reference.sample_user Reference.redis_up ∅) in
  Auth.logout Reference.sample_client Reference.sample_token Reference.auth_down cached
  = (Throw (Error "Failed to logout"), cached,
     [Auth.HttpPost "/v1/auth/logout"; Auth.ConsoleError "Auth client response error:"])
  /\ cached !! Auth.getCacheKey Reference.sample_token <> None.
Proof.
  intros cached. split; [| vm_compute; discriminate].
  apply (proj1 (logout_clears_the_cache_last Reference.sample_client
                  Reference.sample_token Reference.auth_down cached)).
  discriminate.
Defined.

Section Quotas.

Import Auth.

Lemma existsb_eqb_false (s : string) (l : list string) :
  ~ In s l -> existsb (String.eqb s) l = false.
Proof.
  intros Hin. destruct (existsb (String.eqb s) l) eqn:He; [| reflexivity].
  apply existsb_exists in He. destruct He as (x & Hx & Heq).
  apply String.eqb_eq in Heq. now subst x.
Qed.

(** X16. [getTierQuotas] gives each of the three tiers of a user its own
    limits, and every other string the limits of [open_source], the
    lowest, with one exception: a name that [Object.prototype] defines is
    found on the prototype of the table, and what comes back is that
    member, not a record of limits. *)
Theorem getTierQuotas_falls_back_to_open_source :
  (forall t : Tier,
     getTierQuotas (tier_name t)
     = Limits match t with
              | open_source => open_source_quotas
              | teams => teams_quotas
              | government => government_quotas
              end)
  /\ (forall tier,
        tier <> "teams" -> tier <> "government" -> ~ In tier Object_prototype ->
        getTierQuotas tier = Limits open_source_quotas)
  /\ (forall tier, In tier Object_prototype -> getTierQuotas tier = Inherited tier).
Proof.
  split; [| split].
  - intros []; reflexivity.
  - intros tier Hteams Hgov Hproto. unfold getTierQuotas, quotas. cbn [Vault.assoc].
    destruct (String.eqb tier "open_source"); [reflexivity |].
    rewrite (proj2 (String.eqb_neq tier "teams") Hteams).
    rewrite (proj2 (String.eqb_neq tier "government") Hgov).
    now rewrite existsb_eqb_false.
  - intros tier Hin. unfold Object_prototype in Hin. cbn [In] in Hin.
    repeat (destruct Hin as [<- | Hin]; [reflexivity |]). contradiction.
Qed.

End Quotas.

Lemma getTierQuotas_falls_back_to_open_source_witness :
  Auth.getTierQuotas "enterprise" = Auth.Limits Auth.open_source_quotas
  /\ Auth.getTierQuotas "constructor" = Auth.Inherited "constructor".
Proof.
  destruct getTierQuotas_falls_back_to_open_source as (_ & Hother & Hproto).
  split.
  - apply Hother; try discriminate. cbn. intuition discriminate.
  - apply Hproto. cbn. tauto.
Defined.

(** ** Reasoning about runs *)

Section Ensures.

Import Eff.

Context {call state : Type}.

Lemma ensures_bind {A B : Type} (P : state -> Prop) (m : M call state A)
    (k : A -> M call state B) (R : A -> state -> Prop) (Q : result B -> state -> Prop) :
  ensures P m (fun r s => match r with Ok a => R a s | Throw e => Q (Throw e) s end) ->
  (forall a, ensures (R a) (k a) Q) ->
  ensures P (m ≫= k) Q.
Proof.
  intros Hm Hk w s Hs. specialize (Hm w s Hs).
  unfold mbind, M_bind, bind, result_of, state_of in *.
  destruct (m w s) as [[[a|e] s1] t1]; cbn [fst snd] in *; [| exact Hm].
  specialize (Hk a w s1 Hm). unfold result_of, state_of in Hk.
  now destruct (k a w s1) as [[r s2] t2].
Qed.

(** A step that keeps the invariant, followed by the rest. *)
Lemma ensures_then {A B : Type} (I : state -> Prop) (m : M call state A)
    (k : A -> M call state B) (Q : result B -> state -> Prop) :
  preserves I m ->
  (forall e s, I s -> Q (Throw e) s) ->
  (forall a, ensures I (k a) Q) ->
  ensures I (m ≫= k) Q.
Proof.
  intros Hm Hthrow Hk. apply (ensures_bind I m k (fun _ s => I s)); [| exact Hk].
  intros w s Hs. specialize (Hm w s Hs). unfold state_of, result_of in *.
  destruct (m w s) as [[[a|e] s1] t1]; cbn [fst snd] in *; auto.
Qed.

(** A step that cannot throw while the invariant holds, followed by the
    rest. *)
Lemma ensures_after {A B : Type} (I : state -> Prop) (m : M call state A)
    (k : A -> M call state B) (Q : result B -> state -> Prop) :
  ensures I m (fun r s => (exists a, r = Ok a) /\ I s) ->
  (forall a, ensures I (k a) Q) ->
  ensures I (m ≫= k) Q.
Proof.
  intros Hm Hk. apply (ensures_bind I m k (fun _ s => I s)); [| exact Hk].
  intros w s Hs. destruct (Hm w s Hs) as [[a Ha] Hi]. rewrite Ha. exact Hi.
Qed.

Lemma ensures_get {B : Type} (P : state -> Prop) (k : state -> M call state B)
    (Q : result B -> state -> Prop) :
  (forall s0, ensures (fun s => s = s0 /\ P s) (k s0) Q) ->
  ensures P (get ≫= k) Q.
Proof.
  intros Hk w s Hs. specialize (Hk s w s (conj eq_refl Hs)).
  unfold mbind, M_bind, bind, get, result_of, state_of in *.
  now destruct (k s w s) as [[r s1] t1].
Qed.

Lemma ensures_try_catch {A : Type} (P : state -> Prop) (body : M call state A)
    (handler : exn -> M call state A) (H : exn -> state -> Prop)
    (Q : result A -> state -> Prop) :
  ensures P body (fun r s => match r with Ok a => Q (Ok a) s | Throw e => H e s end) ->
  (forall e, ensures (H e) (handler e) Q) ->
  ensures P (try_catch body handler) Q.
Proof.
  intros Hb Hh w s Hs. specialize (Hb w s Hs).
  unfold try_catch, result_of, state_of in *.
  destruct (body w s) as [[[a|e] s1] t1]; cbn [fst snd] in *; [exact Hb |].
  specialize (Hh e w s1 Hb). unfold result_of, state_of in Hh.
  now destruct (handler e w s1) as [[r s2] t2].
Qed.

Lemma ensures_preserved {A : Type} (I : state -> Prop) (m : M call state A)
    (Q : result A -> state -> Prop) :
  preserves I m -> (forall r s, I s -> Q r s) -> ensures I m Q.
Proof. intros Hm Hq w s Hs. apply Hq. now apply Hm. Qed.

Lemma ensures_when (I : state -> Prop) (b : bool) (m : M call state unit)
    (Q : result unit -> state -> Prop) :
  ensures I m Q -> (forall s, I s -> Q (Ok tt) s) -> ensures I (when b m) Q.
Proof.
  intros Hm Hq. destruct b; [exact Hm |]. intros w s Hs. now apply Hq.
Qed.

Lemma ensures_weaken {A : Type} (P P' : state -> Prop) (m : M call state A)
    (Q Q' : result A -> state -> Prop) :
  ensures P' m Q' -> (forall s, P s -> P' s) -> (forall r s, Q' r s -> Q r s) ->
  ensures P m Q.
Proof. intros Hm Hp Hq w s Hs. apply Hq, Hm, Hp, Hs. Qed.

(** The state [modify f ;; rest] ends in. *)
Lemma state_of_modify_then {B : Type} (f : state -> state) (rest : M call state B)
    (w : World call) (s : state) :
  state_of ((modify f ;; rest) w s) = state_of (rest w (f s)).
Proof.
  unfold mbind, M_bind, bind, modify, state_of.
  now destruct (rest w (f s)) as [[r s1] t1].
Qed.

End Ensures.

(** ** The channel adapters: shutting down and reconnecting *)

Section ShuttingDown.

Import Eff Channels.

(** No method writes [false] to [isShuttingDown]. *)
Ltac keeps_flag :=
  repeat preserves_step; cbn in *; try assumption; try reflexivity.

Lemma telegram_keeps_shutting_down (a a' : Telegram.TelegramAdapter) :
  Telegram.step a a' -> Telegram.isShuttingDown a = true -> Telegram.isShuttingDown a' = true.
Proof.
  intros Hstep. destruct Hstep as [opts w a | w a | w a | st a]; intros Hsh.
  - revert w a Hsh.
    change (preserves (fun a => Telegram.isShuttingDown a = true) (Telegram.initialize opts)).
    unfold Telegram.initialize, Telegram.logger, Telegram.this_options. keeps_flag.
  - revert w a Hsh.
    change (preserves (fun a => Telegram.isShuttingDown a = true) Telegram.connect).
    unfold Telegram.connect, Telegram.startBot, Telegram.startPolling, Telegram.startWebhook,
      Telegram.bot_and_webhookUrl, Telegram.setupHandlers, Telegram.setupMiddleware,
      Telegram.onStatusChange, Telegram.logger, Telegram.this_options.
    keeps_flag.
  - revert w a Hsh.
    change (preserves (fun a => Telegram.isShuttingDown a = true) Telegram.disconnect).
    unfold Telegram.disconnect, Telegram.bot_and_webhookUrl, Telegram.onStatusChange,
      Telegram.logger, Telegram.this_options.
    keeps_flag.
  - exact Hsh.
Qed.

Lemma discord_connect_keeps_shutting_down :
  preserves (fun a => Discord.isShuttingDown a = true) Discord.connect.
Proof.
  unfold Discord.connect, Discord.registerSlashCommands, Discord.setupEventHandlers,
    Discord.onStatusChange, Discord.logger, Discord.this_options.
  keeps_flag.
Qed.

Lemma discord_keeps_shutting_down (a a' : Discord.DiscordAdapter) :
  Discord.step a a' -> Discord.isShuttingDown a = true -> Discord.isShuttingDown a' = true.
Proof.
  intros Hstep. destruct Hstep as [opts w a | w a | w a | w a | st a]; intros Hsh.
  - revert w a Hsh.
    change (preserves (fun a => Discord.isShuttingDown a = true) (Discord.initialize opts)).
    unfold Discord.initialize, Discord.logger, Discord.this_options. keeps_flag.
  - now apply discord_connect_keeps_shutting_down.
  - revert w a Hsh.
    change (preserves (fun a => Discord.isShuttingDown a = true) Discord.disconnect).
    unfold Discord.disconnect, Discord.onStatusChange, Discord.logger, Discord.this_options.
    keeps_flag.
  - revert w a Hsh.
    change (preserves (fun a => Discord.isShuttingDown a = true) Discord.onShardDisconnect).
    unfold Discord.onShardDisconnect, Discord.attemptReconnect.
    repeat first [ apply discord_connect_keeps_shutting_down
                 | progress unfold Discord.logger, Discord.this_options
                 | preserves_step ]; cbn in *; try assumption; try reflexivity.
  - exact Hsh.
Qed.

Lemma whatsapp_startSocket_keeps_shutting_down :
  preserves (fun a => WhatsApp.isShuttingDown a = true) WhatsApp.startSocket.
Proof.
  unfold WhatsApp.startSocket, WhatsApp.setupEventHandlers, WhatsApp.logger,
    WhatsApp.this_options.
  keeps_flag.
Qed.

Lemma whatsapp_keeps_shutting_down (a a' : WhatsApp.WhatsAppAdapter) :
  WhatsApp.step a a' -> WhatsApp.isShuttingDown a = true -> WhatsApp.isShuttingDown a' = true.
Proof.
  intros Hstep. destruct Hstep as [dir opts w a | w a | w a | update w a | w a | st a];
    intros Hsh.
  - revert w a Hsh.
    change (preserves (fun a => WhatsApp.isShuttingDown a = true)
              (WhatsApp.initialize dir opts)).
    unfold WhatsApp.initialize, WhatsApp.logger, WhatsApp.this_options. keeps_flag.
  - revert w a Hsh.
    change (preserves (fun a => WhatsApp.isShuttingDown a = true) WhatsApp.connect).
    unfold WhatsApp.connect.
    repeat first [ apply whatsapp_startSocket_keeps_shutting_down
                 | progress unfold WhatsApp.onStatusChange, WhatsApp.logger,
                     WhatsApp.this_options
                 | preserves_step ]; cbn in *; try assumption; try reflexivity.
  - revert w a Hsh.
    change (preserves (fun a => WhatsApp.isShuttingDown a = true) WhatsApp.disconnect).
    unfold WhatsApp.disconnect, WhatsApp.onStatusChange, WhatsApp.logger,
      WhatsApp.this_options.
    keeps_flag.
  - revert w a Hsh.
    change (preserves (fun a => WhatsApp.isShuttingDown a = true)
              (WhatsApp.handleConnectionUpdate update)).
    unfold WhatsApp.handleConnectionUpdate, WhatsApp.handleConnectionOpen,
      WhatsApp.handleConnectionClose, WhatsApp.updateConfigWithQR, WhatsApp.onStatusChange,
      WhatsApp.logger, WhatsApp.this_options.
    keeps_flag.
  - now apply whatsapp_startSocket_keeps_shutting_down.
  - exact Hsh.
Qed.

(** [disconnect] raises the flag before anything else, so it is up
    afterwards even when [disconnect] throws. *)
Lemma disconnect_raises_the_flag (v : Variant) (w : World call) (a : Adapter v) :
  shutting_down v (state_of (disconnect v w a)) = true.
Proof.
  destruct v; cbn [disconnect shutting_down].
  - unfold Telegram.disconnect. rewrite state_of_modify_then.
    match goal with
    | |- _ (state_of (?rest w ?s)) = true =>
        enough (preserves (fun a => Telegram.isShuttingDown a = true) rest) as Hrest
          by (apply Hrest; reflexivity)
    end.
    unfold Telegram.bot_and_webhookUrl, Telegram.onStatusChange, Telegram.logger,
      Telegram.this_options.
    keeps_flag.
  - unfold Discord.disconnect. rewrite state_of_modify_then.
    match goal with
    | |- _ (state_of (?rest w ?s)) = true =>
        enough (preserves (fun a => Discord.isShuttingDown a = true) rest) as Hrest
          by (apply Hrest; reflexivity)
    end.
    unfold Discord.onStatusChange, Discord.logger, Discord.this_options.
    keeps_flag.
  - unfold WhatsApp.disconnect. rewrite state_of_modify_then.
    match goal with
    | |- _ (state_of (?rest w ?s)) = true =>
        enough (preserves (fun a => WhatsApp.isShuttingDown a = true) rest) as Hrest
          by (apply Hrest; reflexivity)
    end.
    unfold WhatsApp.onStatusChange, WhatsApp.logger, WhatsApp.this_options.
    keeps_flag.
Qed.

Lemma later_keeps_shutting_down (v : Variant) (a a' : Adapter v) :
  later v a a' -> shutting_down v a = true -> shutting_down v a' = true.
Proof.
  destruct v; cbn [later shutting_down]; induction 1 as [|a b c Hstep _ IH]; auto;
    intros Hsh; apply IH.
  - exact (telegram_keeps_shutting_down a b Hstep Hsh).
  - exact (discord_keeps_shutting_down a b Hstep Hsh).
  - exact (whatsapp_keeps_shutting_down a b Hstep Hsh).
Qed.

(** X17. [disconnect] ends automatic reconnection for good. No method
    writes [isShuttingDown] back to [false]: after a call of
    [disconnect], whatever is done with the adapter afterwards
    (initialize, connect, connection updates, timers), the flag is up,
    and a connection that drops for a transient reason sets no timer and
    enters no connect path, even when the adapter has been connected
    again in the meantime. *)
Theorem disconnect_ends_reconnection
    (v : Variant) (w w' : World call) (a a' : Adapter v) :
  later v (state_of (disconnect v w a)) a' ->
  shutting_down v a' = true
  /\ existsb reconnect_call (trace_of (onTransientDisconnect v w' a')) = false.
Proof.
  intros Hlater.
  assert (Hsh : shutting_down v a' = true).
  { apply (later_keeps_shutting_down v _ a' Hlater), disconnect_raises_the_flag. }
  split; [exact Hsh |].
  destruct v; cbn [onTransientDisconnect shutting_down] in *.
  - reflexivity.
  - destruct a' as [c [o|] st stats sh t]; cbn in Hsh; subst sh; reflexivity.
  - destruct a' as [so [o|] st stats dir q n m sh t]; cbn in Hsh; subst sh;
      [| reflexivity].
    unfold WhatsApp.handleConnectionUpdate, WhatsApp.handleConnectionClose,
      WhatsApp.onStatusChange, WhatsApp.logger, WhatsApp.this_options.
    eff_unfold. cbn -[Nat.ltb WhatsApp.backoff_delay]. rewrite andb_false_r.
    destruct (w' (OnStatusChange DISCONNECTED None)); reflexivity.
Qed.

End ShuttingDown.

Lemma disconnect_ends_reconnection_witness :
  let stopped :=
    Eff.state_of (Channels.disconnect Channels.whatsapp Channels.all_resolve
                    (Channels.connected Channels.whatsapp)) in
  let again :=
    Eff.state_of (Channels.WhatsApp.handleConnectionUpdate Channels.open_update
                    Channels.all_resolve
                    (Eff.state_of (Channels.WhatsApp.connect Channels.all_resolve stopped))) in
  Channels.getStatus Channels.whatsapp again = CONNECTED
  /\ Channels.shutting_down Channels.whatsapp again = true
  /\ existsb Channels.reconnect_call
       (Eff.trace_of (Channels.onTransientDisconnect Channels.whatsapp
                        Channels.all_resolve again)) = false.
Proof.
  intros stopped again. split; [vm_compute; reflexivity |].
  apply (disconnect_ends_reconnection Channels.whatsapp Channels.all_resolve
           Channels.all_resolve (Channels.connected Channels.whatsapp) again).
  cbn [Channels.later].
  eapply rtc_l; [apply Channels.WhatsApp.step_connect |].
  eapply rtc_l; [apply Channels.WhatsApp.step_update |].
  apply rtc_refl.
Defined.

(** ** The channel adapters: what [connect] leaves behind *)

Section ConnectOutcome.

Import Eff Channels.

(** The [catch] block of [connect], on an adapter that has been
    initialized: the status is [error] and the error goes on. *)
Lemma telegram_connect_catch (e : exn) :
  ensures Telegram.is_initialized
    (Telegram.logger LError "Failed to connect to Telegram";;
     modify (Telegram.set_status ERROR);;
     Telegram.onStatusChange ERROR (Some (message e));;
     (throw e : Telegram.Method unit))
    (fun r s => match r with
                | Ok _ => False
                | Throw _ => Telegram.status s = ERROR
                end).
Proof.
  intros w s Hs. destruct s as [b [o|] st stats r sh t]; [| now cbn in Hs].
  unfold Telegram.onStatusChange, Telegram.logger, Telegram.this_options.
  eff_unfold. cbn. destruct (w (OnStatusChange ERROR (Some (message e)))); reflexivity.
Qed.

Lemma telegram_connect_outcome (w : World call) (a : Telegram.TelegramAdapter) :
  Telegram.options a <> None -> Telegram.status a <> CONNECTED ->
  match result_of (Telegram.connect w a) with
  | Ok _ => Telegram.status (state_of (Telegram.connect w a)) = CONNECTED
  | Throw _ => Telegram.status (state_of (Telegram.connect w a)) = ERROR
  end.
Proof.
  intros Ho Hst.
  enough (Hens : ensures (fun s => Telegram.options s <> None /\ Telegram.status s <> CONNECTED)
                   Telegram.connect
                   (fun r s => match r with
                               | Ok _ => Telegram.status s = CONNECTED
                               | Throw _ => Telegram.status s = ERROR
                               end)) by (apply (Hens w a); auto).
  unfold Telegram.connect. apply ensures_get. intros s0 w' s [Heq [Ho' Hst']]. subst s0.
  rewrite (bool_decide_eq_false_2 _ Hst'). revert w' s Ho' Hst'.
  enough (Hens : ensures Telegram.is_initialized
            (try_catch
               (modify (Telegram.set_status CONNECTING);;
                Telegram.onStatusChange CONNECTING None;;
                Telegram.logger LInfo "Connecting to Telegram...";;
                Telegram.this_options;;
                ext NewBot;;
                modify (Telegram.set_bot (Some Telegram.the_bot));;
                Telegram.setupMiddleware;;
                Telegram.setupHandlers;;
                Telegram.startBot;;
                modify (Telegram.set_status CONNECTED);;
                Telegram.onStatusChange CONNECTED None;;
                Telegram.logger LInfo "Telegram bot connected successfully")
               (fun e =>
                  Telegram.logger LError "Failed to connect to Telegram";;
                  modify (Telegram.set_status ERROR);;
                  Telegram.onStatusChange ERROR (Some (message e));;
                  throw e))
            (fun r s => match r with
                        | Ok _ => Telegram.status s = CONNECTED
                        | Throw _ => Telegram.status s = ERROR
                        end)) by (intros w' s Ho' _; now apply Hens).
  apply (ensures_try_catch _ _ _ (fun _ s => Telegram.is_initialized s)).
  2: { intros e. eapply ensures_weaken; [apply telegram_connect_catch | auto |].
       intros [u|e'] s; [contradiction | auto]. }
  do 9 (apply ensures_then;
        [ unfold Telegram.startBot, Telegram.startPolling, Telegram.startWebhook,
            Telegram.bot_and_webhookUrl, Telegram.setupHandlers, Telegram.setupMiddleware,
            Telegram.onStatusChange, Telegram.logger, Telegram.this_options;
          repeat preserves_step; assumption
        | intros e s Hs; exact Hs
        | intros _ ]).
  intros w' s Hs. destruct s as [b [o|] st stats r sh t]; [| now cbn in Hs].
  unfold Telegram.onStatusChange, Telegram.logger, Telegram.this_options.
  eff_unfold. cbn. destruct (w' (OnStatusChange CONNECTED None)); [discriminate | reflexivity].
Qed.

Lemma discord_connect_catch (e : exn) :
  ensures Discord.is_initialized
    (Discord.logger LError "Failed to connect to Discord";;
     modify (Discord.set_status ERROR);;
     Discord.onStatusChange ERROR (Some (message e));;
     (throw e : Discord.Method unit))
    (fun r s => match r with
                | Ok _ => False
                | Throw _ => Discord.status s = ERROR
                end).
Proof.
  intros w s Hs. destruct s as [c [o|] st stats sh t]; [| now cbn in Hs].
  unfold Discord.onStatusChange, Discord.logger, Discord.this_options.
  eff_unfold. cbn. destruct (w (OnStatusChange ERROR (Some (message e)))); reflexivity.
Qed.

Lemma discord_connect_outcome (w : World call) (a : Discord.DiscordAdapter) :
  Discord.options a <> None -> Discord.status a <> CONNECTED ->
  match result_of (Discord.connect w a) with
  | Ok _ => Discord.status (state_of (Discord.connect w a)) = CONNECTED
  | Throw _ => Discord.status (state_of (Discord.connect w a)) = ERROR
  end.
Proof.
  intros Ho Hst.
  enough (Hens : ensures (fun s => Discord.options s <> None /\ Discord.status s <> CONNECTED)
                   Discord.connect
                   (fun r s => match r with
                               | Ok _ => Discord.status s = CONNECTED
                               | Throw _ => Discord.status s = ERROR
                               end)) by (apply (Hens w a); auto).
  unfold Discord.connect. apply ensures_get. intros s0 w' s [Heq [Ho' Hst']]. subst s0.
  rewrite (bool_decide_eq_false_2 _ Hst'). revert w' s Ho' Hst'.
  enough (Hens : ensures Discord.is_initialized
            (try_catch
               (modify (Discord.set_status CONNECTING);;
                Discord.onStatusChange CONNECTING None;;
                Discord.logger LInfo "Connecting to Discord...";;
                Discord.this_options;;
                ext NewClient;;
                modify (Discord.set_client (Some Discord.the_client));;
                Discord.setupEventHandlers;;
                Discord.this_options;;
                ext ClientLogin;;
                Discord.registerSlashCommands;;
                modify (Discord.set_status CONNECTED);;
                Discord.onStatusChange CONNECTED None;;
                Discord.logger LInfo "Discord bot connected successfully")
               (fun e =>
                  Discord.logger LError "Failed to connect to Discord";;
                  modify (Discord.set_status ERROR);;
                  Discord.onStatusChange ERROR (Some (message e));;
                  throw e))
            (fun r s => match r with
                        | Ok _ => Discord.status s = CONNECTED
                        | Throw _ => Discord.status s = ERROR
                        end)) by (intros w' s Ho' _; now apply Hens).
  apply (ensures_try_catch _ _ _ (fun _ s => Discord.is_initialized s)).
  2: { intros e. eapply ensures_weaken; [apply discord_connect_catch | auto |].
       intros [u|e'] s; [contradiction | auto]. }
  do 10 (apply ensures_then;
         [ unfold Discord.registerSlashCommands, Discord.setupEventHandlers,
             Discord.onStatusChange, Discord.logger, Discord.this_options;
           repeat preserves_step; assumption
         | intros e s Hs; exact Hs
         | intros _ ]).
  intros w' s Hs. destruct s as [c [o|] st stats sh t]; [| now cbn in Hs].
  unfold Discord.onStatusChange, Discord.logger, Discord.this_options.
  eff_unfold. cbn. destruct (w' (OnStatusChange CONNECTED None)); [discriminate | reflexivity].
Qed.

Lemma whatsapp_connect_catch (e : exn) :
  ensures WhatsApp.is_initialized
    (WhatsApp.logger LError "Failed to connect to WhatsApp";;
     modify (WhatsApp.set_status ERROR);;
     WhatsApp.onStatusChange ERROR (Some (message e));;
     (throw e : WhatsApp.Method unit))
    (fun r s => match r with
                | Ok _ => False
                | Throw _ => WhatsApp.status s = ERROR
                end).
Proof.
  intros w s Hs. destruct s as [so [o|] st stats dir q n m sh t]; [| now cbn in Hs].
  unfold WhatsApp.onStatusChange, WhatsApp.logger, WhatsApp.this_options.
  eff_unfold. cbn. destruct (w (OnStatusChange ERROR (Some (message e)))); reflexivity.
Qed.

Lemma whatsapp_connect_outcome (w : World call) (a : WhatsApp.WhatsAppAdapter) :
  WhatsApp.options a <> None -> WhatsApp.status a <> CONNECTED ->
  match result_of (WhatsApp.connect w a) with
  | Ok _ => WhatsApp.status (state_of (WhatsApp.connect w a)) = CONNECTING
  | Throw _ => WhatsApp.status (state_of (WhatsApp.connect w a)) = ERROR
  end.
Proof.
  intros Ho Hst.
  enough (Hens : ensures (fun s => WhatsApp.options s <> None /\ WhatsApp.status s <> CONNECTED)
                   WhatsApp.connect
                   (fun r s => match r with
                               | Ok _ => WhatsApp.status s = CONNECTING
                               | Throw _ => WhatsApp.status s = ERROR
                               end)) by (apply (Hens w a); auto).
  unfold WhatsApp.connect. apply ensures_get. intros s0 w' s [Heq [Ho' Hst']]. subst s0.
  rewrite (bool_decide_eq_false_2 _ Hst'). revert w' s Ho' Hst'.
  enough (Hens : ensures WhatsApp.is_initialized
            (try_catch
               (modify (WhatsApp.set_status CONNECTING);;
                WhatsApp.onStatusChange CONNECTING None;;
                WhatsApp.logger LInfo "Connecting to WhatsApp...";;
                WhatsApp.startSocket)
               (fun e =>
                  WhatsApp.logger LError "Failed to connect to WhatsApp";;
                  modify (WhatsApp.set_status ERROR);;
                  WhatsApp.onStatusChange ERROR (Some (message e));;
                  throw e))
            (fun r s => match r with
                        | Ok _ => WhatsApp.status s = CONNECTING
                        | Throw _ => WhatsApp.status s = ERROR
                        end)) by (intros w' s Ho' _; now apply Hens).
  apply (ensures_try_catch _ _ _ (fun _ s => WhatsApp.is_initialized s)).
  2: { intros e. eapply ensures_weaken; [apply whatsapp_connect_catch | auto |].
       intros [u|e'] s; [contradiction | auto]. }
  set (I1 := fun s => WhatsApp.is_initialized s /\ WhatsApp.status s = CONNECTING).
  apply (ensures_bind _ _ _ (fun _ s => I1 s)).
  { intros w' s Hs. cbn. split; [exact Hs | reflexivity]. }
  intros _.
  do 2 (apply ensures_then;
        [ unfold WhatsApp.onStatusChange, WhatsApp.logger, WhatsApp.this_options;
          repeat preserves_step; assumption
        | intros e s Hs; exact (proj1 Hs)
        | intros _ ]).
  apply ensures_preserved.
  - unfold WhatsApp.startSocket, WhatsApp.setupEventHandlers, WhatsApp.logger,
      WhatsApp.this_options.
    repeat preserves_step; assumption.
  - intros [u|e] s [Hi Hc]; assumption.
Qed.

(** X18. What [connect] leaves behind, on an adapter that has been
    initialized and is not connected, whatever fails on the way: when it
    returns, the status is connected (Telegram, Discord) or, for
    WhatsApp, whose connection only opens later, connecting; when it
    throws, the status is error. *)
Theorem connect_settles_the_status (v : Variant) (a : Adapter v) (w : World call) :
  initialized v a = true ->
  getStatus v a <> CONNECTED ->
  match result_of (connect v w a) with
  | Ok _ =>
      getStatus v (state_of (connect v w a))
      = match v with whatsapp => CONNECTING | _ => CONNECTED end
  | Throw _ => getStatus v (state_of (connect v w a)) = ERROR
  end.
Proof.
  intros Hinit Hst. destruct v; cbn in *; apply bool_decide_eq_true in Hinit.
  - now apply telegram_connect_outcome.
  - now apply discord_connect_outcome.
  - now apply whatsapp_connect_outcome.
Qed.

End ConnectOutcome.

Lemma connect_settles_the_status_witness :
  let a :=
    Eff.state_of (Channels.Discord.initialize Channels.sample_discord Channels.all_resolve
                    (Channels.Discord.new 0)) in
  Channels.getStatus Channels.discord
    (Eff.state_of (Channels.connect Channels.discord Channels.login_rejects a)) = ERROR.
Proof.
  intros a.
  assert (Hinit : Channels.initialized Channels.discord a = true) by (vm_compute; reflexivity).
  assert (Hst : Channels.getStatus Channels.discord a <> CONNECTED) by (vm_compute; discriminate).
  pose proof (connect_settles_the_status Channels.discord a Channels.login_rejects Hinit Hst)
    as Hconnect.
  assert (Hthrow : match Eff.result_of (Channels.connect Channels.discord
                                          Channels.login_rejects a) with
                   | Ok _ => false
                   | Throw _ => true
                   end = true) by (vm_compute; reflexivity).
  destruct (Eff.result_of (Channels.connect Channels.discord Channels.login_rejects a));
    [discriminate | exact Hconnect].
Defined.

(** ** The Discord adapter: the shard listener *)

Section ShardDisconnect.

Import Eff Channels.

Lemma discord_logger_returns (level : LogLevel) (msg : string) :
  ensures Discord.is_initialized (Discord.logger level msg)
    (fun r s => (exists a, r = Ok a) /\ Discord.is_initialized s).
Proof.
  intros w s Hs. destruct s as [c [o|] st stats sh t]; [| now cbn in Hs].
  unfold Discord.logger, Discord.this_options. eff_unfold. cbn. split; [eauto | discriminate].
Qed.

(** X19. The listener of a shard disconnect, whose promise nobody
    awaits, never throws on an adapter that has been initialized:
    whatever fails while the client is destroyed or the connection is
    made again is caught and logged. *)
Theorem shard_listener_never_throws (w : World call) (a : Discord.DiscordAdapter) :
  Discord.options a <> None ->
  result_of (Discord.onShardDisconnect w a) = Ok tt.
Proof.
  intros Ho.
  enough (Hens : ensures Discord.is_initialized Discord.onShardDisconnect
                   (fun r _ => r = Ok tt)) by now apply (Hens w a).
  unfold Discord.onShardDisconnect.
  apply ensures_after; [apply discord_logger_returns | intros _].
  apply ensures_get. intros s0.
  eapply ensures_weaken with (P' := Discord.is_initialized) (Q' := fun r _ => r = Ok tt);
    [| now intros s [_ Hs] | auto].
  apply ensures_when; [| reflexivity].
  unfold Discord.attemptReconnect.
  apply ensures_after; [apply discord_logger_returns | intros _].
  apply (ensures_try_catch _ _ _ (fun _ s => Discord.is_initialized s)).
  - apply ensures_preserved.
    + unfold Discord.connect, Discord.registerSlashCommands, Discord.setupEventHandlers,
        Discord.onStatusChange, Discord.logger, Discord.this_options.
      repeat preserves_step; assumption.
    + intros [[]|e] s Hs; [reflexivity | exact Hs].
  - intros e. eapply ensures_weaken; [apply discord_logger_returns | auto |].
    intros r s [[[] ->] _]. reflexivity.
Qed.

(** X20. A shard disconnect on an adapter whose status is still
    connected, which is the status a dropped connection leaves, does not
    bring the connection back: the client is destroyed, [connect] sees
    the status and returns, and no client is made and no login sent. The
    adapter is left as it was. *)
Theorem shard_disconnect_when_connected_never_logs_in
    (w : World call) (a : Discord.DiscordAdapter) :
  Discord.options a <> None ->
  Discord.status a = CONNECTED ->
  state_of (Discord.onShardDisconnect w a) = a
  /\ (Discord.client a <> None -> Discord.isShuttingDown a = false ->
      In ClientDestroy (trace_of (Discord.onShardDisconnect w a)))
  /\ ~ In NewClient (trace_of (Discord.onShardDisconnect w a))
  /\ ~ In ClientLogin (trace_of (Discord.onShardDisconnect w a)).
Proof.
  intros Ho Hst. destruct a as [c [o|] st stats sh t]; [| now cbn in Ho].
  cbn in Hst. subst st.
  unfold Discord.onShardDisconnect, Discord.attemptReconnect, Discord.connect,
    Discord.logger, Discord.this_options.
  destruct sh, c as [[]|]; lazy;
    try destruct (w ClientDestroy); lazy;
    (split; [reflexivity | split; [intros Hc Hsh; try congruence; auto 10 |]]);
    split; intros Hin; repeat (destruct Hin as [Hin|Hin]; [discriminate |]); exact Hin.
Qed.

End ShardDisconnect.

Lemma shard_listener_never_throws_witness :
  Eff.result_of (Channels.Discord.onShardDisconnect Channels.login_rejects
                   Channels.failed_discord) = Ok tt
  /\ In Channels.ClientLogin
       (Eff.trace_of (Channels.Discord.onShardDisconnect Channels.login_rejects
                        Channels.failed_discord)).
Proof.
  split.
  - apply (shard_listener_never_throws Channels.login_rejects Channels.failed_discord).
    vm_compute. discriminate.
  - vm_compute. tauto.
Defined.

Lemma shard_disconnect_when_connected_never_logs_in_witness :
  Channels.Discord.client Channels.connected_discord <> None
  /\ ~ In Channels.ClientLogin
         (Eff.trace_of (Channels.Discord.onShardDisconnect Channels.all_resolve
                          Channels.connected_discord)).
Proof.
  split; [vm_compute; discriminate |].
  apply (shard_disconnect_when_connected_never_logs_in Channels.all_resolve
           Channels.connected_discord).
  - vm_compute. discriminate.
  - vm_compute. reflexivity.
Defined.

(** ** The WhatsApp adapter: a reconnect timer that outlives [disconnect] *)

Section LateTimer.

Import Eff Channels.

Lemma whatsapp_disconnect_returned (w : World call) (a : WhatsApp.WhatsAppAdapter) :
  WhatsApp.options a <> None ->
  result_of (WhatsApp.disconnect w a) = Ok tt ->
  let a' := state_of (WhatsApp.disconnect w a) in
  WhatsApp.options a' <> None /\ WhatsApp.socket a' = None
  /\ WhatsApp.status a' = DISCONNECTED /\ WhatsApp.isShuttingDown a' = true.
Proof.
  intros Ho. destruct a as [so [o|] st stats dir q n m sh t]; [| now cbn in Ho].
  unfold WhatsApp.disconnect, WhatsApp.onStatusChange, WhatsApp.logger, WhatsApp.this_options.
  destruct so as [[]|]; eff_unfold; cbn;
    try (destruct (w SocketLogout); cbn; [discriminate |]);
    destruct (w (OnStatusChange DISCONNECTED None)); cbn; try discriminate;
    intros _; repeat split; discriminate.
Qed.

(** X21. [startSocket], which a reconnect timer runs, looks neither at
    [isShuttingDown] nor at the status: a timer set before [disconnect]
    and firing after it makes a socket again when its calls go through,
    and the adapter then holds a socket while its status says
    disconnected. *)
Theorem late_timer_reopens_the_socket
    (w w' : World call) (a : WhatsApp.WhatsAppAdapter) :
  WhatsApp.options a <> None ->
  result_of (WhatsApp.disconnect w a) = Ok tt ->
  (forall c, In c socket_calls -> w' c = None) ->
  let a' := state_of (WhatsApp.startSocket w' (state_of (WhatsApp.disconnect w a))) in
  In MakeWASocket (trace_of (WhatsApp.startSocket w' (state_of (WhatsApp.disconnect w a))))
  /\ WhatsApp.socket a' = Some WhatsApp.the_socket
  /\ WhatsApp.status a' = DISCONNECTED
  /\ WhatsApp.isShuttingDown a' = true.
Proof.
  intros Ho Hok Hw.
  destruct (whatsapp_disconnect_returned w a Ho Hok) as (Ho' & Hso & Hst & Hsh).
  destruct (state_of (WhatsApp.disconnect w a)) as [so [o|] st stats dir q n m sh t];
    [| now cbn in Ho'].
  cbn in Hso, Hst, Hsh. subst so st sh.
  unfold WhatsApp.startSocket, WhatsApp.setupEventHandlers, WhatsApp.logger,
    WhatsApp.this_options.
  repeat (progress (eff_unfold; cbn; rewrite ?Hw by (unfold socket_calls; cbn; auto 10))).
  repeat split. auto 10.
Qed.

End LateTimer.

Lemma late_timer_reopens_the_socket_witness :
  let stopped :=
    Eff.state_of (Channels.disconnect Channels.whatsapp Channels.all_resolve
                    (Channels.connected Channels.whatsapp)) in
  Channels.WhatsApp.socket stopped = None
  /\ Channels.WhatsApp.socket
       (Eff.state_of (Channels.WhatsApp.startSocket Channels.all_resolve stopped))
     = Some Channels.WhatsApp.the_socket.
Proof.
  intros stopped. split; [vm_compute; reflexivity |].
  apply (late_timer_reopens_the_socket Channels.all_resolve Channels.all_resolve
           (Channels.connected Channels.whatsapp)).
  - vm_compute. discriminate.
  - vm_compute. reflexivity.
  - intros c _. reflexivity.
Defined.

(** ** The realtime gateway: rooms *)

Section Rooms.

Import Eff Realtime.

Lemma org_room_has_colon (org : string) : JS.includes ("org:" ++ org) ":" = true.
Proof. destruct org; reflexivity. Qed.

Lemma org_room_inj (org org' : string) : "org:" ++ org = "org:" ++ org' -> org = org'.
Proof. cbv [String.append]. now intros [= ->]. Qed.

(** Among the rooms of a connected socket, the only room of an
    organization is that of its own. *)
Lemma connected_org_room (sk : Socket) (org : string) :
  connected sk ->
  "org:" ++ org ∈ rooms sk <-> organizationId (data sk) = org.
Proof.
  intros (Hid & Hown & Hrooms). split.
  - intros Hin. destruct (Hrooms _ Hin) as [Heq | [Heq | [Heq | [x Heq]]]].
    + rewrite <- Heq, org_room_has_colon in Hid. discriminate.
    + symmetry. now apply org_room_inj.
    + cbv [String.append] in Heq. discriminate.
    + cbv [String.append] in Heq. discriminate.
  - intros <-. exact Hown.
Qed.

Lemma kept_set_connectionCount (i : string) (n : Z) (s : Scope) :
  kept i s -> kept i (set_connectionCount n s).
Proof. auto. Qed.

Lemma kept_set_sessionId (i : string) (x : option string) (s : Scope) :
  kept i s -> kept i (set_sessionId x s).
Proof. auto. Qed.

Lemma kept_join_session (i session : string) (s : Scope) :
  kept i s -> kept i (set_rooms ({["session:" ++ session]} ∪ rooms (socket s)) s).
Proof.
  intros (Hi & Hid & Hown & Hrooms). split; [exact Hi |]. split; [exact Hid |].
  cbn [socket set_rooms rooms data id]. split; [set_solver |].
  intros room [Hin | Hin]%elem_of_union.
  - apply elem_of_singleton in Hin. right. right. right. now exists session.
  - apply (Hrooms room Hin).
Qed.

Lemma kept_join_user (i : string) (s : Scope) :
  kept i s ->
  kept i (set_rooms ({["user:" ++ userId (data (socket s))]} ∪ rooms (socket s)) s).
Proof.
  intros (Hi & Hid & Hown & Hrooms). split; [exact Hi |]. split; [exact Hid |].
  cbn [socket set_rooms rooms data id]. split; [set_solver |].
  intros room [Hin | Hin]%elem_of_union.
  - apply elem_of_singleton in Hin. right. right. now left.
  - apply (Hrooms room Hin).
Qed.

Lemma kept_leave_session (i session : string) (s : Scope) :
  kept i s -> kept i (set_rooms (rooms (socket s) ∖ {["session:" ++ session]}) s).
Proof.
  intros (Hi & Hid & Hown & Hrooms). split; [exact Hi |]. split; [exact Hid |].
  cbn [socket set_rooms rooms data id]. split.
  - apply elem_of_difference. split; [exact Hown |].
    intros Heq%elem_of_singleton. cbv [String.append] in Heq. discriminate.
  - intros room [Hin _]%elem_of_difference. apply (Hrooms room Hin).
Qed.

Ltac keeps_socket :=
  unfold handleSessionCreate, handleSessionJoin, handleSessionLeave, handleMessageSend,
    handleSkillExecute, handleError, handleDisconnect, broadcastToOrg, broadcastToSession,
    socket_emit, socket_on, socket_join, socket_leave, read;
  repeat preserves_step;
  first [ assumption
        | now apply kept_set_connectionCount
        | now apply kept_set_sessionId
        | now apply kept_join_session
        | now apply kept_leave_session ].

Lemma client_event_keeps (i : string) (m : Method unit) :
  client_event m -> preserves (kept i) m.
Proof. intros []; keeps_socket. Qed.

Lemma handleDisconnect_keeps (i : string) : preserves (kept i) handleDisconnect.
Proof. keeps_socket. Qed.

(** [handleConnection] puts a new socket in the room of its
    organization. *)
Lemma handleConnection_connects (w : World call) (s : Scope) :
  rooms (socket s) = {[id (socket s)]} ->
  JS.includes (id (socket s)) ":" = false ->
  kept (id (socket s)) (state_of (handleConnection w s)).
Proof.
  intros Hrooms Hid.
  enough (Hens : ensures (fun s' => s' = s) handleConnection
                   (fun _ s' => kept (id (socket s)) s')) by now apply (Hens w s).
  unfold handleConnection. apply ensures_get. intros s0.
  apply (ensures_bind _ _ _
           (fun _ s' => kept (id (socket s))
                          (set_rooms ({["org:" ++ organizationId (data (socket s0))]}
                                      ∪ rooms (socket s')) s')
                        /\ data (socket s') = data (socket s0))).
  { intros w' s' [Hs0 Hs]. subst s0 s'. cbn. split; [| reflexivity].
    split; [reflexivity |]. split; [exact Hid |]. cbn. split.
    { apply elem_of_union. left. now apply elem_of_singleton. }
    intros room [Hin | Hin]%elem_of_union.
    - apply elem_of_singleton in Hin. right. now left.
    - rewrite Hrooms in Hin. apply elem_of_singleton in Hin. now left. }
  intros _.
  apply (ensures_bind _ _ _
           (fun _ s' => kept (id (socket s))
                          (set_rooms ({["org:" ++ organizationId (data (socket s0))]}
                                      ∪ rooms (socket s')) s')
                        /\ data (socket s') = data (socket s0))).
  { intros w' s' Hs'. exact Hs'. }
  intros _.
  apply (ensures_bind _ _ _
           (fun _ s' => kept (id (socket s)) s' /\ data (socket s') = data (socket s0))).
  { intros w' s' [Hs' Hdata]. cbn. split; [exact Hs' | exact Hdata]. }
  intros _.
  apply (ensures_bind _ _ _ (fun _ s' => kept (id (socket s)) s')).
  { intros w' s' [Hs' Hdata]. cbn. rewrite <- Hdata. now apply kept_join_user. }
  intros _.
  apply ensures_preserved; [| auto].
  unfold socket_emit, socket_on. repeat preserves_step; assumption.
Qed.

Lemma step_keeps_connected (h h' : Hub) :
  step h h' -> hub_connected h -> hub_connected h'.
Proof.
  intros Hstep Hh. destruct Hstep as [w sk h Hnew Hrooms Hid | m w sk h Hm Hsk | w sk h Hsk];
    intros i sk'; cbn.
  - destruct (decide (id sk = i)) as [<- | Hne].
    + rewrite lookup_insert_eq. intros [= <-].
      apply (handleConnection_connects w {| this := gateway h; socket := sk |} Hrooms Hid).
    + rewrite lookup_insert_ne by exact Hne. apply Hh.
  - destruct (decide (id sk = i)) as [<- | Hne].
    + rewrite lookup_insert_eq. intros [= <-].
      apply (client_event_keeps (id sk) m Hm w {| this := gateway h; socket := sk |}).
      split; [reflexivity | apply (Hh _ _ Hsk)].
    + rewrite lookup_insert_ne by exact Hne. apply Hh.
  - intros [_ Hlook]%lookup_delete_Some. now apply Hh.
Qed.

(** X22. A broadcast to the room of an organization reaches exactly the
    connected sockets whose token named that organization: no event a
    client sends moves a socket into or out of such a room. *)
Theorem org_broadcast_reaches_the_organization
    (h h' : Hub) (i : string) (sk : Socket) (org event : string) :
  sockets h = ∅ ->
  rtc step h h' ->
  sockets h' !! i = Some sk ->
  hears sk (IoToEmit ("org:" ++ org) event)
  = bool_decide (organizationId (data sk) = org).
Proof.
  intros Hempty Hsteps Hsk.
  assert (Hh' : hub_connected h').
  { apply (rtc_ind_r (R := step) hub_connected h); [| | exact Hsteps].
    - intros j sk'. rewrite Hempty, lookup_empty. discriminate.
    - intros h1 h2 _ Hstep IH. now apply (step_keeps_connected h1 h2). }
  destruct (Hh' i sk Hsk) as [_ Hconnected].
  cbn [hears]. apply bool_decide_ext. now apply connected_org_room.
Qed.

End Rooms.

Lemma org_broadcast_reaches_the_organization_witness :
  let h1 := Realtime.run Realtime.handleConnection Realtime.all_resolve
              (Realtime.socket Realtime.sample_mallory) Realtime.empty_hub in
  exists sk,
    Realtime.sockets
      (Realtime.run (Realtime.handleSessionJoin "9b2f") Realtime.all_resolve sk h1)
      !! "Qp9-m" = Some
        (Realtime.socket
           (Eff.state_of (Realtime.handleSessionJoin "9b2f" Realtime.all_resolve
                            {| Realtime.this := Realtime.gateway h1;
                               Realtime.socket := sk |})))
    /\ Realtime.hears
         (Realtime.socket
            (Eff.state_of (Realtime.handleSessionJoin "9b2f" Realtime.all_resolve
                             {| Realtime.this := Realtime.gateway h1;
                                Realtime.socket := sk |})))
         (Realtime.IoToEmit ("org:" ++ "org-1") "channel.message") = false.
Proof.
  intros h1.
  set (sk := Realtime.socket
               (Eff.state_of (Realtime.handleConnection Realtime.all_resolve
                                {| Realtime.this := Realtime.gateway Realtime.empty_hub;
                                   Realtime.socket :=
                                     Realtime.socket Realtime.sample_mallory |}))).
  assert (Hsk : Realtime.sockets h1 !! Realtime.id sk = Some sk) by apply lookup_insert_eq.
  exists sk. split; [apply lookup_insert_eq |].
  rewrite (org_broadcast_reaches_the_organization Realtime.empty_hub
             (Realtime.run (Realtime.handleSessionJoin "9b2f") Realtime.all_resolve sk h1)
             "Qp9-m" _ "org-1" "channel.message").
  - reflexivity.
  - reflexivity.
  - eapply rtc_l.
    + apply (Realtime.step_connection Realtime.all_resolve
               (Realtime.socket Realtime.sample_mallory) Realtime.empty_hub);
        reflexivity.
    + apply rtc_once.
      apply (Realtime.step_event _ Realtime.all_resolve sk h1
               (Realtime.on_session_join "9b2f") Hsk).
  - apply lookup_insert_eq.
Defined.

(** ** The realtime gateway: sessions and events *)

Section Sessions.

Import Eff Realtime.

(** X23. [session.join] puts a socket in the room of any session it
    names, and [message.send] goes to the room of the session it names:
    whoever the two clients are, a socket that has joined a session
    receives the messages sent to it. *)
Theorem session_join_is_unchecked
    (w w' : World call) (a b : Scope) (p : MessagePayload) :
  Gateway.io (this b) <> None ->
  let room := "session:" ++ message_sessionId p in
  let a' := socket (state_of (handleSessionJoin (message_sessionId p) w a)) in
  In (IoToEmit room "message.received") (trace_of (handleMessageSend (Some p) w' b))
  /\ hears a' (IoToEmit room "message.received") = true.
Proof.
  intros Hio. cbv zeta. split.
  - unfold handleMessageSend, broadcastToSession, socket_emit, read.
    eff_unfold. cbn. rewrite (bool_decide_eq_true_2 _ Hio).
    repeat match goal with
           | |- context [w' ?c] => destruct (w' c); cbn
           end; now left.
  - unfold handleSessionJoin, socket_join, socket_emit.
    eff_unfold. cbn.
    destruct (w (SocketEmit (id (socket a)) "session.joined")); cbn;
      apply bool_decide_eq_true_2; set_solver.
Qed.

(** X24. The handlers of [session.create] and [message.send] never
    throw, with or without a payload, as long as the [error] event can
    be emitted to the socket; the handler of [skill.execute] throws when
    the payload is missing, before it has emitted anything. *)
Theorem events_with_and_without_payload
    (w : World call) (s : Scope) (create : option SessionCreatePayload) (uuid : string)
    (message : option MessagePayload) :
  w (SocketEmit (id (socket s)) "error") = None ->
  result_of (handleSessionCreate create uuid w s) = Ok tt
  /\ result_of (handleMessageSend message w s) = Ok tt
  /\ result_of (handleSkillExecute None w s) = Throw Channels.undefined_read
  /\ trace_of (handleSkillExecute None w s) = [].
Proof.
  intros Herr. destruct s as [[io pub sub n] [i d r]]. cbn in Herr.
  split; [| split; [| split; reflexivity]].
  - unfold handleSessionCreate, broadcastToOrg, socket_join, socket_emit, read.
    destruct create as [p|]; eff_unfold; cbn; [| now rewrite Herr].
    destruct (w (SocketEmit i "session.created")); cbn; [now rewrite Herr |].
    destruct (bool_decide (io <> None)); cbn; [| reflexivity].
    destruct (w (IoToEmit ("org:" ++ organizationId d) "session.new")); cbn;
      [now rewrite Herr | reflexivity].
  - unfold handleMessageSend, broadcastToSession, socket_emit, read.
    destruct message as [p|]; eff_unfold; cbn; [| now rewrite Herr].
    destruct (bool_decide (io <> None)); cbn.
    + destruct (w (IoToEmit ("session:" ++ message_sessionId p) "message.received")); cbn;
        [now rewrite Herr |].
      destruct (w (SocketEmit i "message.sent")); cbn; [now rewrite Herr | reflexivity].
    + destruct (w (SocketEmit i "message.sent")); cbn; [now rewrite Herr | reflexivity].
Qed.

End Sessions.

Lemma session_join_is_unchecked_witness :
  Realtime.organizationId (Realtime.data (Realtime.socket Realtime.sample_mallory))
  <> Realtime.organizationId (Realtime.data (Realtime.socket Realtime.sample_alice))
  /\ Realtime.hears
       (Realtime.socket
          (Eff.state_of (Realtime.handleSessionJoin "9b2f" Realtime.all_resolve
                           Realtime.sample_mallory)))
       (Realtime.IoToEmit ("session:" ++ "9b2f") "message.received") = true.
Proof.
  split; [discriminate |].
  apply (session_join_is_unchecked Realtime.all_resolve Realtime.all_resolve
           Realtime.sample_mallory Realtime.sample_alice Realtime.sample_message).
  discriminate.
Defined.

Lemma events_with_and_without_payload_witness :
  Eff.result_of (Realtime.handleMessageSend None Realtime.all_resolve Realtime.sample_alice)
  = Ok tt
  /\ Eff.trace_of (Realtime.handleMessageSend None Realtime.all_resolve Realtime.sample_alice)
     = [Realtime.SocketEmit "Xk3_a" "error"].
Proof.
  split; [| reflexivity].
  apply (events_with_and_without_payload Realtime.all_resolve Realtime.sample_alice
           None "9b2f" None).
  reflexivity.
Defined.

(** ** The realtime gateway: the handshake *)

Section Handshake.

Import Eff Realtime.

Context {UJ : Auth.UserJson}.

Variable remote : Auth.Remote.

Ltac refused :=
  solve [ cbn;
          split; [eexists; reflexivity | split; [reflexivity | split; [reflexivity |]]];
          intros ? [=] ].

(** X25. The gateway checks every handshake with the auth service: its
    auth client has no Redis, so the middleware neither reads nor writes
    the token cache, and a handshake is accepted only after the service
    has answered, for the token of this handshake, that it is valid, with
    the user and the organization the socket then carries. The
    middleware itself never throws. *)
Theorem handshake_is_checked_by_the_service
    (NEXUS_AUTH_URL NEXUS_API_KEY : option string) (h : Handshake)
    (w : World call) (cache : Auth.Cache) :
  let run :=
    authenticate remote (gateway_authClient NEXUS_AUTH_URL NEXUS_API_KEY) h w cache in
  (exists next, result_of run = Ok next)
  /\ state_of run = cache
  /\ existsb is_redis_call (trace_of run) = false
  /\ forall data,
       result_of run = Ok (Accepted data) ->
       exists token reply u,
         handshake_token h = Some token
         /\ In (AuthCall (Auth.HttpPost "/v1/auth/validate")) (trace_of run)
         /\ Auth.post_validate remote token = Auth.Response reply
         /\ Auth.valid reply = true
         /\ Auth.user reply = Some u
         /\ userId data = Auth.id u
         /\ organizationId data = Auth.organization_id u.
Proof.
  intros run. subst run. unfold authenticate.
  destruct (handshake_token h) as [[|c t]|] eqn:Htoken;
    try (eff_unfold; cbn; refused).
  unfold authClient_validateToken, embed. eff_unfold.
  rewrite (validateToken_without_redis remote) by reflexivity.
  destruct (Auth.jwt_decode remote (String c t)) as [decoded|]; [| refused].
  destruct (Auth.expired remote (Auth.or_zero (Auth.claim_exp decoded))); [refused |].
  destruct (Auth.post_validate remote (String c t)) as [reply | status msg] eqn:Hpost.
  - destruct reply as [[] [u|] err]; try refused.
    cbn. split; [eexists; reflexivity | split; [reflexivity | split; [reflexivity |]]].
    intros data' [= <-].
    exists (String c t), {| Auth.valid := true; Auth.user := Some u; Auth.error := err |}, u.
    cbn. repeat split; auto.
  - repeat match goal with
           | |- context [match ?x with _ => _ end] => is_var x; destruct x
           end; refused.
Qed.

End Handshake.

Lemma handshake_is_checked_by_the_service_witness :
  let run :=
    Realtime.authenticate Reference.accepting_remote (Realtime.gateway_authClient None None)
      Reference.sample_handshake Realtime.all_resolve ∅ in
  (exists data,
     Eff.result_of run = Ok (Realtime.Accepted data)
     /\ Realtime.organizationId data = "org-1")
  /\ existsb Realtime.is_redis_call (Eff.trace_of run) = false.
Proof.
  intros run. split.
  - eexists. split; reflexivity.
  - apply (handshake_is_checked_by_the_service (UJ := Reference.user_json)
             Reference.accepting_remote None None Reference.sample_handshake
             Realtime.all_resolve ∅).
Defined.

(** ** The server: shutdown *)

Section ServerShutdown.

Import Eff Server.

Lemma preserves_embed {call1 call2 state1 state2 A : Type} (P : state2 -> Prop)
    (inj : call1 -> call2) (field : state2 -> state1) (update : state1 -> state2 -> state2)
    (m : M call1 state1 A) :
  (forall s1 s, P s -> P (update s1 s)) -> preserves P (embed inj field update m).
Proof.
  intros Hupdate w s Hs. unfold embed, state_of.
  destruct (m (fun c => w (inj c)) (field s)) as [[r s1] t]. cbn. now apply Hupdate.
Qed.

(** Once [shutdown] has been called, the flag is up, however the call
    ends. *)
Lemma shutdown_raises_the_flag (w : World call) (s : OpenClawServer) :
  isShuttingDown (state_of (shutdown w s)) = true.
Proof.
  enough (Hens : ensures (fun _ => True) shutdown (fun _ s' => isShuttingDown s' = true))
    by now apply (Hens w s).
  unfold shutdown. apply ensures_get. intros s0.
  destruct (isShuttingDown s0) eqn:Hflag.
  - intros w' s' [Hs' _]. subst s'. exact Hflag.
  - apply (ensures_bind _ _ _ (fun _ s' => isShuttingDown s' = true)).
    { intros w' s' _. reflexivity. }
    intros _. apply ensures_preserved; [| auto].
    unfold server_close, gateway_shutdown.
    repeat first [ preserves_step | apply preserves_embed; intros ? ? ? ]; assumption.
Qed.

(** With the flag up, [shutdown] only warns. *)
Lemma shutdown_when_shutting_down (w : World call) (s : OpenClawServer) :
  isShuttingDown s = true ->
  shutdown w s = (Ok tt, s, [LoggerCall Channels.LWarn "Shutdown already in progress"]).
Proof. intros Hflag. unfold shutdown. eff_unfold. now rewrite Hflag. Qed.

(** X26. [shutdown] runs once: after a first call, however it ended, a
    further call logs that a shutdown is in progress and does nothing
    else; in particular it closes nothing that the first call, failing,
    left open. *)
Theorem server_shutdown_runs_once (w w' : World call) (s : OpenClawServer) :
  shutdown w' (state_of (shutdown w s))
  = (Ok tt, state_of (shutdown w s),
     [LoggerCall Channels.LWarn "Shutdown already in progress"]).
Proof. apply shutdown_when_shutting_down, shutdown_raises_the_flag. Qed.

Lemma not_a_gateway_call (c : call) (t : list Gateway.call) :
  (forall g, c <> GatewayCall g) -> ~ In c (map GatewayCall t).
Proof. intros Hc [g [Hg _]]%in_map_iff. now apply (Hc g). Qed.

Ltac not_in_trace :=
  intros Hin;
  repeat first
    [ apply in_app_or in Hin
    | destruct Hin as [Hin | Hin]; [try discriminate |]
    | apply not_a_gateway_call in Hin; [| discriminate] ];
  try contradiction.

(** X27. A failure before the database is reached leaves the database
    and Redis open for good: when closing the HTTP server, shutting down
    the gateway or shutting down the channel manager fails, [shutdown]
    throws without having called [database.end()] or [redis.quit()], and
    no later call of [shutdown] makes up for it. *)
Theorem server_shutdown_failure_leaves_connections_open
    (w w' : World call) (s : OpenClawServer) :
  isShuttingDown s = false ->
  w ServerClose <> None
  \/ result_of (Gateway.shutdown (fun c => w (GatewayCall c)) (gateway s)) <> Ok tt
  \/ w ChannelManagerShutdown <> None ->
  (exists e, result_of (shutdown w s) = Throw e)
  /\ ~ In DatabaseEnd (trace_of (shutdown w s) ++ trace_of (shutdown w' (state_of (shutdown w s))))
  /\ ~ In RedisQuit (trace_of (shutdown w s) ++ trace_of (shutdown w' (state_of (shutdown w s)))).
Proof.
  intros Hflag Hfail.
  rewrite (shutdown_when_shutting_down w' _ (shutdown_raises_the_flag w s)).
  cbn [trace_of snd].
  unfold shutdown, server_close, gateway_shutdown, embed. eff_unfold.
  rewrite Hflag. cbn.
  destruct (w ServerClose) as [msg|] eqn:Hclose; cbn.
  { split; [eauto |]. split; not_in_trace. }
  destruct (Gateway.shutdown (fun c => w (GatewayCall c)) (gateway s)) as [[[[]|e] g] t];
    cbn in *.
  2: { split; [eauto |]. split; not_in_trace. }
  destruct (w ChannelManagerShutdown) as [msg|] eqn:Hmanager; cbn.
  { split; [eauto |]. split; not_in_trace. }
  exfalso. destruct Hfail as [Hfail | [Hfail | Hfail]]; now apply Hfail.
Qed.

End ServerShutdown.

Lemma server_shutdown_failure_leaves_connections_open_witness :
  Eff.result_of (Server.shutdown Server.pub_quit_rejects Server.running)
  = Throw (Error "Connection is closed.")
  /\ ~ In Server.DatabaseEnd
         (Eff.trace_of (Server.shutdown Server.pub_quit_rejects Server.running)
          ++ Eff.trace_of (Server.shutdown Server.all_resolve
                             (Eff.state_of (Server.shutdown Server.pub_quit_rejects
                                              Server.running)))).
Proof.
  split; [reflexivity |].
  apply (server_shutdown_failure_leaves_connections_open Server.pub_quit_rejects
           Server.all_resolve Server.running).
  - reflexivity.
  - right. left. vm_compute. discriminate.
Defined.

(** ** The WhatsApp adapter: sending *)

Section Sending.

Import Eff Outbound.

Variable status_text : ConnectionStatus -> string.

(** X28. The counters of [sendMessage] on a connected WhatsApp adapter:
    an error is counted exactly when the call throws, a message is
    counted as sent exactly when [socket.sendMessage] went through, even
    if the call throws afterwards, and nothing is sent to anyone but the
    normalized recipient. *)
Theorem sendMessage_accounting
    (w : World call) (a : Channels.WhatsApp.WhatsAppAdapter)
    (message : OutgoingMessage) (sent : option (option string)) :
  Channels.WhatsApp.socket a <> None ->
  Channels.WhatsApp.status a = CONNECTED ->
  let run := sendMessage status_text message sent w a in
  counted Channels.errors a (state_of run)
  = match result_of run with Throw _ => 1 | Ok _ => 0 end
  /\ counted Channels.messagesSent a (state_of run)
     = (if existsb (delivered w) (trace_of run) then 1 else 0)
  /\ counted Channels.messagesReceived a (state_of run) = 0
  /\ existsb
       (sent_elsewhere (Channels.WhatsApp.normalizeJid (recipientId message)))
       (trace_of run) = false.
Proof.
  intros Hsocket Hstatus.
  destruct a as [[so|] o st stats dir q n m sh t]; [| now cbn in Hsocket].
  cbn in Hstatus. subst st. cbv zeta.
  unfold sendMessage, counted, buildMessageContent, adapter, embed,
    Channels.WhatsApp.logger, Channels.WhatsApp.this_options, count_error, count_sent,
    Channels.WhatsApp.set_stats.
  set (jid := Channels.WhatsApp.normalizeJid (recipientId message)).
  destruct message as [rcpt [| | | | |other] text [md|]];
    destruct o as [o|], sent as [[key|]|];
    repeat (progress
              (eff_unfold; cbn;
               rewrite ?(bool_decide_eq_true_2 (CONNECTED = CONNECTED) eq_refl);
               repeat match goal with
                      | H : w ?c = _ |- context [w ?c] => rewrite H
                      end;
               repeat match goal with
                      | |- context [w ?c] => destruct (w c) eqn:?
                      end;
               rewrite ?String.eqb_refl;
               rewrite ?(bool_decide_eq_true_2 (None = None) eq_refl);
               try rewrite (bool_decide_eq_false_2 (Some _ = None)) by discriminate));
    repeat split; lia.
Qed.

End Sending.

Lemma sendMessage_accounting_witness :
  let run :=
    Outbound.sendMessage (fun _ => "connected") Outbound.sample_text (Some (Some "3EB0"))
      Outbound.all_resolve Channels.connected_whatsapp in
  Eff.result_of run = Ok "3EB0"
  /\ Outbound.counted Channels.messagesSent Channels.connected_whatsapp (Eff.state_of run) = 1.
Proof.
  intros run. split; [vm_compute; reflexivity |].
  destruct (sendMessage_accounting (fun _ => "connected") Outbound.all_resolve
              Channels.connected_whatsapp Outbound.sample_text (Some (Some "3EB0")))
    as (_ & Hsent & _).
  - vm_compute. discriminate.
  - vm_compute. reflexivity.
  - fold run in Hsent. rewrite Hsent. vm_compute. reflexivity.
Defined.

(** ** The error middleware *)

Section ErrorResponses.

Import Eff ErrorHandler.

(** X29. In production the error middleware answers without the stack
    and without the context of the error, whatever the error is, and
    with a fixed message unless the error says it is operational; the
    code of the error goes out as it is. *)
Theorem production_response_hides_internals
    (timestamp : string) (err : AppError) (w : World call) (status : Z) (body : ErrorBody) :
  In (status, body) (responses (trace_of (errorHandler (Some "production") timestamp err w tt))) ->
  body_stack body = None
  /\ body_context body = None
  /\ body_message body
     = (if isOperational err is Some true
        then message err
        else "An unexpected error occurred")
  /\ body_code body
     = match code err with
       | Some (String c s) => String c s
       | _ => "UNKNOWN_ERROR"
       end.
Proof.
  unfold errorHandler, formatErrorResponse. eff_unfold.
  change (NODE_ENV (Some "production")) with "production".
  change ("production" =? "production")%string with true.
  cbn [negb andb].
  destruct (isOperational err) as [[]|]; cbn [negb];
    repeat match goal with
           | |- context [if ?b then _ else _] => destruct b
           end;
    cbn;
    match goal with
    | |- context [w ?c] => destruct (w c)
    end;
    cbn; intros [[= <- <-] | []]; cbn; auto.
Qed.

End ErrorResponses.

Lemma production_response_hides_internals_witness :
  exists body,
    ErrorHandler.responses
      (Eff.trace_of (ErrorHandler.errorHandler (Some "production") "2026-01-01T00:00:00.000Z"
                       ErrorHandler.sample_driver_error ErrorHandler.all_resolve tt))
    = [(500, body)]
    /\ ErrorHandler.body_message body = "An unexpected error occurred"
    /\ ErrorHandler.body_code body = "28P01".
Proof.
  eexists. split; [reflexivity |].
  destruct (production_response_hides_internals "2026-01-01T00:00:00.000Z"
              ErrorHandler.sample_driver_error ErrorHandler.all_resolve 500 _
              (or_introl eq_refl))
    as (_ & _ & Hmessage & Hcode).
  split; [exact Hmessage | exact Hcode].
Defined.
